(** * love-judge: the case / hearing / verdict lifecycle

    A shallow embedding of [src/domain/types.ts], [src/store/fileStore.ts],
    [src/services/openaiJudge.ts] and the case routes of [src/http/server.ts],
    with the properties of the lifecycle stated over it.

    Conventions of the embedding.
    - A JavaScript string is a [string]; [===] on strings is [String.eqb].
    - An optional field ([x?: T]) is an [option]; [None] is [undefined].
    - An ISO timestamp ([new Date().toISOString()]) is the millisecond count
      it denotes, a [Z]; [new Date(s).getTime()] gives it back.
    - The clock, [uuid()] and [randomUUID()] are inputs: a function that reads
      one takes the value read as an argument, one argument per read.
    - A JavaScript number is a [number]: NaN, the two infinities, or a finite
      value, which is kept as the rational it denotes.  Comparison, [Math.min]
      and [Math.max] are exact on those.  [round + 1] is taken exactly, which
      is what JavaScript computes for integers below 2^53.  The division and
      the multiplication of [defaultVerdict] go through an explicit rounding
      function.
    - The store is the module variable [cache] together with the contents of
      [data/db.json]; [save] copies the first onto the second.  An object
      found in an array of [cache] and then assigned to is the array element
      itself, so the assignment is an update of that element in place. *)

From Stdlib Require Import ZArith List String Ascii Bool Lia QArith Qround Lqa.
Import ListNotations.

Set Warnings "-register-all".
Local Open Scope string_scope.
Local Open Scope Z_scope.
Local Open Scope list_scope.

(** ** JavaScript numbers *)

Inductive number :=
| NaN
| NegInfinity
| PosInfinity
| Fin (q : Q).

Definition int (z : Z) : number := Fin (inject_Z z).

Definition isNaN (a : number) : bool :=
  match a with NaN => true | _ => false end.

(** [a < b]; false as soon as one side is NaN. *)
Definition num_ltb (a b : number) : bool :=
  match a, b with
  | NaN, _ | _, NaN => false
  | NegInfinity, NegInfinity => false
  | NegInfinity, _ => true
  | _, NegInfinity => false
  | PosInfinity, _ => false
  | Fin _, PosInfinity => true
  | Fin x, Fin y => negb (Qle_bool y x)
  end.

(** [Math.max(a, b)] and [Math.min(a, b)]. *)
Definition Math_max2 (a b : number) : number :=
  if isNaN a || isNaN b then NaN else if num_ltb a b then b else a.

Definition Math_min2 (a b : number) : number :=
  if isNaN a || isNaN b then NaN else if num_ltb b a then b else a.

(** [Math.max(...l)]: [-Infinity] for no argument. *)
Definition Math_max (l : list number) : number :=
  fold_left Math_max2 l NegInfinity.

(** [a + 1], as the exact sum.  The code adds doubles, and the double sum is
    the exact one when [a] is an integer of absolute value below 2^53; from
    2^53 on it is not ([2^53 + 1] is again [2^53]).  What is proved of the
    round given to a new hearing is stated for rounds in that range. *)
Definition add1 (a : number) : number :=
  match a with
  | Fin q => Fin (q + 1)%Q
  | other => other
  end.

(** ** Domain types ([src/domain/types.ts]) *)

Inductive PartySide := A | B.

Definition PartySide_eqb (x y : PartySide) : bool :=
  match x, y with A, A | B, B => true | _, _ => false end.

Record Party := {
  side : PartySide;
  name : option string;
  baseline_state : option string
}.

Inductive CaseStatus :=
| pending_acceptance | draft | pending_judgement | decided | appealed
| expired | closed.

Inductive Acceptance :=
| acc_pending | acc_accepted | acc_rejected | acc_expired.

Record Case := {
  c_id : string;
  c_topic : string;
  c_relationship_context : option string;
  c_parties : list Party;
  c_status : CaseStatus;
  c_created_at : Z;
  c_owner_id : option string;
  c_participant_ids : option (list string);
  c_invited_user_id : option string;
  c_expires_at : option Z;
  c_acceptance : option Acceptance
}.

Inductive HearingStatus := submitted | judged.

Record Hearing := {
  h_id : string;
  h_case_id : string;
  h_round : number;
  h_status : HearingStatus;
  h_created_at : Z
}.

Record Statement := {
  st_hearing_id : string;
  st_side : PartySide;
  st_narrative : string;
  st_feelings : option string;
  st_context : option string;
  st_requests : option (list string);
  st_created_at : Z
}.

Inductive EvidenceType := ev_text | ev_link | ev_image | ev_other.

Record Evidence := {
  e_id : string;
  e_hearing_id : string;
  e_side : PartySide;
  e_type : EvidenceType;
  e_title : option string;
  e_content_or_url : string;
  e_notes : option string;
  e_created_at : Z
}.

(** ** JSON values

    What [JSON.parse] and [express.json()] produce.  An object is the list of
    its own properties; [JInf] is a number literal that overflows
    ([1e999]). *)

Inductive json :=
| JNull
| JBool (b : bool)
| JNum (q : Q)
| JInf (negative : bool)
| JStr (s : string)
| JArr (items : list json)
| JObj (fields : list (string * json)).

Fixpoint lookup {V : Type} (k : string) (l : list (string * V)) : option V :=
  match l with
  | [] => None
  | (k', v) :: t => if String.eqb k k' then Some v else lookup k t
  end.

(** [v.k] for a value [v] that is neither [null] nor [undefined].  None of the
    property names the program reads exists on a prototype, so only an object
    has them. *)
Definition prop (v : json) (k : string) : option json :=
  match v with
  | JObj fields => lookup k fields
  | _ => None
  end.

(** [v?.k], where [None] is [undefined]. *)
Definition opt_prop (v : option json) (k : string) : option json :=
  match v with
  | None | Some JNull => None
  | Some o => prop o k
  end.

(** [v ?? d]. *)
Definition nullish (v : option json) (d : json) : json :=
  match v with
  | None | Some JNull => d
  | Some x => x
  end.

(** The fields of a verdict are typed in [types.ts], but [judge] fills them
    with whatever the parsed response holds, so they are kept as JSON
    values. *)
Record Score := {
  partyA_pct : number;
  partyB_pct : number;
  confidence : number
}.

Record Reasoning := {
  facts : json;
  fairness_checks : json;
  emotion_considerations : json;
  assumptions : json;
  missing_info : json
}.

Record Advice := {
  together : json;
  forA : json;
  forB : json
}.

Record Verdict := {
  v_hearing_id : string;
  v_score : Score;
  v_summary : json;
  v_reasoning : Reasoning;
  v_advice : Advice;
  v_raw_agent_payload : option json;
  v_created_at : Z
}.

Record ChatMessage := {
  m_id : string;
  m_from_user_id : string;
  m_to_user_id : string;
  m_content : string;
  m_created_at : Z
}.

(** ** The store ([src/store/fileStore.ts]) *)

Record User := {
  u_id : string;
  u_email : string;
  u_name : string;
  u_password : string;
  u_friends : list string
}.

Record DataShape := {
  users : list User;
  cases : list Case;
  hearings : list Hearing;
  statements : list Statement;
  evidence : list Evidence;
  verdicts : list Verdict;
  messages : list ChatMessage
}.

(** [cache] is what [getData()] returns; [file] is [data/db.json]. *)
Record Store := {
  cache : DataShape;
  file : DataShape
}.

Definition save (data : DataShape) : Store :=
  {| cache := data; file := data |}.

(** The messages of the errors the store throws. *)
Inductive Error :=
| email_exists | user_not_found | case_not_found | case_rejected
| case_expired | forbidden.

Definition set_users (d : DataShape) (l : list User) : DataShape :=
  {| users := l; cases := cases d; hearings := hearings d;
     statements := statements d; evidence := evidence d;
     verdicts := verdicts d; messages := messages d |}.

Definition set_cases (d : DataShape) (l : list Case) : DataShape :=
  {| users := users d; cases := l; hearings := hearings d;
     statements := statements d; evidence := evidence d;
     verdicts := verdicts d; messages := messages d |}.

Definition set_hearings (d : DataShape) (l : list Hearing) : DataShape :=
  {| users := users d; cases := cases d; hearings := l;
     statements := statements d; evidence := evidence d;
     verdicts := verdicts d; messages := messages d |}.

Definition set_statements (d : DataShape) (l : list Statement) : DataShape :=
  {| users := users d; cases := cases d; hearings := hearings d;
     statements := l; evidence := evidence d;
     verdicts := verdicts d; messages := messages d |}.

Definition set_evidence (d : DataShape) (l : list Evidence) : DataShape :=
  {| users := users d; cases := cases d; hearings := hearings d;
     statements := statements d; evidence := l;
     verdicts := verdicts d; messages := messages d |}.

Definition set_verdicts (d : DataShape) (l : list Verdict) : DataShape :=
  {| users := users d; cases := cases d; hearings := hearings d;
     statements := statements d; evidence := evidence d;
     verdicts := l; messages := messages d |}.

Definition set_messages (d : DataShape) (l : list ChatMessage) : DataShape :=
  {| users := users d; cases := cases d; hearings := hearings d;
     statements := statements d; evidence := evidence d;
     verdicts := verdicts d; messages := l |}.

Definition set_status (c : Case) (st : CaseStatus) : Case :=
  {| c_id := c_id c; c_topic := c_topic c;
     c_relationship_context := c_relationship_context c;
     c_parties := c_parties c; c_status := st;
     c_created_at := c_created_at c; c_owner_id := c_owner_id c;
     c_participant_ids := c_participant_ids c;
     c_invited_user_id := c_invited_user_id c;
     c_expires_at := c_expires_at c; c_acceptance := c_acceptance c |}.

Definition set_acceptance (c : Case) (a : Acceptance) : Case :=
  {| c_id := c_id c; c_topic := c_topic c;
     c_relationship_context := c_relationship_context c;
     c_parties := c_parties c; c_status := c_status c;
     c_created_at := c_created_at c; c_owner_id := c_owner_id c;
     c_participant_ids := c_participant_ids c;
     c_invited_user_id := c_invited_user_id c;
     c_expires_at := c_expires_at c; c_acceptance := Some a |}.

Definition set_participant_ids (c : Case) (l : list string) : Case :=
  {| c_id := c_id c; c_topic := c_topic c;
     c_relationship_context := c_relationship_context c;
     c_parties := c_parties c; c_status := c_status c;
     c_created_at := c_created_at c; c_owner_id := c_owner_id c;
     c_participant_ids := Some l;
     c_invited_user_id := c_invited_user_id c;
     c_expires_at := c_expires_at c; c_acceptance := c_acceptance c |}.

Definition set_h_status (h : Hearing) (st : HearingStatus) : Hearing :=
  {| h_id := h_id h; h_case_id := h_case_id h; h_round := h_round h;
     h_status := st; h_created_at := h_created_at h |}.

Definition set_friends (u : User) (l : list string) : User :=
  {| u_id := u_id u; u_email := u_email u; u_name := u_name u;
     u_password := u_password u; u_friends := l |}.

(** An assignment to the object that [find] returned: the first element
    that satisfies [p] is replaced by its image. *)
Fixpoint update_first {T : Type} (p : T -> bool) (f : T -> T) (l : list T)
  : list T :=
  match l with
  | [] => []
  | x :: t => if p x then f x :: t else x :: update_first p f t
  end.

(** [l.includes(x)]. *)
Definition includes (l : list string) (x : string) : bool :=
  existsb (String.eqb x) l.

(** [Array.from(new Set(l))]: the first occurrence of each element, in
    order. *)
Fixpoint dedup (seen l : list string) : list string :=
  match l with
  | [] => []
  | x :: t => if includes seen x then dedup seen t else x :: dedup (x :: seen) t
  end.

Definition Array_from_Set (l : list string) : list string := dedup [] l.

(** A string in a condition: true unless empty or [undefined]. *)
Definition truthy (s : option string) : bool :=
  match s with
  | Some x => negb (String.eqb x "")
  | None => false
  end.

Definition has_id (id : string) (c : Case) : bool := String.eqb (c_id c) id.
Definition hearing_has_id (id : string) (h : Hearing) : bool :=
  String.eqb (h_id h) id.
Definition user_has_id (id : string) (u : User) : bool :=
  String.eqb (u_id u) id.

Definition opt_string_eqb (a b : option string) : bool :=
  match a, b with
  | Some x, Some y => String.eqb x y
  | None, None => true
  | _, _ => false
  end.

Definition acceptance_is (c : Case) (a : Acceptance) : bool :=
  match c_acceptance c, a with
  | Some acc_pending, acc_pending
  | Some acc_accepted, acc_accepted
  | Some acc_rejected, acc_rejected
  | Some acc_expired, acc_expired => true
  | _, _ => false
  end.

Definition createUser (s : Store) (email name password : string)
    (id hashed : string) : (Error + User) * Store :=
  let data := cache s in
  match find (fun u => String.eqb (u_email u) email) (users data) with
  | Some _ => (inl email_exists, s)
  | None =>
      let user := {| u_id := id; u_email := email; u_name := name;
                     u_password := hashed; u_friends := [] |} in
      (inr user, save (set_users data (users data ++ [user])))
  end.

Definition findUserByEmail (s : Store) (email : string) : option User :=
  find (fun u => String.eqb (u_email u) email) (users (cache s)).

Definition findUserById (s : Store) (id : string) : option User :=
  find (user_has_id id) (users (cache s)).

Definition push_friend (friendId : string) (u : User) : User :=
  if includes (u_friends u) friendId then u
  else set_friends u (u_friends u ++ [friendId]).

Definition addFriend (s : Store) (userId friendId : string)
  : (Error + unit) * Store :=
  let data := cache s in
  match find (user_has_id userId) (users data),
        find (user_has_id friendId) (users data) with
  | Some _, Some _ =>
      let us1 := update_first (user_has_id userId) (push_friend friendId)
                   (users data) in
      let us2 := update_first (user_has_id friendId) (push_friend userId)
                   us1 in
      (inr tt, save (set_users data us2))
  | _, _ => (inl user_not_found, s)
  end.

Record CreateCaseInput := {
  ownerId : string;
  topic : string;
  relationship_context : option string;
  parties : option (list Party);
  participantIds : option (list string);
  invitedUserId : option string
}.

Definition nonempty {T : Type} (l : option (list T)) : bool :=
  match l with
  | Some (_ :: _) => true
  | _ => false
  end.

Definition day_ms : Z := 24 * 60 * 60 * 1000.

(** [now] is the clock read by [new Date()], [now'] the one read by
    [Date.now()] for the expiry; [id] is [uuid()]. *)
Definition createCase (s : Store) (input : CreateCaseInput)
    (id : string) (now now' : Z) : Case * Store :=
  let data := cache s in
  let parties :=
    match parties input with
    | Some (p :: ps) => p :: ps
    | _ => [ {| side := A; name := None; baseline_state := None |};
             {| side := B; name := None; baseline_state := None |} ]
    end in
  let participants :=
    match participantIds input with
    | Some (p :: ps) => Array_from_Set (ownerId input :: p :: ps)
    | _ => [ownerId input]
    end in
  let expiresAt :=
    if truthy (invitedUserId input) then Some (now' + day_ms) else None in
  let newCase :=
    {| c_id := id;
       c_topic := topic input;
       c_relationship_context := relationship_context input;
       c_parties := parties;
       c_status :=
         if truthy (invitedUserId input) then pending_acceptance else draft;
       c_created_at := now;
       c_owner_id := Some (ownerId input);
       c_participant_ids := Some participants;
       c_invited_user_id := invitedUserId input;
       c_expires_at := expiresAt;
       c_acceptance :=
         Some (if truthy (invitedUserId input) then acc_pending
               else acc_accepted) |} in
  (newCase, save (set_cases data (cases data ++ [newCase]))).

(** [c.expires_at && new Date(c.expires_at).getTime() < now]. *)
Definition expiry_passed (c : Case) (now : Z) : bool :=
  match c_expires_at c with
  | Some e => e <? now
  | None => false
  end.

Definition should_expire (now : Z) (c : Case) : bool :=
  acceptance_is c acc_pending && expiry_passed c now.

Definition mark_expired (c : Case) : Case :=
  set_status (set_acceptance c acc_expired) expired.

Definition expireInvites (s : Store) (now : Z) : Store :=
  let data := cache s in
  let cases' :=
    map (fun c => if should_expire now c then mark_expired c else c)
      (cases data) in
  let mutated := existsb (should_expire now) (cases data) in
  if mutated then save (set_cases data cases') else s.

Definition listCasesByUser (s : Store) (userId : string) (now : Z)
  : list Case * Store :=
  let s' := expireInvites s now in
  (filter (fun c => match c_participant_ids c with
                    | Some l => includes l userId
                    | None => false
                    end) (cases (cache s')), s').

Definition getCase (s : Store) (caseId : string) (now : Z)
  : option Case * Store :=
  let s' := expireInvites s now in
  (find (has_id caseId) (cases (cache s')), s').

(** [now] is read only when the case has an expiry. *)
Definition acceptCase (s : Store) (caseId userId : string) (now : Z)
  : (Error + Case) * Store :=
  let data := cache s in
  match find (has_id caseId) (cases data) with
  | None => (inl case_not_found, s)
  | Some found =>
      if acceptance_is found acc_rejected then (inl case_rejected, s)
      else if acceptance_is found acc_accepted then (inr found, s)
      else if expiry_passed found now then
        (inl case_expired,
         save (set_cases data
                 (update_first (has_id caseId) mark_expired (cases data))))
      else if negb (opt_string_eqb (c_invited_user_id found) (Some userId))
      then (inl forbidden, s)
      else
        let accept (c : Case) :=
          set_participant_ids (set_status (set_acceptance c acc_accepted) draft)
            (Array_from_Set
               (match c_participant_ids c with Some l => l | None => [] end
                ++ [userId])) in
        (inr (accept found),
         save (set_cases data
                 (update_first (has_id caseId) accept (cases data))))
  end.

Definition rejectCase (s : Store) (caseId userId : string)
  : (Error + Case) * Store :=
  let data := cache s in
  match find (has_id caseId) (cases data) with
  | None => (inl case_not_found, s)
  | Some found =>
      if negb (opt_string_eqb (c_invited_user_id found) (Some userId))
      then (inl forbidden, s)
      else
        let reject (c : Case) :=
          set_status (set_acceptance c acc_rejected) closed in
        (inr (reject found),
         save (set_cases data
                 (update_first (has_id caseId) reject (cases data))))
  end.

Definition createHearing (s : Store) (caseId : string) (round : number)
    (id : string) (now : Z) : Hearing * Store :=
  let data := cache s in
  let hearing := {| h_id := id; h_case_id := caseId; h_round := round;
                    h_status := submitted; h_created_at := now |} in
  (hearing,
   save (set_cases (set_hearings data (hearings data ++ [hearing]))
           (update_first (has_id caseId)
              (fun c => set_status c pending_judgement) (cases data)))).

Definition saveStatements (s : Store) (hearingId : string)
    (sts : list Statement) : Store :=
  let data := cache s in
  save (set_statements data
          (filter (fun x => negb (String.eqb (st_hearing_id x) hearingId))
             (statements data) ++ sts)).

Definition saveEvidence (s : Store) (hearingId : string)
    (evs : list Evidence) : Store :=
  let data := cache s in
  save (set_evidence data
          (filter (fun x => negb (String.eqb (e_hearing_id x) hearingId))
             (evidence data) ++ evs)).

Definition getHearing (s : Store) (hearingId : string) : option Hearing :=
  find (hearing_has_id hearingId) (hearings (cache s)).

Definition listHearings (s : Store) (caseId : string) : list Hearing :=
  filter (fun h => String.eqb (h_case_id h) caseId) (hearings (cache s)).

Definition getStatements (s : Store) (hearingId : string) : list Statement :=
  filter (fun x => String.eqb (st_hearing_id x) hearingId)
    (statements (cache s)).

Definition getEvidence (s : Store) (hearingId : string) : list Evidence :=
  filter (fun x => String.eqb (e_hearing_id x) hearingId)
    (evidence (cache s)).

Definition saveVerdict (s : Store) (verdict : Verdict) : Store :=
  let data := cache s in
  let verdicts' :=
    filter (fun v => negb (String.eqb (v_hearing_id v) (v_hearing_id verdict)))
      (verdicts data) ++ [verdict] in
  let hearing := find (hearing_has_id (v_hearing_id verdict)) (hearings data) in
  let hearings' :=
    update_first (hearing_has_id (v_hearing_id verdict))
      (fun h => set_h_status h judged) (hearings data) in
  let cases' :=
    match hearing with
    | Some h =>
        update_first (has_id (h_case_id h)) (fun c => set_status c decided)
          (cases data)
    | None => cases data
    end in
  save (set_cases (set_hearings (set_verdicts data verdicts') hearings')
          cases').

Definition getVerdict (s : Store) (hearingId : string) : option Verdict :=
  find (fun v => String.eqb (v_hearing_id v) hearingId) (verdicts (cache s)).

Definition saveMessage (s : Store) (from to content : string)
    (id : string) (now : Z) : ChatMessage * Store :=
  let data := cache s in
  let msg := {| m_id := id; m_from_user_id := from; m_to_user_id := to;
                m_content := content; m_created_at := now |} in
  (msg, save (set_messages data (messages data ++ [msg]))).

(** ** Request validation (the zod schemas of [src/http/server.ts])

    A schema is a function from the property value ([None] when the property
    is missing) to the parsed value, [None] when the value is refused. *)

Definition z_string (v : option json) : option string :=
  match v with
  | Some (JStr s) => Some s
  | _ => None
  end.

(** [z.string().min(1)]. *)
Definition z_string_min1 (v : option json) : option string :=
  match z_string v with
  | Some s => if String.eqb s "" then None else Some s
  | None => None
  end.

(** [schema.optional()]. *)
Definition z_optional {T : Type} (schema : option json -> option T)
    (v : option json) : option (option T) :=
  match v with
  | None => Some None
  | Some _ => option_map Some (schema v)
  end.

(** [z.array(schema)]. *)
Fixpoint z_items {T : Type} (schema : option json -> option T)
    (items : list json) : option (list T) :=
  match items with
  | [] => Some []
  | x :: t =>
      match schema (Some x), z_items schema t with
      | Some y, Some ys => Some (y :: ys)
      | _, _ => None
      end
  end.

Definition z_array {T : Type} (schema : option json -> option T)
    (v : option json) : option (list T) :=
  match v with
  | Some (JArr items) => z_items schema items
  | _ => None
  end.

(** [z.array(schema).min(1)]. *)
Definition z_array_min1 {T : Type} (schema : option json -> option T)
    (v : option json) : option (list T) :=
  match z_array schema v with
  | Some (x :: t) => Some (x :: t)
  | _ => None
  end.

(** [z.union([z.literal("A"), z.literal("B")])]. *)
Definition z_side (v : option json) : option PartySide :=
  match v with
  | Some (JStr s) =>
      if String.eqb s "A" then Some A
      else if String.eqb s "B" then Some B
      else None
  | _ => None
  end.

Definition z_evidence_type (v : option json) : option EvidenceType :=
  match v with
  | Some (JStr s) =>
      if String.eqb s "text" then Some ev_text
      else if String.eqb s "link" then Some ev_link
      else if String.eqb s "image" then Some ev_image
      else if String.eqb s "other" then Some ev_other
      else None
  | _ => None
  end.

(** [Number.isInteger] on a finite number. *)
Definition is_integer (q : Q) : bool := Qeq_bool (inject_Z (Qfloor q)) q.

(** [z.number().int().positive()]. *)
Definition z_positive_int (v : option json) : option number :=
  match v with
  | Some (JNum q) =>
      if is_integer q && negb (Qle_bool q 0) then Some (Fin q) else None
  | _ => None
  end.

Definition partySchema (v : option json) : option Party :=
  match v with
  | Some (JObj f) =>
      match z_side (lookup "side" f),
            z_optional z_string (lookup "name" f),
            z_optional z_string (lookup "baseline_state" f) with
      | Some sd, Some nm, Some bs =>
          Some {| side := sd; name := nm; baseline_state := bs |}
      | _, _, _ => None
      end
  | _ => None
  end.

(** A statement and an evidence item as the schemas return them, before the
    handler adds the hearing id, the timestamp and the evidence id. *)
Record StatementInput := {
  si_side : PartySide;
  si_narrative : string;
  si_feelings : option string;
  si_context : option string;
  si_requests : option (list string)
}.

Record EvidenceInput := {
  ei_side : PartySide;
  ei_type : EvidenceType;
  ei_title : option string;
  ei_content_or_url : string;
  ei_notes : option string
}.

Definition statementSchema (v : option json) : option StatementInput :=
  match v with
  | Some (JObj f) =>
      match z_side (lookup "side" f),
            z_string_min1 (lookup "narrative" f),
            z_optional z_string (lookup "feelings" f),
            z_optional z_string (lookup "context" f),
            z_optional (z_array z_string) (lookup "requests" f) with
      | Some sd, Some na, Some fe, Some co, Some rq =>
          Some {| si_side := sd; si_narrative := na; si_feelings := fe;
                  si_context := co; si_requests := rq |}
      | _, _, _, _, _ => None
      end
  | _ => None
  end.

Definition evidenceSchema (v : option json) : option EvidenceInput :=
  match v with
  | Some (JObj f) =>
      match z_side (lookup "side" f),
            z_evidence_type (lookup "type" f),
            z_optional z_string (lookup "title" f),
            z_string_min1 (lookup "content_or_url" f),
            z_optional z_string (lookup "notes" f) with
      | Some sd, Some ty, Some ti, Some cu, Some no =>
          Some {| ei_side := sd; ei_type := ty; ei_title := ti;
                  ei_content_or_url := cu; ei_notes := no |}
      | _, _, _, _, _ => None
      end
  | _ => None
  end.

(** [{ ...s, hearing_id, created_at }]. *)
Definition stamp_statement (hearingId : string) (now : Z)
    (x : StatementInput) : Statement :=
  {| st_hearing_id := hearingId; st_side := si_side x;
     st_narrative := si_narrative x; st_feelings := si_feelings x;
     st_context := si_context x; st_requests := si_requests x;
     st_created_at := now |}.

(** [{ ...e, id: randomUUID(), hearing_id, created_at }]; [eid i] is the
    identifier drawn for the item of index [i]. *)
Fixpoint stamp_evidence (hearingId : string) (now : Z) (eid : nat -> string)
    (i : nat) (l : list EvidenceInput) : list Evidence :=
  match l with
  | [] => []
  | x :: t =>
      {| e_id := eid i; e_hearing_id := hearingId; e_side := ei_side x;
         e_type := ei_type x; e_title := ei_title x;
         e_content_or_url := ei_content_or_url x; e_notes := ei_notes x;
         e_created_at := now |}
      :: stamp_evidence hearingId now eid (S i) t
  end.

(** ** Responses *)

(** What can be thrown besides the store's errors. *)
Inductive Exception :=
| Failure (message : string)    (* [new Error(message)] *)
| TypeError                     (* raised by the engine *)
| SyntaxError                   (* raised by [JSON.parse] *)
| ReferenceError (name : string)
| Rejected.                     (* the call to the model provider failed *)

Inductive Body :=
| BError (msg : string)      (* [{ error: msg }] *)
| BInvalid                   (* [{ error: parsed.error.flatten() }] *)
| BCase (c : Case)
| BHearing (h : Hearing)     (* [{ hearing }] *)
| BVerdict (v : Verdict)     (* [{ verdict }] *)
| BCaught (e : Exception)    (* [{ error: error.message }] *)
| BUncaught (e : Exception). (* the answer of Express to an exception that
                                left the handler *)

Record Response := {
  status : Z;
  body : Body
}.

Definition respond (code : Z) (b : Body) : Response :=
  {| status := code; body := b |}.

(** [assertParticipant]: whether the acting user may go on. *)
Definition assertParticipant (userId : string) (caseItem : Case) : bool :=
  match c_participant_ids caseItem with
  | Some l => includes l userId
  | None => false
  end.

(** ** The case routes ([buildServer] in [src/http/server.ts])

    Every route below is behind [authMiddleware]; [userId] is the user it
    attached to the request.  A handler takes the store and returns the
    response with the store it leaves. *)

Definition error_message (e : Error) : string :=
  match e with
  | email_exists => "email_exists"
  | user_not_found => "user_not_found"
  | case_not_found => "case_not_found"
  | case_rejected => "case_rejected"
  | case_expired => "case_expired"
  | forbidden => "forbidden"
  end.

Record CreateCaseBody := {
  cb_topic : string;
  cb_relationship_context : option string;
  cb_parties : option (list Party);
  cb_friend_email : option string
}.

Record HearingBody := {
  hb_round : option number;
  hb_statements : list StatementInput;
  hb_evidence : option (list EvidenceInput)
}.

Record AppealBody := {
  ab_statements : option (list StatementInput);
  ab_evidence : option (list EvidenceInput)
}.

Definition hearingSchema (reqBody : option json) : option HearingBody :=
  match reqBody with
  | Some (JObj f) =>
      match z_optional z_positive_int (lookup "round" f),
            z_array_min1 statementSchema (lookup "statements" f),
            z_optional (z_array evidenceSchema) (lookup "evidence" f) with
      | Some r, Some sts, Some evs =>
          Some {| hb_round := r; hb_statements := sts; hb_evidence := evs |}
      | _, _, _ => None
      end
  | _ => None
  end.

(** The schema of the appeal route, applied to [req.body ?? {}]. *)
Definition appealSchema (reqBody : option json) : option AppealBody :=
  match nullish reqBody (JObj []) with
  | JObj f =>
      match z_optional (z_array statementSchema) (lookup "statements" f),
            z_optional (z_array evidenceSchema) (lookup "evidence" f) with
      | Some sts, Some evs =>
          Some {| ab_statements := sts; ab_evidence := evs |}
      | _, _ => None
      end
  | _ => None
  end.

Section Server.

(** The test [z.string().email()] applies. *)
Variable is_email : string -> bool.

Definition z_email (v : option json) : option string :=
  match z_string v with
  | Some s => if is_email s then Some s else None
  | None => None
  end.

Definition createCaseSchema (reqBody : option json)
  : option CreateCaseBody :=
  match reqBody with
  | Some (JObj f) =>
      match z_string_min1 (lookup "topic" f),
            z_optional z_string (lookup "relationship_context" f),
            z_optional (z_array partySchema) (lookup "parties" f),
            z_optional z_email (lookup "friend_email" f) with
      | Some t, Some rc, Some ps, Some fe =>
          Some {| cb_topic := t; cb_relationship_context := rc;
                  cb_parties := ps; cb_friend_email := fe |}
      | _, _, _, _ => None
      end
  | _ => None
  end.

(** [POST /cases]. *)
Definition post_cases (s : Store) (userId : string) (reqBody : option json)
    (id : string) (now now' : Z) : Response * Store :=
  match createCaseSchema reqBody with
  | None => (respond 400 BInvalid, s)
  | Some data =>
      let create (participantIds invitedUserId : option _) :=
        let (newCase, s') :=
          createCase s
            {| ownerId := userId; topic := cb_topic data;
               relationship_context := cb_relationship_context data;
               parties := cb_parties data;
               participantIds := participantIds;
               invitedUserId := invitedUserId |} id now now' in
        (respond 201 (BCase newCase), s') in
      if truthy (cb_friend_email data) then
        match findUserByEmail s
                (match cb_friend_email data with
                 | Some e => e | None => "" end) with
        | None => (respond 404 (BError "friend_not_found"), s)
        | Some friend => create (Some [u_id friend]) (Some (u_id friend))
        end
      else create None None
  end.

End Server.

(** [parsed.data.round ?? (hearings.length === 0 ? 1 :
    Math.max(...hearings.map((h) => h.round)) + 1)]. *)
Definition resolve_round (round : option number) (hs : list Hearing)
  : number :=
  match round with
  | Some r => r
  | None =>
      match hs with
      | [] => int 1
      | _ :: _ => add1 (Math_max (map h_round hs))
      end
  end.

(** [POST /cases/:caseId/hearings].  [t_sweep] is the clock read by
    [getCase], [t_created] the one read by [createHearing], [t_stamp] the one
    read by the handler; [hid] is the hearing's [uuid()]. *)
Definition post_hearings (s : Store) (caseId userId : string)
    (reqBody : option json) (t_sweep : Z) (hid : string)
    (t_created t_stamp : Z) (eid : nat -> string) : Response * Store :=
  let (found, s1) := getCase s caseId t_sweep in
  match found with
  | None => (respond 404 (BError "Case not found"), s1)
  | Some caseItem =>
      if negb (assertParticipant userId caseItem) then
        (respond 403 (BError "forbidden"), s1)
      else if match c_acceptance caseItem with
              | Some acc_accepted | None => false
              | Some _ => true
              end then
        (respond 400 (BError "case_not_accepted"), s1)
      else
        match hearingSchema reqBody with
        | None => (respond 400 BInvalid, s1)
        | Some data =>
            let nextRound :=
              resolve_round (hb_round data) (listHearings s1 (c_id caseItem)) in
            let (hearing, s2) :=
              createHearing s1 (c_id caseItem) nextRound hid t_created in
            let s3 :=
              saveStatements s2 (h_id hearing)
                (map (stamp_statement (h_id hearing) t_stamp)
                   (hb_statements data)) in
            let s4 :=
              saveEvidence s3 (h_id hearing)
                (stamp_evidence (h_id hearing) t_stamp eid 0
                   (match hb_evidence data with
                    | Some l => l | None => [] end)) in
            (respond 201 (BHearing hearing), s4)
        end
  end.

(** [POST /cases/:caseId/accept]. *)
Definition post_accept (s : Store) (caseId userId : string) (now : Z)
  : Response * Store :=
  match acceptCase s caseId userId now with
  | (inr caseItem, s') => (respond 200 (BCase caseItem), s')
  | (inl e, s') =>
      (respond (match e with
                | case_not_found => 404
                | case_expired => 410
                | forbidden => 403
                | case_rejected => 409
                | _ => 400
                end) (BError (error_message e)), s')
  end.

(** [POST /cases/:caseId/reject]. *)
Definition post_reject (s : Store) (caseId userId : string)
  : Response * Store :=
  match rejectCase s caseId userId with
  | (inr caseItem, s') => (respond 200 (BCase caseItem), s')
  | (inl e, s') =>
      (respond (match e with
                | case_not_found => 404
                | forbidden => 403
                | _ => 400
                end) (BError (error_message e)), s')
  end.

(** The checks the judge, verdict and appeal routes start with: the case,
    the participant, the hearing and that it is one of the case's. *)
Definition find_hearing_of_case (s : Store) (caseId hearingId userId : string)
    (now : Z) : (Response + Case * Hearing) * Store :=
  let (found, s1) := getCase s caseId now in
  match found with
  | None => (inl (respond 404 (BError "Case not found")), s1)
  | Some caseItem =>
      if negb (assertParticipant userId caseItem) then
        (inl (respond 403 (BError "forbidden")), s1)
      else
        match getHearing s1 hearingId with
        | None => (inl (respond 404 (BError "Hearing not found")), s1)
        | Some hearing =>
            if negb (String.eqb (h_case_id hearing) (c_id caseItem)) then
              (inl (respond 404 (BError "Hearing not found")), s1)
            else (inr (caseItem, hearing), s1)
        end
  end.

(** [GET /cases/:caseId/hearings/:hearingId/verdict]. *)
Definition get_verdict (s : Store) (caseId hearingId userId : string)
    (now : Z) : Response * Store :=
  match find_hearing_of_case s caseId hearingId userId now with
  | (inl r, s1) => (r, s1)
  | (inr (_, hearing), s1) =>
      match getVerdict s1 (h_id hearing) with
      | None => (respond 404 (BError "Verdict not found"), s1)
      | Some verdict => (respond 200 (BVerdict verdict), s1)
      end
  end.

(** [POST /cases/:caseId/hearings/:hearingId/appeal].

    The handler ends with [updateCase(caseItem)], and [server.ts] neither
    imports nor declares [updateCase]: the call throws a ReferenceError, which
    Express answers with status 500.  By then the hearing is created and
    saved; the assignment [caseItem.status = "appealed"] has changed the case
    held in [cache] and nothing has saved it. *)
Definition post_appeal (s : Store) (caseId hearingId userId : string)
    (reqBody : option json) (t_sweep : Z) (hid : string)
    (t_created t_stamp : Z) (eid : nat -> string) : Response * Store :=
  match find_hearing_of_case s caseId hearingId userId t_sweep with
  | (inl r, s1) => (r, s1)
  | (inr (caseItem, _), s1) =>
      match appealSchema reqBody with
      | None => (respond 400 BInvalid, s1)
      | Some data =>
          let nextRound :=
            add1 (Math_max (map h_round (listHearings s1 (c_id caseItem)))) in
          let (next, s2) :=
            createHearing s1 (c_id caseItem) nextRound hid t_created in
          let s3 :=
            match ab_statements data with
            | Some sts =>
                saveStatements s2 (h_id next)
                  (map (stamp_statement (h_id next) t_stamp) sts)
            | None => s2
            end in
          let s4 :=
            match ab_evidence data with
            | Some evs =>
                saveEvidence s3 (h_id next)
                  (stamp_evidence (h_id next) t_stamp eid 0 evs)
            | None => s3
            end in
          let s5 :=
            {| cache :=
                 set_cases (cache s4)
                   (update_first (has_id (c_id caseItem))
                      (fun c => set_status c appealed) (cases (cache s4)));
               file := file s4 |} in
          (respond 500 (BUncaught (ReferenceError "updateCase")), s5)
      end
  end.

(** ** The judge service ([src/services/openaiJudge.ts]) *)

Record JudgeServiceInput := {
  ji_caseId : string;
  ji_hearingId : string;
  ji_topic : string;
  ji_parties : list Party;
  ji_statements : list Statement;
  ji_evidence : list Evidence
}.

(** *** Word counts: [narrative.split(/\s+/).length]

    A [string] holds the UTF-8 encoding of the JavaScript string.  [ws_len s]
    is the number of bytes of the white space character ([\s]) that [s]
    starts with, 0 when it starts with none. *)

Definition byte_is (c : ascii) (n : N) : bool := N.eqb (N_of_ascii c) n.

Definition byte_in (c : ascii) (lo hi : N) : bool :=
  N.leb lo (N_of_ascii c) && N.leb (N_of_ascii c) hi.

Definition ws_len (s : string) : nat :=
  match s with
  | String c1 rest =>
      if byte_in c1 9 13 || byte_is c1 32 then 1%nat        (* \t \n \v \f \r, space *)
      else
        match rest with
        | String c2 rest2 =>
            if byte_is c1 194 && byte_is c2 160 then 2%nat  (* U+00A0 *)
            else
              match rest2 with
              | String c3 _ =>
                  if byte_is c1 225 && byte_is c2 154 && byte_is c3 128
                  then 3%nat                                (* U+1680 *)
                  else if byte_is c1 226 && byte_is c2 128
                          && (byte_in c3 128 138            (* U+2000..U+200A *)
                              || byte_in c3 168 169         (* U+2028, U+2029 *)
                              || byte_is c3 175)            (* U+202F *)
                  then 3%nat
                  else if byte_is c1 226 && byte_is c2 129 && byte_is c3 159
                  then 3%nat                                (* U+205F *)
                  else if byte_is c1 227 && byte_is c2 128 && byte_is c3 128
                  then 3%nat                                (* U+3000 *)
                  else if byte_is c1 239 && byte_is c2 187 && byte_is c3 191
                  then 3%nat                                (* U+FEFF *)
                  else 0%nat
              | EmptyString => 0%nat
              end
        | EmptyString => 0%nat
        end
  | EmptyString => 0%nat
  end.

(** The number of maximal runs of white space in [s]; [skip] bytes are still
    part of the white space character last seen, [in_run] tells whether the
    byte before was white space. *)
Fixpoint ws_runs (skip : nat) (in_run : bool) (s : string) : nat :=
  match s with
  | EmptyString => 0%nat
  | String _ rest =>
      match skip with
      | S k => ws_runs k in_run rest
      | O =>
          match ws_len s with
          | O => ws_runs 0 false rest
          | S k => ((if in_run then 0 else 1) + ws_runs k true rest)%nat
          end
      end
  end.

(** [s.split(/\s+/).length]: the pieces between the runs. *)
Definition split_ws_length (s : string) : Z :=
  Z.of_nat (S (ws_runs 0 false s)).

(** [l.reduce((acc, s) => acc + s.narrative.split(/\s+/).length, 0)]. *)
Definition count_words (l : list Statement) : Z :=
  fold_left (fun acc x => acc + split_ws_length (st_narrative x)) l 0.

(** [Math.round] of a finite number: the nearest integer, a tie going up. *)
Definition Math_round (q : Q) : Z := Qfloor (q + (1 # 2))%Q.

Definition is_A (x : Statement) : bool := PartySide_eqb (st_side x) A.

Section Mock.

(** The rounding of a real result to the nearest floating point number. *)
Variable fl : Q -> Q.

(** The word counts are integers and halving is exact in binary floating
    point; the division and the multiplication are rounded. *)
Definition mock_pct (sts : list Statement) : Z :=
  let totalWords :=
    if count_words sts =? 0 then 1 else count_words sts in
  let aWords :=
    if count_words (filter is_A sts) =? 0 then (inject_Z totalWords / 2)%Q
    else inject_Z (count_words (filter is_A sts)) in
  Math_round (fl (fl (aWords / inject_Z totalWords) * 100))%Q.

Definition defaultVerdict (input : JudgeServiceInput) (now : Z) : Verdict :=
  let partyA_pct := mock_pct (ji_statements input) in
  let partyB_pct := 100 - partyA_pct in
  {| v_hearing_id := ji_hearingId input;
     v_score := {| partyA_pct := int partyA_pct;
                   partyB_pct := int partyB_pct;
                   confidence := Fin (3 # 10) |};
     v_summary := JStr "Mocked verdict: replace with real OpenAI call.";
     v_reasoning :=
       {| facts := JStr "Mock mode used because no OpenAI API key provided.";
          fairness_checks :=
            JArr [JStr "Mock mode only approximates percentages."];
          emotion_considerations := JStr "Not evaluated in mock mode.";
          assumptions := JArr [];
          missing_info := JArr [] |};
     v_advice :=
       {| together :=
            JArr [JStr "Share key feelings calmly and set a time to revisit the issue."];
          forA := JArr [JStr "Acknowledge B的压力并用“我感受”句式表达需求。"];
          forB := JArr [JStr "主动确认 A 的核心诉求，并提出一个小的让步行动。"] |};
     v_raw_agent_payload := None;
     v_created_at := now |}.

End Mock.

(** *** The real service: reading the model's answer *)

Definition has_key (k : string) (f : list (string * json)) : bool :=
  match lookup k f with
  | Some _ => true
  | None => false
  end.

Section Coercion.

(** [Number(s)] on a string and [String(x)] on a finite number: the
    conversions of the language, not written out here. *)
Variable StringToNumber : string -> number.
Variable NumberToString : Q -> string.

(** [String(v)]; [None] when the conversion throws a TypeError.  An object
    that [JSON.parse] built inherits [toString] unless it has a property of
    that name, whose value is then not a function.  An array is joined with
    commas, [null] giving the empty string. *)
Fixpoint ToString (v : json) : option string :=
  match v with
  | JNull => Some "null"
  | JBool b => Some (if b then "true" else "false")
  | JNum q => Some (NumberToString q)
  | JInf negative => Some (if negative then "-Infinity" else "Infinity")
  | JStr s => Some s
  | JArr items =>
      (fix join (l : list json) : option string :=
         match l with
         | [] => Some ""
         | x :: t =>
             match match x with JNull => Some "" | _ => ToString x end with
             | None => None
             | Some sx =>
                 match t with
                 | [] => Some sx
                 | _ :: _ =>
                     match join t with
                     | Some st => Some (sx ++ "," ++ st)%string
                     | None => None
                     end
                 end
             end
         end) items
  | JObj f => if has_key "toString" f then None else Some "[object Object]"
  end.

(** [Number(v)]; [None] when it throws a TypeError.  An object without a
    property [toString] converts to the string [[object Object]], which is
    not a numeric literal. *)
Definition ToNumber (v : json) : option number :=
  match v with
  | JNull => Some (Fin 0)
  | JBool b => Some (Fin (if b then 1 else 0))
  | JNum q => Some (Fin q)
  | JInf negative => Some (if negative then NegInfinity else PosInfinity)
  | JStr s => Some (StringToNumber s)
  | JArr _ => option_map StringToNumber (ToString v)
  | JObj f => if has_key "toString" f then None else Some NaN
  end.

(** [Math.min(hi, Math.max(0, Number(v ?? 0)))]. *)
Definition clamp (hi : Q) (v : option json) : option number :=
  option_map (fun x => Math_min2 (Fin hi) (Math_max2 (Fin 0) x))
    (ToNumber (nullish v (JNum 0))).

(** Lines 195 to 219 of [judge]: the verdict built from [parsed], the result
    of [JSON.parse]; [None] when an exception is thrown on the way. *)
Definition read_verdict (parsed : json) (hearingId : string)
    (completion : json) (now : Z) : option Verdict :=
  match parsed with
  | JNull => None
  | _ =>
      let score := prop parsed "score" in
      let reasoning := prop parsed "reasoning" in
      let advice := prop parsed "advice" in
      match clamp 100 (opt_prop score "partyA_pct"),
            clamp 100 (opt_prop score "partyB_pct"),
            clamp 1 (opt_prop score "confidence") with
      | Some a, Some b, Some c =>
          Some
            {| v_hearing_id := hearingId;
               v_score :=
                 {| partyA_pct := a; partyB_pct := b; confidence := c |};
               v_summary := nullish (prop parsed "summary") (JStr "");
               v_reasoning :=
                 {| facts := nullish (opt_prop reasoning "facts") (JStr "");
                    fairness_checks :=
                      nullish (opt_prop reasoning "fairness_checks") (JArr []);
                    emotion_considerations :=
                      nullish (opt_prop reasoning "emotion_considerations")
                        (JStr "");
                    assumptions :=
                      nullish (opt_prop reasoning "assumptions") (JArr []);
                    missing_info :=
                      nullish (opt_prop reasoning "missing_info") (JArr []) |};
               v_advice :=
                 {| together := nullish (opt_prop advice "together") (JArr []);
                    forA := nullish (opt_prop advice "forA") (JArr []);
                    forB := nullish (opt_prop advice "forB") (JArr []) |};
               v_raw_agent_payload := Some completion;
               v_created_at := now |}
      | _, _, _ => None
      end
  end.

End Coercion.

(** ** The judge route

    [POST /cases/:caseId/hearings/:hearingId/judge] awaits the service, so
    other requests may be served between its two halves: [judge_request] is
    what runs before the call, [judge_settle] what runs once the service has
    returned a verdict or thrown. *)

Definition judge_request (s : Store) (caseId hearingId userId : string)
    (now : Z) : (Response + JudgeServiceInput) * Store :=
  match find_hearing_of_case s caseId hearingId userId now with
  | (inl r, s1) => (inl r, s1)
  | (inr (caseItem, hearing), s1) =>
      (inr {| ji_caseId := c_id caseItem;
              ji_hearingId := h_id hearing;
              ji_topic := c_topic caseItem;
              ji_parties := c_parties caseItem;
              ji_statements := getStatements s1 (h_id hearing);
              ji_evidence := getEvidence s1 (h_id hearing) |}, s1)
  end.

Definition judge_settle (s : Store) (outcome : Exception + Verdict)
  : Response * Store :=
  match outcome with
  | inr verdict => (respond 200 (BVerdict verdict), saveVerdict s verdict)
  | inl e => (respond 500 (BCaught e), s)
  end.

(** The route when nothing is served in between, as with the mock service. *)
Definition post_judge (judgeService : JudgeServiceInput -> Exception + Verdict)
    (s : Store) (caseId hearingId userId : string) (now : Z)
  : Response * Store :=
  match judge_request s caseId hearingId userId now with
  | (inl r, s1) => (r, s1)
  | (inr input, s1) => judge_settle s1 (judgeService input)
  end.

(** ** Runs of the server

    One event per piece of code that runs without interruption and touches
    the store, with the values it reads from the request, the clock and the
    identifier generators.  The last three are the calls the signup, friend
    and chat routes make to the store. *)

Inductive Event :=
| EvPostCases (userId : string) (reqBody : option json) (id : string)
    (now now' : Z)
| EvGetCases (userId : string) (now : Z)
| EvGetCase (caseId : string) (now : Z)
| EvPostHearings (caseId userId : string) (reqBody : option json)
    (t_sweep : Z) (hid : string) (t_created t_stamp : Z) (eid : nat -> string)
| EvPostAccept (caseId userId : string) (now : Z)
| EvPostReject (caseId userId : string)
| EvJudgeRequest (caseId hearingId userId : string) (now : Z)
| EvJudgeSettle (outcome : Exception + Verdict)
| EvGetVerdict (caseId hearingId userId : string) (now : Z)
| EvPostAppeal (caseId hearingId userId : string) (reqBody : option json)
    (t_sweep : Z) (hid : string) (t_created t_stamp : Z) (eid : nat -> string)
| EvCreateUser (email name password id hashed : string)
| EvAddFriend (userId friendId : string)
| EvSaveMessage (from to content id : string) (now : Z).

Section Runs.

Variable is_email : string -> bool.

Definition step (s : Store) (ev : Event) : Store :=
  match ev with
  | EvPostCases userId reqBody id now now' =>
      snd (post_cases is_email s userId reqBody id now now')
  | EvGetCases userId now => snd (listCasesByUser s userId now)
  | EvGetCase caseId now => snd (getCase s caseId now)
  | EvPostHearings caseId userId reqBody t_sweep hid t_created t_stamp eid =>
      snd (post_hearings s caseId userId reqBody t_sweep hid t_created
             t_stamp eid)
  | EvPostAccept caseId userId now => snd (post_accept s caseId userId now)
  | EvPostReject caseId userId => snd (post_reject s caseId userId)
  | EvJudgeRequest caseId hearingId userId now =>
      snd (judge_request s caseId hearingId userId now)
  | EvJudgeSettle outcome => snd (judge_settle s outcome)
  | EvGetVerdict caseId hearingId userId now =>
      snd (get_verdict s caseId hearingId userId now)
  | EvPostAppeal caseId hearingId userId reqBody t_sweep hid t_created
      t_stamp eid =>
      snd (post_appeal s caseId hearingId userId reqBody t_sweep hid
             t_created t_stamp eid)
  | EvCreateUser email name password id hashed =>
      snd (createUser s email name password id hashed)
  | EvAddFriend userId friendId => snd (addFriend s userId friendId)
  | EvSaveMessage from to content id now =>
      snd (saveMessage s from to content id now)
  end.

Definition run (s : Store) (evs : list Event) : Store :=
  fold_left step evs s.

End Runs.

(** A hearing request for [caseId] that names its round. *)
Definition names_round (caseId : string) (ev : Event) : Prop :=
  match ev with
  | EvPostHearings caseId' _ reqBody _ _ _ _ _ =>
      caseId' = caseId /\
      exists data r, hearingSchema reqBody = Some data /\ hb_round data = Some r
  | _ => False
  end.

(** ** Notions the properties are stated with *)

(** The rounds of the hearings of a case, oldest first. *)
Definition rounds_of (s : Store) (caseId : string) : list number :=
  map h_round (listHearings s caseId).

(** The rounds 1, 2, ..., n. *)
Definition first_rounds (n : nat) : list number :=
  map (fun k => int (Z.of_nat k)) (seq 1 n).

(** The largest of [z] and the members of [rs]. *)
Definition Zmax_list (z : Z) (rs : list Z) : Z := fold_left Z.max rs z.

(** [acceptCase] called once per element of [calls], each with its acting
    user and its clock reading; the results, in order, and the last store. *)
Fixpoint accept_each (s : Store) (caseId : string) (calls : list (string * Z))
  : list (Error + Case) * Store :=
  match calls with
  | [] => ([], s)
  | (userId, now) :: rest =>
      let (r, s1) := acceptCase s caseId userId now in
      let (rs, s2) := accept_each s1 caseId rest in
      (r :: rs, s2)
  end.

(** [saveVerdict] called on each verdict of a list in turn. *)
Definition save_verdicts (s : Store) (vs : list Verdict) : Store :=
  fold_left saveVerdict vs s.

(** A finite number between two bounds. *)
Definition between (lo hi : Q) (x : number) : Prop :=
  match x with
  | Fin q => (lo <= q /\ q <= hi)%Q
  | _ => False
  end.

(** Clamping as the specification words it: below the lower bound the bound,
    above the upper bound the bound, the value itself in between. *)
Definition clamped (lo hi q : Q) : Q :=
  if Qle_bool q lo then lo else if Qle_bool hi q then hi else q.

(** A property of the response that is missing: absent or [null]. *)
Definition missing (v : option json) : Prop :=
  v = None \/ v = Some JNull.

(** A score field that is missing or holds a JSON number. *)
Definition numeric_or_missing (v : option json) : Prop :=
  match v with
  | None | Some JNull | Some (JNum _) | Some (JInf _) => True
  | Some _ => False
  end.

(** The value [clamp] is expected to give on such a field. *)
Definition clamped_field (hi : Q) (v : option json) : number :=
  match v with
  | Some (JNum q) => Fin (clamped 0 hi q)
  | Some (JInf false) => Fin hi
  | _ => Fin 0
  end.

(** A list of strings, the shape [types.ts] gives the array fields. *)
Definition is_string (v : json) : Prop :=
  match v with JStr _ => True | _ => False end.

Definition is_string_array (v : json) : Prop :=
  match v with
  | JArr items => Forall is_string items
  | _ => False
  end.

(** A verdict that has the shape of the type [Verdict] and respects the
    bounds of its scores. *)
Definition well_formed (v : Verdict) : Prop :=
  between 0 100 (partyA_pct (v_score v)) /\
  between 0 100 (partyB_pct (v_score v)) /\
  between 0 1 (confidence (v_score v)) /\
  is_string (v_summary v) /\
  is_string (facts (v_reasoning v)) /\
  is_string_array (fairness_checks (v_reasoning v)) /\
  is_string (emotion_considerations (v_reasoning v)) /\
  is_string_array (assumptions (v_reasoning v)) /\
  is_string_array (missing_info (v_reasoning v)) /\
  is_string_array (together (v_advice v)) /\
  is_string_array (forA (v_advice v)) /\
  is_string_array (forB (v_advice v)).

(** The JSON text of a party, as a client sends it. *)
Definition side_json (sd : PartySide) : json :=
  JStr (match sd with A => "A" | B => "B" end).

Definition opt_field (k : string) (v : option string)
  : list (string * json) :=
  match v with
  | Some x => [(k, JStr x)]
  | None => []
  end.

Definition party_json (p : Party) : json :=
  JObj ((("side", side_json (side p)) :: opt_field "name" (name p))
        ++ opt_field "baseline_state" (baseline_state p)).

(** The parties [createCase] stores when none are given. *)
Definition default_parties : list Party :=
  [ {| side := A; name := None; baseline_state := None |};
    {| side := B; name := None; baseline_state := None |} ].


(** The empty store, and the values the examples run on. *)
Definition no_data : DataShape :=
  {| users := []; cases := []; hearings := []; statements := [];
     evidence := []; verdicts := []; messages := [] |}.

Definition empty_store : Store := save no_data.

Definition exact (q : Q) : Q := q.
Definition no_email (_ : string) : bool := false.
Definition no_ids (_ : nat) : string := "evidence-id".

Definition example_case (st : CaseStatus) (acc : Acceptance)
    (expires : option Z) : Case :=
  {| c_id := "case-1"; c_topic := "chores"; c_relationship_context := None;
     c_parties := default_parties; c_status := st; c_created_at := 0;
     c_owner_id := Some "alice";
     c_participant_ids := Some ["alice"; "bob"];
     c_invited_user_id := Some "bob"; c_expires_at := expires;
     c_acceptance := Some acc |}.

Definition store_with (c : Case) : Store := save (set_cases no_data [c]).

(** The tests of the filters that select, or drop, what belongs to one
    hearing. *)
Definition keyed {T : Type} (key : T -> string) (k : string) (x : T) : bool :=
  String.eqb (key x) k.

Definition not_keyed {T : Type} (key : T -> string) (k : string) (x : T)
  : bool :=
  negb (String.eqb (key x) k).

Definition example_statement (hearingId : string) (sd : PartySide)
    (text : string) (now : Z) : Statement :=
  {| st_hearing_id := hearingId; st_side := sd; st_narrative := text;
     st_feelings := None; st_context := None; st_requests := None;
     st_created_at := now |}.

Definition example_hearing (st : HearingStatus) : Hearing :=
  {| h_id := "hearing-1"; h_case_id := "case-1"; h_round := int 1;
     h_status := st; h_created_at := 10 |}.

Definition example_verdict (a b : Z) (now : Z) : Verdict :=
  {| v_hearing_id := "hearing-1";
     v_score := {| partyA_pct := int a; partyB_pct := int b;
                   confidence := Fin (3 # 10) |};
     v_summary := JStr "summary";
     v_reasoning := {| facts := JStr "facts"; fairness_checks := JArr [];
                       emotion_considerations := JStr "none";
                       assumptions := JArr []; missing_info := JArr [] |};
     v_advice := {| together := JArr []; forA := JArr []; forB := JArr [] |};
     v_raw_agent_payload := None;
     v_created_at := now |}.

(** A store with one case and its first hearing. *)
Definition store_with_hearing (c : Case) (h : Hearing) : Store :=
  save (set_hearings (set_cases no_data [c]) [h]).

(** What [POST /cases] passes to [createCase] when alice invites bob. *)
Definition invite_input : CreateCaseInput :=
  {| ownerId := "alice"; topic := "chores"; relationship_context := None;
     parties := None; participantIds := Some ["bob"];
     invitedUserId := Some "bob" |}.

(** The body of a request that creates a case with the given parties. *)
Definition create_body (t : string) (ps : list Party) : option json :=
  Some (JObj [("topic", JStr t); ("parties", JArr (map party_json ps))]).


(** Two answers of the model: one whose share of A is an object and whose
    summary is a number, one whose confidence is an object with a property
    [toString]. *)
Definition answer_with_object_share : json :=
  JObj [("score", JObj [("partyA_pct", JObj []); ("partyB_pct", JNum 40)]);
        ("summary", JNum 5)].

Definition answer_with_odd_confidence : json :=
  JObj [("score", JObj [("confidence", JObj [("toString", JNull)])])].

(** An answer whose shares are 150 and 150 and whose confidence is -1. *)
Definition answer_out_of_range : json :=
  JObj [("score", JObj [("partyA_pct", JNum 150); ("partyB_pct", JNum 150);
                        ("confidence", JNum (-1))])].

(** The field [out] of the verdict read from the property [v]: the default
    [d] when the property is missing, the property itself otherwise. *)
Definition defaulted (v : option json) (d out : json) : Prop :=
  (missing v -> out = d) /\
  (forall x, v = Some x -> x <> JNull -> out = x).

(** Stand-ins for the two conversions, for answers that hold no string where
    a number is read. *)
Definition no_number (_ : string) : number := NaN.
Definition no_text (_ : Q) : string := "".

(** The first hearing of the chores case, as the judge route hands it to the
    service. *)
Definition chores_input : JudgeServiceInput :=
  {| ji_caseId := "case-1"; ji_hearingId := "hearing-1";
     ji_topic := "chores"; ji_parties := default_parties;
     ji_statements := [example_statement "hearing-1" A "I did dishes" 1;
                       example_statement "hearing-1" B "I cooked" 1];
     ji_evidence := [] |}.

(** The hearing [createHearing] adds. *)
Definition new_hearing (caseId : string) (round : number) (id : string)
    (now : Z) : Hearing :=
  {| h_id := id; h_case_id := caseId; h_round := round;
     h_status := submitted; h_created_at := now |}.

(** The chores case once its first hearing is judged. *)
Definition judged_store : Store :=
  saveVerdict
    (store_with_hearing (example_case pending_judgement acc_accepted None)
       (example_hearing submitted))
    (example_verdict 60 40 20).

(** A run in which alice opens the chores case, submits a first hearing
    without naming a round, has it judged and appeals. *)
Definition chores_hearing_body : option json :=
  Some (JObj [("statements",
               JArr [JObj [("side", JStr "A"); ("narrative", JStr "I did dishes")];
                     JObj [("side", JStr "B"); ("narrative", JStr "I cooked")]])]).

Definition chores_run : list Event :=
  [ EvPostCases "alice" (create_body "chores" []) "case-1" 0 0;
    EvPostHearings "case-1" "alice" chores_hearing_body 10 "hearing-1" 11 12
      no_ids;
    EvJudgeRequest "case-1" "hearing-1" "alice" 20;
    EvJudgeSettle (inr (example_verdict 60 40 21));
    EvPostAppeal "case-1" "hearing-1" "alice" None 50 "hearing-2" 51 52
      no_ids ].

(** ** Further notions *)

(** What the sweep of [expireInvites] does to one case. *)
Definition sweep_one (now : Z) (c : Case) : Case :=
  if should_expire now c then mark_expired c else c.

(** [c.participant_ids ?? []]. *)
Definition participants_of (c : Case) : list string :=
  match c_participant_ids c with
  | Some l => l
  | None => []
  end.

(** A pending invitation that bob may still answer at 100, and the same
    case once bob has rejected it. *)
Definition pending_case : Case :=
  example_case pending_acceptance acc_pending (Some 100).

Definition rejected_case : Case :=
  example_case closed acc_rejected (Some 100).

(** What [createCase] is given when alice opens a case without inviting. *)
Definition solo_input : CreateCaseInput :=
  {| ownerId := "alice"; topic := "chores"; relationship_context := None;
     parties := None; participantIds := None; invitedUserId := None |}.

(** The evidence a request carries, or none. *)
Definition evidence_of (data : HearingBody) : list EvidenceInput :=
  match hb_evidence data with
  | Some l => l
  | None => []
  end.

(** A hearing request that names round 7 and carries one piece of
    evidence. *)
Definition round_seven_body : option json :=
  Some (JObj [("round", JNum 7);
              ("statements",
               JArr [JObj [("side", JStr "A"); ("narrative", JStr "again")]]);
              ("evidence",
               JArr [JObj [("side", JStr "A"); ("type", JStr "link");
                           ("content_or_url", JStr "http://x")]])]).

(** The reasons for which [hearingSchema] refuses a body that is an object
    with the properties [f]. *)
Inductive refused_hearing_body (f : list (string * json)) : Prop :=
| no_statements :
    lookup "statements" f = None -> refused_hearing_body f
| empty_statements :
    lookup "statements" f = Some (JArr []) -> refused_hearing_body f
| statement_without_narrative (items : list json) (g : list (string * json)) :
    lookup "statements" f = Some (JArr items) ->
    In (JObj g) items ->
    lookup "narrative" g = None \/ lookup "narrative" g = Some (JStr "") ->
    refused_hearing_body f
| evidence_without_content (items : list json) (g : list (string * json)) :
    lookup "evidence" f = Some (JArr items) ->
    In (JObj g) items ->
    lookup "content_or_url" g = None \/
    lookup "content_or_url" g = Some (JStr "") ->
    refused_hearing_body f
| round_not_positive (q : Q) :
    lookup "round" f = Some (JNum q) -> (q <= 0)%Q -> refused_hearing_body f
| round_not_whole (q : Q) :
    lookup "round" f = Some (JNum q) -> ~ (inject_Z (Qfloor q) == q)%Q ->
    refused_hearing_body f.

Definition example_evidence (hearingId id text : string) : Evidence :=
  {| e_id := id; e_hearing_id := hearingId; e_side := A; e_type := ev_text;
     e_title := None; e_content_or_url := text; e_notes := None;
     e_created_at := 1 |}.

(** The mock service as the judge route sees it, judging at 21. *)
Definition mock_service (input : JudgeServiceInput) : Exception + Verdict :=
  inr (defaultVerdict exact input 21).

Definition example_user (id email : string) (friends : list string) : User :=
  {| u_id := id; u_email := email; u_name := id; u_password := "hash";
     u_friends := friends |}.

(** A store with two users who are not friends yet. *)
Definition two_users : Store :=
  save (set_users no_data
          [example_user "alice" "alice@example.com" [];
           example_user "bob" "bob@example.com" []]).

(** How a stored case may differ from what it was: everything that
    identifies it is kept, participants are only added, a rejection stays,
    and an accepted case stays accepted unless it is rejected. *)
Definition case_moves (c c' : Case) : Prop :=
  c_id c' = c_id c /\
  c_topic c' = c_topic c /\
  c_relationship_context c' = c_relationship_context c /\
  c_parties c' = c_parties c /\
  c_created_at c' = c_created_at c /\
  c_owner_id c' = c_owner_id c /\
  c_invited_user_id c' = c_invited_user_id c /\
  c_expires_at c' = c_expires_at c /\
  (forall u, In u (participants_of c) -> In u (participants_of c')) /\
  (c_acceptance c = Some acc_rejected -> c_acceptance c' = Some acc_rejected) /\
  (c_acceptance c = Some acc_accepted ->
   c_acceptance c' = Some acc_accepted \/ c_acceptance c' = Some acc_rejected).

(** The cases of a later store: those of the earlier one, each moved, in
    the same order, then the cases created since. *)
Definition cases_follow (l l' : list Case) : Prop :=
  exists l1 l2, l' = l1 ++ l2 /\ Forall2 case_moves l l1.

(** The input of the judge service for a hearing with the statements
    [sts]. *)
Definition input_with (sts : list Statement) : JudgeServiceInput :=
  {| ji_caseId := "case-1"; ji_hearingId := "hearing-1";
     ji_topic := "chores"; ji_parties := default_parties;
     ji_statements := sts; ji_evidence := [] |}.

(** ** [GET /cases/:caseId] *)

(** [a - b].  On finite numbers the difference is idealised: the difference
    of two doubles has the sign of the exact one. *)
Definition num_sub (a b : number) : number :=
  match a, b with
  | NaN, _ | _, NaN => NaN
  | PosInfinity, PosInfinity | NegInfinity, NegInfinity => NaN
  | PosInfinity, _ => PosInfinity
  | NegInfinity, _ => NegInfinity
  | Fin _, PosInfinity => NegInfinity
  | Fin _, NegInfinity => PosInfinity
  | Fin x, Fin y => Fin (x - y)%Q
  end.

(** [(a, b) => b.round - a.round]. *)
Definition by_round_desc (a b : Hearing) : number :=
  num_sub (h_round b) (h_round a).

(** [l.sort(cmp)].  The sort of the language is stable and puts [a] after
    [b] when [cmp(a, b) > 0]; with a comparator that orders the elements
    consistently, as [by_round_desc] does when no round is NaN, every such
    sort gives the list that these insertions give.  With a NaN among the
    rounds the language leaves the order to the implementation. *)
Fixpoint insert_sorted {T : Type} (cmp : T -> T -> number) (x : T)
    (l : list T) : list T :=
  match l with
  | [] => [x]
  | y :: t =>
      if num_ltb (Fin 0) (cmp x y) then y :: insert_sorted cmp x t
      else x :: y :: t
  end.

Definition Array_sort {T : Type} (cmp : T -> T -> number) (l : list T)
  : list T :=
  fold_right (insert_sorted cmp) [] l.

(** The body of the answer; a field that is [undefined] is [None]. *)
Record CaseView := {
  cv_case : Case;
  cv_latest_hearing : option Hearing;
  cv_latest_verdict : option Verdict
}.

Definition get_case (s : Store) (caseId userId : string) (now : Z)
  : (Response + CaseView) * Store :=
  let (found, s1) := getCase s caseId now in
  match found with
  | None => (inl (respond 404 (BError "Case not found")), s1)
  | Some caseItem =>
      if negb (assertParticipant userId caseItem) then
        (inl (respond 403 (BError "forbidden")), s1)
      else
        let hearings := listHearings s1 (c_id caseItem) in
        let latest := hd_error (Array_sort by_round_desc hearings) in
        let verdict :=
          match latest with
          | Some h => getVerdict s1 (h_id h)
          | None => None
          end in
        (inr {| cv_case := caseItem; cv_latest_hearing := latest;
                cv_latest_verdict := verdict |}, s1)
  end.

(** A number that is neither NaN nor infinite. *)
Definition is_finite (x : number) : Prop :=
  match x with
  | Fin _ => True
  | _ => False
  end.

(** A second hearing of the example case, in round 2. *)
Definition second_hearing : Hearing :=
  {| h_id := "hearing-2"; h_case_id := "case-1"; h_round := int 2;
     h_status := submitted; h_created_at := 40 |}.

Definition two_hearings : Store :=
  save (set_hearings
          (set_cases no_data
             [example_case pending_judgement acc_accepted None])
          [example_hearing judged; second_hearing]).

(** ** Chat ([listMessages], [listMessagesPaged], [listConversations])

    Two timestamps that [toISOString] wrote have the same layout (for the
    years 0 to 9999), so [localeCompare] and [>] order them as the instants
    they denote: the embedding compares the millisecond counts. *)

(** The test of [listMessages]. *)
Definition between_users (userId peerId : string) (m : ChatMessage) : bool :=
  (String.eqb (m_from_user_id m) userId && String.eqb (m_to_user_id m) peerId)
  || (String.eqb (m_from_user_id m) peerId
      && String.eqb (m_to_user_id m) userId).

(** [(a, b) => a.created_at.localeCompare(b.created_at)]. *)
Definition by_created_at (a b : ChatMessage) : number :=
  match m_created_at a ?= m_created_at b with
  | Lt => int (-1)
  | Eq => int 0
  | Gt => int 1
  end.

Definition listMessages (s : Store) (userId peerId : string)
  : list ChatMessage :=
  Array_sort by_created_at
    (filter (between_users userId peerId) (messages (cache s))).

(** [l.slice(-limit)] for a [limit] above 0: the count is truncated, and a
    count of 0 keeps the whole list, as an infinite one does. *)
Definition slice_from_end {T : Type} (limit : number) (l : list T) : list T :=
  match limit with
  | Fin q =>
      if Qfloor q =? 0 then l
      else skipn (Z.to_nat (Z.max (Z.of_nat (List.length l) - Qfloor q) 0)) l
  | _ => l
  end.

Section Paging.

(** [since] is the string of the query, compared as a string with the
    timestamp of each message.  [toISOString] gives the timestamp of an
    instant and [string_gtb] is [>] on strings, the comparison of the
    language, by UTF-16 code units: neither is written out here. *)
Variable toISOString : Z -> string.
Variable string_gtb : string -> string -> bool.

(** [opts.since] is the string the caller gives, [None] when it gives none;
    [opts.limit] is the number it gives. *)
Definition listMessagesPaged (s : Store) (userId peerId : string)
    (since : option string) (limit : option number) : list ChatMessage :=
  let msgs := listMessages s userId peerId in
  let msgs :=
    if truthy since then
      filter (fun m =>
                string_gtb (toISOString (m_created_at m))
                  (match since with Some t => t | None => "" end))
        msgs
    else msgs in
  let limit :=
    match limit with
    | Some n => if num_ltb (Fin 0) n then Some n else None
    | None => None
    end in
  match limit with
  | Some n => slice_from_end n msgs
  | None => msgs
  end.

End Paging.

(** [peers.set(k, v)] on a [Map], whose entries stay in the order in which
    their keys were first set. *)
Fixpoint Map_set {V : Type} (k : string) (v : V) (m : list (string * V))
  : list (string * V) :=
  match m with
  | [] => [(k, v)]
  | (k', v') :: t =>
      if String.eqb k k' then (k', v) :: t else (k', v') :: Map_set k v t
  end.

Definition newer (a : option ChatMessage) (b : ChatMessage) : ChatMessage :=
  match a with
  | None => b
  | Some a => if m_created_at b <? m_created_at a then a else b
  end.

(** The entries are pairs of [peer_id] and [last_message]. *)
Definition listConversations (s : Store) (userId : string)
  : list (string * ChatMessage) :=
  fold_left
    (fun peers m =>
       if String.eqb (m_from_user_id m) userId then
         Map_set (m_to_user_id m)
           (newer (lookup (m_to_user_id m) peers) m) peers
       else if String.eqb (m_to_user_id m) userId then
         Map_set (m_from_user_id m)
           (newer (lookup (m_from_user_id m) peers) m) peers
       else peers)
    (messages (cache s)) [].

(** Messages in the order of their instants. *)
Fixpoint ascending (l : list ChatMessage) : Prop :=
  match l with
  | [] => True
  | x :: t =>
      (forall y, In y t -> m_created_at x <= m_created_at y) /\ ascending t
  end.

(** The peer a message gives [userId], as [listConversations] reads it. *)
Definition peer_of (userId : string) (m : ChatMessage) : option string :=
  if String.eqb (m_from_user_id m) userId then Some (m_to_user_id m)
  else if String.eqb (m_to_user_id m) userId then Some (m_from_user_id m)
  else None.

Definition example_message (id from to : string) (now : Z) : ChatMessage :=
  {| m_id := id; m_from_user_id := from; m_to_user_id := to;
     m_content := "hello"; m_created_at := now |}.

Definition chat_store : Store :=
  save (set_messages no_data
          [example_message "m1" "alice" "bob" 30;
           example_message "m2" "bob" "alice" 10;
           example_message "m3" "alice" "carol" 20;
           example_message "m4" "alice" "bob" 40]).

(** ** What is on disk *)

(** The file holds what the cache holds. *)
Definition persisted (s : Store) : Prop := file s = cache s.

Definition is_appeal (ev : Event) : Prop :=
  match ev with
  | EvPostAppeal _ _ _ _ _ _ _ _ _ => True
  | _ => False
  end.

(** A body the appeal route accepts, with nothing new in it. *)
Definition bare_appeal_body : option json := Some (JObj []).

(** The settling of a judge request with a verdict for [hearingId]. *)
Definition settles (hearingId : string) (ev : Event) : Prop :=
  match ev with
  | EvJudgeSettle (inr v) => v_hearing_id v = hearingId
  | _ => False
  end.

(** How a stored hearing may differ from what it was: only in its status,
    and a judged hearing stays judged. *)
Definition hearing_moves (h h' : Hearing) : Prop :=
  h_id h' = h_id h /\
  h_case_id h' = h_case_id h /\
  h_round h' = h_round h /\
  h_created_at h' = h_created_at h /\
  (h_status h = judged -> h_status h' = judged).

(** An integer that a double holds exactly together with its neighbours
    ([Number.isSafeInteger]): on such a value the addition [+ 1] that the
    code performs on doubles gives the exact sum, as [add1] does. *)
Definition safe_integer (z : Z) : Prop := - 2 ^ 53 < z < 2 ^ 53.

(** The round after the rounds [rs]: 1 when there is none, else one above
    the largest. *)
Definition next_after (rs : list Z) : Z :=
  match rs with
  | [] => 1
  | r :: rs' => Zmax_list r rs' + 1
  end.

(** * Properties *)

(** ** Lists and records *)

Lemma find_update_first {T : Type} (p : T -> bool) (f : T -> T) (l : list T) :
  (forall x, p (f x) = p x) ->
  find p (update_first p f l) = option_map f (find p l).
Proof.
  intros Hp. induction l as [|x t IH]; simpl; [reflexivity|].
  destruct (p x) eqn:E; simpl.
  - rewrite Hp, E. reflexivity.
  - rewrite E. exact IH.
Qed.

Lemma find_has_id (caseId : string) (l : list Case) (c : Case) :
  find (has_id caseId) l = Some c -> c_id c = caseId.
Proof.
  intros H. apply find_some in H. destruct H as [_ H].
  unfold has_id in H. apply String.eqb_eq in H. exact H.
Qed.

(** ** Acceptance *)

Lemma acceptCase_expired_step (s : Store) (caseId userId : string) (now e : Z)
    (found : Case) :
  find (has_id caseId) (cases (cache s)) = Some found ->
  acceptance_is found acc_rejected = false ->
  acceptance_is found acc_accepted = false ->
  c_expires_at found = Some e -> e < now ->
  acceptCase s caseId userId now =
    (inl case_expired,
     save (set_cases (cache s)
             (update_first (has_id caseId) mark_expired (cases (cache s))))).
Proof.
  intros Hf Hr Ha He Hlt. unfold acceptCase. rewrite Hf, Hr, Ha.
  unfold expiry_passed. rewrite He.
  assert ((e <? now) = true) as -> by (apply Z.ltb_lt; exact Hlt).
  reflexivity.
Qed.

Lemma save_same_cases (s : Store) :
  file s = cache s -> save (set_cases (cache s) (cases (cache s))) = s.
Proof.
  destruct s as [c f]. simpl. intros ->. destruct c. reflexivity.
Qed.

Lemma accept_each_expired (caseId : string) (e : Z) (found : Case)
    (calls : list (string * Z)) (s : Store) :
  find (has_id caseId) (cases (cache s)) = Some (mark_expired found) ->
  c_expires_at found = Some e ->
  file s = cache s ->
  Forall (fun call => e < snd call) calls ->
  accept_each s caseId calls = (map (fun _ => inl case_expired) calls, s).
Proof.
  intros Hf He Hs Hall. induction Hall as [|[u t] rest Ht _ IH]; simpl.
  - reflexivity.
  - rewrite (acceptCase_expired_step s caseId u t e (mark_expired found))
      by (auto; exact Ht).
    assert (update_first (has_id caseId) mark_expired (cases (cache s))
            = cases (cache s)) as Hsame.
    { clear - Hf. induction (cases (cache s)) as [|x l IHl]; simpl in *.
      - reflexivity.
      - destruct (has_id caseId x) eqn:E.
        + injection Hf as ->. reflexivity.
        + rewrite IHl by exact Hf. reflexivity. }
    rewrite Hsame.
    rewrite (save_same_cases s Hs), IH. reflexivity.
Qed.

(** C4.  A case whose acceptance is pending and whose expiry lies before the
    clock reading: [acceptCase] throws [case_expired] whoever the acting user
    is, and leaves the case with acceptance expired and status expired; any
    number of further calls made after the expiry throw the same error and
    leave the store as the first call left it.  The route answers 410. *)
Theorem acceptCase_after_expiry (s : Store) (caseId userId : string)
    (now e : Z) (found : Case) (calls : list (string * Z)) :
  find (has_id caseId) (cases (cache s)) = Some found ->
  c_acceptance found = Some acc_pending ->
  c_expires_at found = Some e ->
  e < now ->
  Forall (fun call => e < snd call) calls ->
  fst (acceptCase s caseId userId now) = inl case_expired /\
  status (fst (post_accept s caseId userId now)) = 410 /\
  let s1 := snd (acceptCase s caseId userId now) in
  find (has_id caseId) (cases (cache s1)) = Some (mark_expired found) /\
  c_acceptance (mark_expired found) = Some acc_expired /\
  c_status (mark_expired found) = expired /\
  accept_each s1 caseId calls = (map (fun _ => inl case_expired) calls, s1).
Proof.
  intros Hf Hacc He Hlt Hcalls.
  assert (acceptCase s caseId userId now =
          (inl case_expired,
           save (set_cases (cache s)
                   (update_first (has_id caseId) mark_expired
                      (cases (cache s)))))) as Hstep.
  { apply (acceptCase_expired_step s caseId userId now e found); auto;
      unfold acceptance_is; rewrite Hacc; reflexivity. }
  unfold post_accept. rewrite Hstep. simpl.
  assert (find (has_id caseId)
            (update_first (has_id caseId) mark_expired (cases (cache s)))
          = Some (mark_expired found)) as Hfound.
  { rewrite find_update_first by reflexivity. rewrite Hf. reflexivity. }
  repeat split; try exact Hfound.
  apply (accept_each_expired caseId e found); auto.
Qed.

Lemma acceptCase_after_expiry_example :
  fst (acceptCase (store_with (example_case pending_acceptance acc_pending
                                 (Some 100))) "case-1" "bob" 200)
  = inl case_expired /\
  accept_each
    (snd (acceptCase (store_with (example_case pending_acceptance acc_pending
                                    (Some 100))) "case-1" "bob" 200))
    "case-1" [("bob", 300); ("carol", 400)]
  = ([inl case_expired; inl case_expired],
     store_with (example_case expired acc_expired (Some 100))).
Proof.
  assert (Forall (fun call : string * Z => 100 < snd call)
            [("bob", 300); ("carol", 400)]) as Hcalls
    by (repeat constructor).
  destruct (acceptCase_after_expiry
              (store_with (example_case pending_acceptance acc_pending
                             (Some 100)))
              "case-1" "bob" 200 100
              (example_case pending_acceptance acc_pending (Some 100))
              [("bob", 300); ("carol", 400)]
              eq_refl eq_refl eq_refl eq_refl Hcalls)
    as [H1 [_ [_ [_ [_ H4]]]]].
  split; [exact H1 | exact H4].
Defined.

(** C9.  A case that is already accepted: [acceptCase] returns it to any
    acting user and changes nothing, so the route answers 200 and never
    403; the test for the invited user is not reached. *)
Theorem acceptCase_already_accepted (s : Store) (caseId userId : string)
    (now : Z) (found : Case) :
  find (has_id caseId) (cases (cache s)) = Some found ->
  c_acceptance found = Some acc_accepted ->
  acceptCase s caseId userId now = (inr found, s) /\
  post_accept s caseId userId now = (respond 200 (BCase found), s).
Proof.
  intros Hf Hacc. unfold post_accept, acceptCase. rewrite Hf.
  unfold acceptance_is. rewrite Hacc. split; reflexivity.
Qed.

Lemma acceptCase_already_accepted_example :
  acceptCase (store_with (example_case draft acc_accepted None))
    "case-1" "mallory" 5
  = (inr (example_case draft acc_accepted None),
     store_with (example_case draft acc_accepted None)) /\
  post_accept (store_with (example_case draft acc_accepted None))
    "case-1" "mallory" 5
  = (respond 200 (BCase (example_case draft acc_accepted None)),
     store_with (example_case draft acc_accepted None)).
Proof.
  apply (acceptCase_already_accepted
           (store_with (example_case draft acc_accepted None))
           "case-1" "mallory" 5 (example_case draft acc_accepted None));
    reflexivity.
Defined.

(** ** Replacement keyed by hearing *)

Section Keyed.

Context {T : Type}.
Variable key : T -> string.

Lemma filter_keyed_all (k : string) (l : list T) :
  Forall (fun x => key x = k) l -> filter (keyed key k) l = l.
Proof.
  induction 1 as [|x l Hx _ IH]; simpl; [reflexivity|].
  unfold keyed at 1. rewrite Hx, String.eqb_refl, IH. reflexivity.
Qed.

Lemma filter_keyed_not_keyed (k : string) (l : list T) :
  filter (keyed key k) (filter (not_keyed key k) l) = [].
Proof.
  induction l as [|x l IH]; simpl; [reflexivity|].
  unfold not_keyed at 1. destruct (String.eqb (key x) k) eqn:E; simpl.
  - exact IH.
  - unfold keyed at 1. rewrite E. exact IH.
Qed.

Lemma filter_keyed_other (k other : string) (l : list T) :
  other <> k ->
  filter (keyed key other) (filter (not_keyed key k) l) = filter (keyed key other) l.
Proof.
  intros Hne. induction l as [|x l IH]; simpl; [reflexivity|].
  unfold not_keyed at 1. destruct (String.eqb (key x) k) eqn:E; simpl.
  - apply String.eqb_eq in E. unfold keyed at 2.
    assert (String.eqb (key x) other = false) as ->.
    { apply String.eqb_neq. congruence. }
    exact IH.
  - rewrite IH. reflexivity.
Qed.

Lemma filter_keyed_none (k other : string) (l : list T) :
  other <> k -> Forall (fun x => key x = k) l -> filter (keyed key other) l = [].
Proof.
  intros Hne. induction 1 as [|x l Hx _ IH]; simpl; [reflexivity|].
  unfold keyed at 1.
  assert (String.eqb (key x) other = false) as ->.
  { apply String.eqb_neq. congruence. }
  exact IH.
Qed.

Lemma find_keyed_not_keyed (k : string) (l : list T) :
  find (keyed key k) (filter (not_keyed key k) l) = None.
Proof.
  induction l as [|x l IH]; simpl; [reflexivity|].
  unfold not_keyed at 1. destruct (String.eqb (key x) k) eqn:E; simpl.
  - exact IH.
  - unfold keyed at 1. rewrite E. exact IH.
Qed.

End Keyed.

(** C8.  Two saves of statements for one hearing, each set stamped with that
    hearing's id as both routes stamp it: the statements the store then
    returns for the hearing are exactly the second set, and the statements
    of every other hearing are what they were. *)
Theorem saveStatements_replaces (s : Store) (hearingId : string)
    (first second : list Statement) :
  Forall (fun x => st_hearing_id x = hearingId) first ->
  Forall (fun x => st_hearing_id x = hearingId) second ->
  let s2 := saveStatements (saveStatements s hearingId first) hearingId second in
  getStatements s2 hearingId = second /\
  forall other, other <> hearingId ->
    getStatements s2 other = getStatements s other.
Proof.
  intros H1 H2. unfold getStatements, saveStatements. simpl.
  change (fun x => String.eqb (st_hearing_id x) hearingId)
    with (keyed st_hearing_id hearingId).
  change (fun x => negb (String.eqb (st_hearing_id x) hearingId))
    with (not_keyed st_hearing_id hearingId).
  split.
  - rewrite !filter_app.
    rewrite !filter_keyed_not_keyed, (filter_keyed_all _ _ _ H2).
    reflexivity.
  - intros other Hne.
    change (fun x => String.eqb (st_hearing_id x) other)
      with (keyed st_hearing_id other).
    rewrite !filter_app.
    rewrite !(filter_keyed_other st_hearing_id hearingId other) by exact Hne.
    rewrite (filter_keyed_none _ _ _ _ Hne H1).
    rewrite (filter_keyed_none _ _ _ _ Hne H2).
    rewrite !app_nil_r. reflexivity.
Qed.

Lemma saveStatements_replaces_example :
  getStatements
    (saveStatements
       (saveStatements empty_store "hearing-1"
          [example_statement "hearing-1" A "I did dishes" 1;
           example_statement "hearing-1" B "I cooked" 1])
       "hearing-1" [example_statement "hearing-1" A "I did everything" 2])
    "hearing-1"
  = [example_statement "hearing-1" A "I did everything" 2].
Proof.
  apply (saveStatements_replaces empty_store "hearing-1"
           [example_statement "hearing-1" A "I did dishes" 1;
            example_statement "hearing-1" B "I cooked" 1]
           [example_statement "hearing-1" A "I did everything" 2]);
    repeat constructor.
Defined.

(** ** Verdicts *)

Lemma find_app {T : Type} (p : T -> bool) (l1 l2 : list T) :
  find p (l1 ++ l2) =
  match find p l1 with Some x => Some x | None => find p l2 end.
Proof.
  induction l1 as [|x l IH]; simpl; [reflexivity|].
  destruct (p x); [reflexivity | exact IH].
Qed.

Lemma find_keyed_other {T : Type} (key : T -> string) (k other : string)
    (l : list T) :
  other <> k ->
  find (keyed key other) (filter (not_keyed key k) l) = find (keyed key other) l.
Proof.
  intros Hne. induction l as [|x l IH]; simpl; [reflexivity|].
  unfold not_keyed at 1. destruct (String.eqb (key x) k) eqn:E; simpl.
  - apply String.eqb_eq in E. unfold keyed at 2.
    assert (String.eqb (key x) other = false) as ->.
    { apply String.eqb_neq. congruence. }
    exact IH.
  - rewrite IH. reflexivity.
Qed.

Lemma saveVerdict_once (s : Store) (hearingId : string) (h : Hearing)
    (c : Case) (v : Verdict) :
  getHearing s hearingId = Some h ->
  find (has_id (h_case_id h)) (cases (cache s)) = Some c ->
  v_hearing_id v = hearingId ->
  let s1 := saveVerdict s v in
  getVerdict s1 hearingId = Some v /\
  filter (keyed v_hearing_id hearingId) (verdicts (cache s1)) = [v] /\
  getHearing s1 hearingId = Some (set_h_status h judged) /\
  find (has_id (h_case_id h)) (cases (cache s1)) = Some (set_status c decided) /\
  forall other, other <> hearingId ->
    getVerdict s1 other = getVerdict s other.
Proof.
  intros Hh Hc Hv. unfold getHearing in Hh.
  unfold getVerdict, getHearing, saveVerdict. simpl. rewrite Hv, Hh.
  change (fun v0 => String.eqb (v_hearing_id v0) hearingId)
    with (keyed v_hearing_id hearingId).
  change (fun v0 => negb (String.eqb (v_hearing_id v0) hearingId))
    with (not_keyed v_hearing_id hearingId).
  repeat split.
  - rewrite find_app, find_keyed_not_keyed. simpl.
    unfold keyed. rewrite Hv, String.eqb_refl. reflexivity.
  - rewrite filter_app, filter_keyed_not_keyed. simpl.
    unfold keyed. rewrite Hv, String.eqb_refl. reflexivity.
  - rewrite find_update_first by reflexivity. rewrite Hh. reflexivity.
  - rewrite find_update_first by reflexivity. rewrite Hc. reflexivity.
  - intros other Hne.
    change (fun v0 => String.eqb (v_hearing_id v0) other)
      with (keyed v_hearing_id other).
    rewrite find_app, (find_keyed_other v_hearing_id hearingId other) by exact Hne.
    destruct (find (keyed v_hearing_id other) (verdicts (cache s)));
      [reflexivity|].
    simpl. unfold keyed. rewrite Hv.
    assert (String.eqb hearingId other = false) as ->.
    { apply String.eqb_neq. congruence. }
    reflexivity.
Qed.

(** C7.  Verdicts recorded one after the other for one hearing, the hearing
    and its case being in the store: the store then returns the last one for
    that hearing and holds no other for it, the hearing is judged, its case
    is decided, and the verdicts of other hearings are what they were. *)
Theorem saveVerdict_upsert (s : Store) (hearingId : string) (h : Hearing)
    (c : Case) (earlier : list Verdict) (last : Verdict) :
  getHearing s hearingId = Some h ->
  find (has_id (h_case_id h)) (cases (cache s)) = Some c ->
  Forall (fun x => v_hearing_id x = hearingId) earlier ->
  v_hearing_id last = hearingId ->
  let s1 := save_verdicts s (earlier ++ [last]) in
  getVerdict s1 hearingId = Some last /\
  filter (keyed v_hearing_id hearingId) (verdicts (cache s1)) = [last] /\
  getHearing s1 hearingId = Some (set_h_status h judged) /\
  h_status (set_h_status h judged) = judged /\
  find (has_id (h_case_id h)) (cases (cache s1)) = Some (set_status c decided) /\
  c_status (set_status c decided) = decided /\
  forall other, other <> hearingId ->
    getVerdict s1 other = getVerdict s other.
Proof.
  intros Hh Hc Hall Hlast. revert s h c Hh Hc.
  induction Hall as [|v vs Hv _ IH]; intros s h c Hh Hc.
  - destruct (saveVerdict_once s hearingId h c last Hh Hc Hlast)
      as (H1 & H2 & H3 & H4 & H5).
    simpl. repeat split; assumption.
  - destruct (saveVerdict_once s hearingId h c v Hh Hc Hv)
      as (_ & _ & H3 & H4 & H5).
    destruct (IH (saveVerdict s v) (set_h_status h judged)
                (set_status c decided) H3 H4)
      as (G1 & G2 & G3 & _ & G4 & _ & G5).
    simpl. repeat split; try assumption.
    intros other Hne.
    etransitivity; [exact (G5 other Hne) | exact (H5 other Hne)].
Qed.

Lemma saveVerdict_upsert_example :
  getVerdict
    (save_verdicts
       (store_with_hearing (example_case pending_judgement acc_accepted None)
          (example_hearing submitted))
       [example_verdict 60 40 20; example_verdict 30 70 21;
        example_verdict 55 45 22])
    "hearing-1"
  = Some (example_verdict 55 45 22).
Proof.
  apply (saveVerdict_upsert
           (store_with_hearing
              (example_case pending_judgement acc_accepted None)
              (example_hearing submitted))
           "hearing-1" (example_hearing submitted)
           (example_case pending_judgement acc_accepted None)
           [example_verdict 60 40 20; example_verdict 30 70 21]
           (example_verdict 55 45 22));
    repeat constructor.
Defined.

(** ** Creating a case *)

Lemma includes_In (l : list string) (x : string) :
  includes l x = true <-> In x l.
Proof.
  unfold includes. rewrite existsb_exists. split.
  - intros [y [Hy E]]. apply String.eqb_eq in E. subst. exact Hy.
  - intros H. exists x. split; [exact H | apply String.eqb_refl].
Qed.

Lemma dedup_In (l seen : list string) (x : string) :
  In x (dedup seen l) <-> In x l /\ ~ In x seen.
Proof.
  revert seen. induction l as [|y l IH]; intros seen; simpl.
  - tauto.
  - destruct (includes seen y) eqn:E.
    + apply includes_In in E. rewrite IH. split.
      * tauto.
      * intros [[-> | H] Hn]; tauto.
    + assert (~ In y seen) as Hy.
      { intros H. apply includes_In in H. congruence. }
      simpl. rewrite IH. simpl. split.
      * intros [-> | [H Hn]]; [tauto|]. split; [tauto|]. tauto.
      * intros [[-> | H] Hn]; [tauto|].
        destruct (String.string_dec y x) as [->|Hne]; [tauto|].
        right. split; [exact H|]. intros [F|F]; tauto.
Qed.

Lemma dedup_NoDup (l seen : list string) : NoDup (dedup seen l).
Proof.
  revert seen. induction l as [|y l IH]; intros seen; simpl.
  - constructor.
  - destruct (includes seen y); [apply IH|].
    constructor; [|apply IH].
    rewrite dedup_In. simpl. tauto.
Qed.

(** The route passes the invited friend as [participantIds]: the case it
    answers with has the friend among its participants. *)
Lemma post_cases_invites_participant (is_email : string -> bool) (s : Store)
    (userId : string) (reqBody : option json) (id : string) (now now' : Z)
    (data : CreateCaseBody) (email : string) (friend : User) :
  createCaseSchema is_email reqBody = Some data ->
  cb_friend_email data = Some email ->
  email <> "" ->
  findUserByEmail s email = Some friend ->
  exists c,
    fst (post_cases is_email s userId reqBody id now now')
    = respond 201 (BCase c) /\
    c_invited_user_id c = Some (u_id friend) /\
    c_participant_ids c
    = Some (if String.eqb (u_id friend) userId then [userId]
            else [userId; u_id friend]).
Proof.
  intros Hp He Hne Hf. unfold post_cases. rewrite Hp, He. simpl.
  assert (String.eqb email "" = false) as -> by (apply String.eqb_neq; exact Hne).
  simpl. rewrite Hf. simpl. eexists. split; [reflexivity|].
  split; [reflexivity|]. simpl. unfold Array_from_Set. simpl.
  destruct (String.eqb (u_id friend) userId); reflexivity.
Qed.

(** C1, as the code has it.  [createCase] with an invited user (a non-empty
    [invitedUserId]): the case is pending acceptance, its acceptance is
    pending, it expires 24 hours after the clock reading, and its
    participants are the owner followed by the [participantIds] passed in,
    each once; the owner is alone exactly when no other id is passed.  An
    invited user that is among the ids passed is a participant from the
    start, and [POST /cases] passes the friend it invites: the case it
    answers with has the friend as invited user and among its
    participants. *)
Theorem createCase_invited (s : Store) (input : CreateCaseInput) (id : string)
    (now now' : Z) (invited : string) :
  invitedUserId input = Some invited ->
  invited <> "" ->
  let c := fst (createCase s input id now now') in
  let passed := match participantIds input with
                | Some ps => ps
                | None => []
                end in
  c_status c = pending_acceptance /\
  c_acceptance c = Some acc_pending /\
  c_created_at c = now /\
  c_expires_at c = Some (now' + 86400000) /\
  c_invited_user_id c = Some invited /\
  (exists l,
     c_participant_ids c = Some l /\
     hd_error l = Some (ownerId input) /\
     NoDup l /\
     (forall x, In x l <-> x = ownerId input \/ In x passed) /\
     (l = [ownerId input] <-> forall x, In x passed -> x = ownerId input) /\
     (In invited passed -> In invited l)) /\
  (forall is_email userId reqBody id' t t' data email friend,
     createCaseSchema is_email reqBody = Some data ->
     cb_friend_email data = Some email ->
     email <> "" ->
     findUserByEmail s email = Some friend ->
     exists c',
       fst (post_cases is_email s userId reqBody id' t t')
       = respond 201 (BCase c') /\
       c_invited_user_id c' = Some (u_id friend) /\
       In (u_id friend) (participants_of c')).
Proof.
  intros Hinv Hne. cbv zeta. unfold createCase. simpl. rewrite Hinv. simpl.
  assert (String.eqb invited "" = false) as -> by (apply String.eqb_neq; exact Hne).
  simpl. repeat (split; [reflexivity|]). split.
  - assert (exists l,
              match participantIds input with
              | Some (p :: ps) => Array_from_Set (ownerId input :: p :: ps)
              | _ => [ownerId input]
              end = l /\
              hd_error l = Some (ownerId input) /\
              NoDup l /\
              (forall x, In x l <->
                         x = ownerId input \/
                         In x (match participantIds input with
                               | Some ps => ps
                               | None => []
                               end))) as (l & -> & Hhd & Hnd & Hin).
    { assert (forall o : string,
                NoDup [o] /\ (forall x, In x [o] <-> x = o \/ False)) as Hone.
      { intros o. split.
        - constructor; [simpl; tauto | constructor].
        - intros x. simpl. split; [intros [H|[]]; auto | intros [H|[]]; auto]. }
      destruct (participantIds input) as [[|p ps]|]; simpl.
      - exists [ownerId input]. destruct (Hone (ownerId input)) as [H1 H2].
        repeat split; try assumption; apply H2.
      - exists (Array_from_Set (ownerId input :: p :: ps)).
        split; [reflexivity|]. split; [reflexivity|].
        split; [apply dedup_NoDup|].
        intros x. unfold Array_from_Set. rewrite dedup_In. simpl.
        split; [intros [[H|H] _]; auto | intros [H|H]; auto].
      - exists [ownerId input]. destruct (Hone (ownerId input)) as [H1 H2].
        repeat split; try assumption; apply H2. }
    exists l. split; [reflexivity|]. split; [exact Hhd|].
    split; [exact Hnd|]. split; [exact Hin|]. split.
    + split.
      * intros -> x Hx.
        destruct (proj2 (Hin x) (or_intror Hx)) as [E|[]]. symmetry. exact E.
      * intros Hall. destruct l as [|a l]; [discriminate|].
        cbn [hd_error] in Hhd. injection Hhd as ->.
        destruct l as [|b l]; [reflexivity|]. exfalso.
        apply NoDup_cons_iff in Hnd. destruct Hnd as [Hnot _].
        apply Hnot. left.
        destruct (proj1 (Hin b) (or_intror (or_introl eq_refl))) as [E|E].
        -- exact E.
        -- exact (Hall b E).
    + intros H. apply Hin. right. exact H.
  - intros is_email userId reqBody id' t t' data email friend Hp He Hn Hf.
    destruct (post_cases_invites_participant is_email s userId reqBody id' t t'
                data email friend Hp He Hn Hf) as (c' & Hr & Hi & Hl).
    exists c'. split; [exact Hr|]. split; [exact Hi|].
    unfold participants_of. rewrite Hl.
    destruct (String.eqb_spec (u_id friend) userId) as [E|E].
    + left. symmetry. exact E.
    + right. left. reflexivity.
Qed.

Lemma createCase_invited_example :
  c_status (fst (createCase empty_store invite_input "case-1" 0 5))
  = pending_acceptance /\
  c_expires_at (fst (createCase empty_store invite_input "case-1" 0 5))
  = Some 86400005.
Proof.
  destruct (createCase_invited empty_store invite_input "case-1" 0 5 "bob")
    as (H1 & _ & _ & H4 & _).
  - reflexivity.
  - discriminate.
  - split; [exact H1 | exact H4].
Defined.

(** C1 as the specification words it fails: the invited user is a
    participant of the case [createCase] returns. *)
Lemma createCase_invited_user_is_participant :
  c_participant_ids (fst (createCase empty_store invite_input "case-1" 0 5))
  = Some ["alice"; "bob"] /\
  c_participant_ids (fst (createCase empty_store invite_input "case-1" 0 5))
  <> Some ["alice"].
Proof. split; [reflexivity | discriminate]. Qed.


(** ** Validation of a new case *)






(** ** Reading the model's answer *)

Lemma clamp_finite (hi q : Q) :
  Qle_bool hi 0 = false ->
  Math_min2 (Fin hi) (Math_max2 (Fin 0) (Fin q)) = Fin (clamped 0 hi q).
Proof.
  intros Hhi. unfold Math_max2, Math_min2, clamped. simpl.
  destruct (Qle_bool q 0) eqn:E0; simpl.
  - rewrite Hhi. reflexivity.
  - destruct (Qle_bool hi q); reflexivity.
Qed.

Lemma clamped_between (hi q : Q) :
  Qle_bool hi 0 = false -> between 0 hi (Fin (clamped 0 hi q)).
Proof.
  intros Hhi. unfold clamped, between.
  assert (0 <= hi)%Q as H0.
  { destruct (Qlt_le_dec hi 0) as [H|H]; [|exact H].
    apply Qlt_le_weak, Qle_bool_iff in H. congruence. }
  destruct (Qle_bool q 0) eqn:E0.
  - split; [apply Qle_refl | exact H0].
  - assert (0 <= q)%Q as Hq.
    { destruct (Qlt_le_dec q 0) as [H|H]; [|exact H].
      apply Qlt_le_weak, Qle_bool_iff in H. congruence. }
    destruct (Qle_bool hi q) eqn:E1.
    + split; [exact H0 | apply Qle_refl].
    + split; [exact Hq|].
      destruct (Qlt_le_dec q hi) as [H|H]; [apply Qlt_le_weak; exact H|].
      apply Qle_bool_iff in H. congruence.
Qed.

Lemma clamp_numeric (s2n : string -> number) (n2s : Q -> string) (hi : Q)
    (v : option json) :
  Qle_bool hi 0 = false ->
  numeric_or_missing v ->
  clamp s2n n2s hi v = Some (clamped_field hi v) /\
  between 0 hi (clamped_field hi v).
Proof.
  intros Hhi Hv.
  assert (clamp s2n n2s hi None = Some (Fin 0) /\ between 0 hi (Fin 0)) as H0.
  { unfold clamp. cbn [nullish ToNumber option_map].
    rewrite (clamp_finite hi 0 Hhi). split.
    - reflexivity.
    - exact (clamped_between hi 0 Hhi). }
  destruct v as [[| |q|[|]| | |]|]; simpl in Hv; try contradiction;
    try exact H0.
  - unfold clamp. cbn [nullish ToNumber option_map].
    rewrite (clamp_finite hi q Hhi). split.
    + reflexivity.
    + exact (clamped_between hi q Hhi).
  - unfold clamp. cbn [nullish ToNumber option_map].
    change (Math_max2 (Fin 0) PosInfinity) with PosInfinity.
    change (Math_min2 (Fin hi) PosInfinity) with (Fin hi).
    split; [reflexivity|].
    pose proof (clamped_between hi hi Hhi) as H. unfold clamped in H.
    rewrite Hhi in H.
    assert (Qle_bool hi hi = true) as E by (apply Qle_bool_iff, Qle_refl).
    rewrite E in H. exact H.
Qed.

Lemma nullish_missing (v : option json) (d : json) :
  missing v -> nullish v d = d.
Proof. intros [->| ->]; reflexivity. Qed.

Lemma nullish_defaulted (v : option json) (d : json) :
  defaulted v d (nullish v d).
Proof.
  split.
  - apply nullish_missing.
  - intros x -> Hx. destruct x; try reflexivity. contradiction.
Qed.

(** C6, as the code has it.  An answer that is a JSON object whose three
    score fields are each missing or a JSON number: the verdict is built
    without an exception; each share is its own field clamped to [0,100] and
    the confidence its field clamped to [0,1], a missing field counting as
    0, with no adjustment of one share to the other; a string or array field
    that is missing is empty, and one that is present is kept as it is.  A
    share of 150 gives 100 and a confidence of -1 gives 0. *)
Theorem read_verdict_clamps (s2n : string -> number) (n2s : Q -> string)
    (f : list (string * json)) (hearingId : string) (completion : json)
    (now : Z) :
  let score := lookup "score" f in
  let reasoning := lookup "reasoning" f in
  let advice := lookup "advice" f in
  numeric_or_missing (opt_prop score "partyA_pct") ->
  numeric_or_missing (opt_prop score "partyB_pct") ->
  numeric_or_missing (opt_prop score "confidence") ->
  exists v,
    read_verdict s2n n2s (JObj f) hearingId completion now = Some v /\
    partyA_pct (v_score v) = clamped_field 100 (opt_prop score "partyA_pct") /\
    partyB_pct (v_score v) = clamped_field 100 (opt_prop score "partyB_pct") /\
    confidence (v_score v) = clamped_field 1 (opt_prop score "confidence") /\
    between 0 100 (partyA_pct (v_score v)) /\
    between 0 100 (partyB_pct (v_score v)) /\
    between 0 1 (confidence (v_score v)) /\
    (opt_prop score "partyA_pct" = Some (JNum 150) ->
     partyA_pct (v_score v) = Fin 100) /\
    (opt_prop score "confidence" = Some (JNum (-1)) ->
     confidence (v_score v) = Fin 0) /\
    defaulted (lookup "summary" f) (JStr "") (v_summary v) /\
    defaulted (opt_prop reasoning "facts") (JStr "")
      (facts (v_reasoning v)) /\
    defaulted (opt_prop reasoning "fairness_checks") (JArr [])
      (fairness_checks (v_reasoning v)) /\
    defaulted (opt_prop reasoning "emotion_considerations") (JStr "")
      (emotion_considerations (v_reasoning v)) /\
    defaulted (opt_prop reasoning "assumptions") (JArr [])
      (assumptions (v_reasoning v)) /\
    defaulted (opt_prop reasoning "missing_info") (JArr [])
      (missing_info (v_reasoning v)) /\
    defaulted (opt_prop advice "together") (JArr []) (together (v_advice v)) /\
    defaulted (opt_prop advice "forA") (JArr []) (forA (v_advice v)) /\
    defaulted (opt_prop advice "forB") (JArr []) (forB (v_advice v)).
Proof.
  intros score reasoning advice HA HB HC.
  destruct (clamp_numeric s2n n2s 100 _ eq_refl HA) as [EA BA].
  destruct (clamp_numeric s2n n2s 100 _ eq_refl HB) as [EB BB].
  destruct (clamp_numeric s2n n2s 1 _ eq_refl HC) as [EC BC].
  unfold read_verdict. cbn [prop]. fold score reasoning advice.
  rewrite EA, EB, EC. eexists. split; [reflexivity|]. cbn [v_score
    partyA_pct partyB_pct confidence v_summary v_reasoning v_advice facts
    fairness_checks emotion_considerations assumptions missing_info together
    forA forB].
  repeat (split; [first [reflexivity | assumption | apply nullish_defaulted
                        | intros ->; reflexivity]|]).
  apply nullish_defaulted.
Qed.

Lemma read_verdict_clamps_example :
  exists v,
    read_verdict no_number no_text answer_out_of_range "hearing-1" JNull 0
    = Some v /\
    partyA_pct (v_score v) = Fin 100 /\
    partyB_pct (v_score v) = Fin 100 /\
    confidence (v_score v) = Fin 0.
Proof.
  destruct (read_verdict_clamps no_number no_text
              [("score", JObj [("partyA_pct", JNum 150);
                               ("partyB_pct", JNum 150);
                               ("confidence", JNum (-1))])]
              "hearing-1" JNull 0)
    as (v & Hv & HA & HB & HC & _); simpl; auto.
  exists v. split; [exact Hv|]. split; [exact HA|]. split; [exact HB|].
  exact HC.
Defined.

(** C6 as the specification words it fails.  A share that is an object comes
    out as NaN, which is in no range, and a summary that is a number stays a
    number; a confidence that is an object with a property [toString] makes
    the conversion throw. *)
Lemma read_verdict_not_well_formed :
  exists v,
    (forall s2n n2s,
       read_verdict s2n n2s answer_with_object_share "hearing-1" JNull 0
       = Some v) /\
    partyA_pct (v_score v) = NaN /\
    ~ between 0 100 (partyA_pct (v_score v)) /\
    v_summary v = JNum 5 /\
    ~ well_formed v /\
    (forall s2n n2s,
       read_verdict s2n n2s answer_with_odd_confidence "hearing-1" JNull 0
       = None).
Proof.
  eexists. split; [intros; reflexivity|]. split; [reflexivity|].
  split; [intros H; exact H|]. split; [reflexivity|].
  split; [intros [H _]; exact H|]. intros; reflexivity.
Qed.

(** ** The mock verdict *)

Lemma count_words_acc (l : list Statement) (acc : Z) :
  fold_left (fun a x => a + split_ws_length (st_narrative x)) l acc
  = acc + count_words l.
Proof.
  unfold count_words. revert acc.
  induction l as [|x l IH]; intros acc; simpl.
  - lia.
  - rewrite IH, (IH (split_ws_length (st_narrative x))). lia.
Qed.

Lemma count_words_cons (x : Statement) (l : list Statement) :
  count_words (x :: l) = split_ws_length (st_narrative x) + count_words l.
Proof. unfold count_words at 1. simpl. apply count_words_acc. Qed.

Lemma split_ws_length_pos (s : string) : 1 <= split_ws_length s.
Proof. unfold split_ws_length. lia. Qed.

Lemma count_words_filter (p : Statement -> bool) (l : list Statement) :
  0 <= count_words (filter p l) <= count_words l.
Proof.
  induction l as [|x l IH]; simpl.
  - unfold count_words. simpl. lia.
  - pose proof (split_ws_length_pos (st_narrative x)).
    destruct (p x); rewrite !count_words_cons; lia.
Qed.

Lemma Math_round_bounds (x : Q) :
  (0 <= x)%Q -> (x <= 100)%Q -> 0 <= Math_round x <= 100.
Proof.
  intros H0 H1. unfold Math_round. split.
  - assert (Qfloor 0 <= Qfloor (x + (1 # 2))) as H
      by (apply Qfloor_resp_le; lra).
    exact H.
  - assert (Qfloor (x + (1 # 2)) <= Qfloor (100 + (1 # 2))) as H
      by (apply Qfloor_resp_le; lra).
    exact H.
Qed.

Section Rounding.

Variable fl : Q -> Q.
Hypothesis fl_monotone : forall x y, (x <= y)%Q -> (fl x <= fl y)%Q.
Hypothesis fl_0 : (fl 0 == 0)%Q.
Hypothesis fl_1 : (fl 1 == 1)%Q.
Hypothesis fl_100 : (fl 100 == 100)%Q.

Lemma mock_pct_bounds (sts : list Statement) : 0 <= mock_pct fl sts <= 100.
Proof.
  unfold mock_pct.
  pose proof (count_words_filter is_A sts) as [Ha Hat].
  set (ct := count_words sts) in *.
  set (ca := count_words (filter is_A sts)) in *.
  set (t := if ct =? 0 then 1 else ct).
  assert (1 <= t) as Ht.
  { unfold t. destruct (Z.eqb_spec ct 0); lia. }
  assert (1 <= inject_Z t)%Q as HtQ.
  { change 1%Q with (inject_Z 1). rewrite <- Zle_Qle. exact Ht. }
  set (aWords := if ca =? 0 then (inject_Z t / 2)%Q else inject_Z ca).
  assert (0 <= aWords /\ aWords <= inject_Z t)%Q as [HA0 HA1].
  { unfold aWords. destruct (Z.eqb_spec ca 0) as [E|E].
    - split.
      + apply Qle_shift_div_l; lra.
      + apply Qle_shift_div_r; lra.
    - assert (t = ct) as -> by (unfold t; destruct (Z.eqb_spec ct 0); lia).
      split.
      + change 0%Q with (inject_Z 0). rewrite <- Zle_Qle. exact Ha.
      + rewrite <- Zle_Qle. exact Hat. }
  assert (0 <= aWords / inject_Z t /\ aWords / inject_Z t <= 1)%Q as [Hr0 Hr1].
  { split.
    - apply Qle_shift_div_l; lra.
    - apply Qle_shift_div_r; lra. }
  apply fl_monotone in Hr0, Hr1. rewrite fl_0 in Hr0. rewrite fl_1 in Hr1.
  set (r := fl (aWords / inject_Z t)) in *.
  assert (0 <= r * 100 /\ r * 100 <= 100)%Q as [Hx0 Hx1] by (split; lra).
  apply fl_monotone in Hx0, Hx1. rewrite fl_0 in Hx0. rewrite fl_100 in Hx1.
  apply Math_round_bounds; assumption.
Qed.

End Rounding.

(** C10.  Whatever the input, the mock verdict has two shares that are whole
    numbers between 0 and 100 and add up to 100, and a confidence of 0.3.
    The rounding of the division and of the multiplication is any monotone
    function that leaves 0, 1 and 100 as they are, as rounding to the nearest
    floating point number does. *)
Theorem defaultVerdict_scores (fl : Q -> Q) (input : JudgeServiceInput)
    (now : Z) :
  (forall x y, (x <= y)%Q -> (fl x <= fl y)%Q) ->
  (fl 0 == 0)%Q -> (fl 1 == 1)%Q -> (fl 100 == 100)%Q ->
  exists a b,
    partyA_pct (v_score (defaultVerdict fl input now)) = int a /\
    partyB_pct (v_score (defaultVerdict fl input now)) = int b /\
    0 <= a <= 100 /\
    0 <= b <= 100 /\
    a + b = 100 /\
    confidence (v_score (defaultVerdict fl input now)) = Fin (3 # 10).
Proof.
  intros Hm H0 H1 H100.
  pose proof (mock_pct_bounds fl Hm H0 H1 H100 (ji_statements input)) as Hb.
  exists (mock_pct fl (ji_statements input)).
  exists (100 - mock_pct fl (ji_statements input)).
  repeat split; try reflexivity; lia.
Qed.

Lemma defaultVerdict_scores_example :
  exists a b,
    partyA_pct (v_score (defaultVerdict exact chores_input 30)) = int a /\
    partyB_pct (v_score (defaultVerdict exact chores_input 30)) = int b /\
    0 <= a <= 100 /\
    0 <= b <= 100 /\
    a + b = 100 /\
    confidence (v_score (defaultVerdict exact chores_input 30)) = Fin (3 # 10).
Proof.
  apply (defaultVerdict_scores exact chores_input 30).
  - intros x y H. exact H.
  - reflexivity.
  - reflexivity.
  - reflexivity.
Defined.

(** Three words against two: 60 and 40. *)
Lemma defaultVerdict_chores :
  v_score (defaultVerdict exact chores_input 30)
  = {| partyA_pct := int 60; partyB_pct := int 40;
       confidence := Fin (3 # 10) |}.
Proof. reflexivity. Qed.

(** ** Appeals *)

Lemma expireInvites_keeps (s : Store) (now : Z) :
  hearings (cache (expireInvites s now)) = hearings (cache s) /\
  verdicts (cache (expireInvites s now)) = verdicts (cache s) /\
  statements (cache (expireInvites s now)) = statements (cache s) /\
  users (cache (expireInvites s now)) = users (cache s).
Proof.
  unfold expireInvites.
  destruct (existsb (should_expire now) (cases (cache s)));
    repeat split; reflexivity.
Qed.

Lemma Math_max2_int (a b : Z) : Math_max2 (int a) (int b) = int (Z.max a b).
Proof.
  unfold Math_max2, int. cbn [isNaN orb num_ltb].
  unfold Qle_bool. cbn [Qnum Qden inject_Z]. rewrite !Z.mul_1_r.
  destruct (Z.leb_spec b a).
  - rewrite Z.max_l by lia. reflexivity.
  - rewrite Z.max_r by lia. reflexivity.
Qed.

Lemma fold_Math_max2_int (rs : list Z) (r : Z) :
  fold_left Math_max2 (map int rs) (int r) = int (Zmax_list r rs).
Proof.
  unfold Zmax_list. revert r.
  induction rs as [|x rs IH]; intros r; simpl; [reflexivity|].
  rewrite Math_max2_int. apply IH.
Qed.

Lemma Math_max_int (r : Z) (rs : list Z) :
  Math_max (map int (r :: rs)) = int (Zmax_list r rs).
Proof. unfold Math_max. simpl. apply fold_Math_max2_int. Qed.

Lemma add1_int (z : Z) : add1 (int z) = int (z + 1).
Proof.
  unfold add1, int, inject_Z, Qplus. cbn [Qnum Qden].
  rewrite !Z.mul_1_r. reflexivity.
Qed.

Lemma resolve_round_int (hs : list Hearing) (rs : list Z) :
  map h_round hs = map int rs ->
  resolve_round None hs = int (next_after rs).
Proof.
  intros H. destruct hs as [|h hs], rs as [|r rs]; try discriminate.
  - reflexivity.
  - cbn [resolve_round next_after]. rewrite H, Math_max_int, add1_int.
    reflexivity.
Qed.

(** What the appeal route does to the store once its checks have passed. *)
Lemma post_appeal_effect (s : Store) (caseId hearingId userId : string)
    (reqBody : option json) (t_sweep : Z) (hid : string)
    (t_created t_stamp : Z) (eid : nat -> string)
    (caseItem : Case) (hearing : Hearing) (data : AppealBody) (s1 : Store) :
  getCase s caseId t_sweep = (Some caseItem, s1) ->
  assertParticipant userId caseItem = true ->
  getHearing s1 hearingId = Some hearing ->
  h_case_id hearing = c_id caseItem ->
  appealSchema reqBody = Some data ->
  let r := post_appeal s caseId hearingId userId reqBody t_sweep hid
             t_created t_stamp eid in
  fst r = respond 500 (BUncaught (ReferenceError "updateCase")) /\
  hearings (cache (snd r))
  = hearings (cache s)
    ++ [new_hearing caseId (add1 (Math_max (rounds_of s caseId))) hid
          t_created] /\
  find (has_id caseId) (cases (cache (snd r)))
  = Some (set_status caseItem appealed) /\
  verdicts (cache (snd r)) = verdicts (cache s) /\
  find (has_id caseId) (cases (file (snd r)))
  = Some (set_status caseItem pending_judgement).
Proof.
  intros Hcase Hpart Hh Hbel Hbody. unfold getCase in Hcase.
  injection Hcase as Hfind Hs1.
  pose proof (find_has_id _ _ _ Hfind) as Hid.
  destruct (expireInvites_keeps s t_sweep) as (Kh & Kv & _ & _).
  rewrite Hs1 in Kh, Kv, Hfind.
  assert (rounds_of s1 caseId = rounds_of s caseId) as Hrounds.
  { unfold rounds_of, listHearings. rewrite Kh. reflexivity. }
  unfold post_appeal, find_hearing_of_case, getCase. rewrite Hs1, Hfind.
  rewrite Hpart, Hh, Hbel, String.eqb_refl. cbn [negb]. rewrite Hbody.
  rewrite Hid. fold (rounds_of s1 caseId). rewrite Hrounds.
  unfold createHearing.
  destruct (ab_statements data) as [sts|], (ab_evidence data) as [evs|];
    cbn [fst snd cache file save saveStatements saveEvidence set_cases
         set_hearings set_statements set_evidence hearings cases verdicts
         h_id];
    rewrite ?find_update_first by reflexivity;
    rewrite Hfind, Kh, Kv;
    repeat split; reflexivity.
Qed.

Lemma getHearing_listed (s : Store) (hearingId : string) (h : Hearing) :
  getHearing s hearingId = Some h -> rounds_of s (h_case_id h) <> [].
Proof.
  unfold getHearing, rounds_of, listHearings. intros H.
  apply find_some in H. destruct H as [Hin _].
  assert (In h (filter (fun x => String.eqb (h_case_id x) (h_case_id h))
                  (hearings (cache s)))) as Hf.
  { apply filter_In. split; [exact Hin | apply String.eqb_refl]. }
  intros E. apply (in_map h_round) in Hf. rewrite E in Hf. exact Hf.
Qed.

(** C2, at a failing input.  A participant appeals the judged hearing of
    the case with an empty body.  The handler creates the hearing of round 2 and
    assigns the status appealed to the case it holds in the cache, then
    calls [updateCase], which [server.ts] neither imports nor declares: the
    request is answered 500 instead of 201 with the hearing, and the file
    keeps the status pending judgement that [createHearing] saved. *)
Theorem appeal_throws_before_saving :
  let r := post_appeal judged_store "case-1" "hearing-1" "alice"
             bare_appeal_body 50 "hearing-2" 51 52 no_ids in
  fst r = respond 500 (BUncaught (ReferenceError "updateCase")) /\
  rounds_of (snd r) "case-1" = [int 1; int 2] /\
  option_map c_status (find (has_id "case-1") (cases (cache (snd r))))
  = Some appealed /\
  option_map c_status (find (has_id "case-1") (cases (file (snd r))))
  = Some pending_judgement /\
  ~ persisted (snd r).
Proof.
  cbv zeta. split; [reflexivity|]. split; [reflexivity|].
  split; [reflexivity|]. split; [reflexivity|].
  unfold persisted. intros E.
  apply (f_equal (fun d => option_map c_status (find (has_id "case-1") (cases d))))
    in E.
  discriminate E.
Qed.

(** X29.  What an appeal adds.  An appeal by a participant on a hearing of
    the case, with a body the route's schema accepts, adds one hearing to
    the store, for this case (which has at least one already), with status
    submitted; when the rounds of the case are safe integers its round is
    one above the largest of them, whichever hearing is appealed; and the
    store returns the same verdict as before for every hearing, the appealed
    one included. *)
Theorem appeal_adds_next_round (s : Store) (caseId hearingId userId : string)
    (reqBody : option json) (t_sweep : Z) (hid : string)
    (t_created t_stamp : Z) (eid : nat -> string)
    (caseItem : Case) (hearing : Hearing) (data : AppealBody) (s1 : Store) :
  getCase s caseId t_sweep = (Some caseItem, s1) ->
  assertParticipant userId caseItem = true ->
  getHearing s1 hearingId = Some hearing ->
  h_case_id hearing = c_id caseItem ->
  appealSchema reqBody = Some data ->
  let s2 := snd (post_appeal s caseId hearingId userId reqBody t_sweep hid
                   t_created t_stamp eid) in
  exists next,
    hearings (cache s2) = hearings (cache s) ++ [next] /\
    listHearings s2 caseId = listHearings s caseId ++ [next] /\
    h_id next = hid /\
    h_case_id next = caseId /\
    h_status next = submitted /\
    h_created_at next = t_created /\
    rounds_of s caseId <> [] /\
    (forall rs, rounds_of s caseId = map int rs ->
                Forall safe_integer rs ->
                h_round next = int (next_after rs)) /\
    (forall id, getVerdict s2 id = getVerdict s id).
Proof.
  intros Hcase Hpart Hh Hbel Hbody.
  destruct (post_appeal_effect s caseId hearingId userId reqBody t_sweep hid
              t_created t_stamp eid caseItem hearing data s1
              Hcase Hpart Hh Hbel Hbody) as (_ & Hhs & _ & Hv & _).
  assert (c_id caseItem = caseId) as Hid.
  { unfold getCase in Hcase. injection Hcase as Hfind _.
    exact (find_has_id _ _ _ Hfind). }
  assert (rounds_of s caseId <> []) as Hne.
  { pose proof (getHearing_listed s1 hearingId hearing Hh) as H.
    rewrite Hbel, Hid in H. unfold getCase in Hcase.
    injection Hcase as _ Hs1. subst s1.
    unfold rounds_of, listHearings in *.
    rewrite (proj1 (expireInvites_keeps s t_sweep)) in H. exact H. }
  cbv zeta.
  exists (new_hearing caseId (add1 (Math_max (rounds_of s caseId))) hid
            t_created).
  split; [exact Hhs|]. split.
  { unfold listHearings. rewrite Hhs, filter_app. simpl.
    rewrite String.eqb_refl. reflexivity. }
  repeat (split; [first [reflexivity | exact Hne]|]).
  split.
  { intros rs Hrs _. cbn [new_hearing h_round].
    destruct rs as [|r rs]; [rewrite Hrs in Hne; contradiction|].
    rewrite Hrs, Math_max_int, add1_int. reflexivity. }
  intros id. unfold getVerdict. rewrite Hv. reflexivity.
Qed.

Lemma appeal_adds_next_round_example :
  rounds_of
    (snd (post_appeal judged_store "case-1" "hearing-1" "alice"
            bare_appeal_body 50 "hearing-2" 51 52 no_ids)) "case-1"
  = [int 1; int 2] /\
  getVerdict
    (snd (post_appeal judged_store "case-1" "hearing-1" "alice"
            bare_appeal_body 50 "hearing-2" 51 52 no_ids)) "hearing-1"
  = Some (example_verdict 60 40 20).
Proof.
  destruct (appeal_adds_next_round judged_store "case-1" "hearing-1" "alice"
              bare_appeal_body 50 "hearing-2" 51 52 no_ids
              (example_case decided acc_accepted None)
              (example_hearing judged)
              {| ab_statements := None; ab_evidence := None |}
              judged_store eq_refl eq_refl eq_refl eq_refl eq_refl)
    as (next & _ & Hl & _ & _ & _ & _ & _ & Hr & Hv).
  assert (Forall safe_integer [1]) as Hsafe
    by (repeat constructor; unfold safe_integer; lia).
  split.
  - unfold rounds_of. rewrite Hl, map_app. cbn [map].
    rewrite (Hr [1] eq_refl Hsafe). reflexivity.
  - rewrite Hv. reflexivity.
Defined.

(** The appeal route never answers 201: it ends in a ReferenceError, after
    which the file still holds the status [createHearing] saved. *)
Lemma post_appeal_example_response :
  fst (post_appeal judged_store "case-1" "hearing-1" "alice" None 50
         "hearing-2" 51 52 no_ids)
  = respond 500 (BUncaught (ReferenceError "updateCase")) /\
  option_map c_status
    (find (has_id "case-1")
       (cases (file (snd (post_appeal judged_store "case-1" "hearing-1"
                            "alice" None 50 "hearing-2" 51 52 no_ids)))))
  = Some pending_judgement.
Proof. split; reflexivity. Qed.

(** ** Rounds along a run *)

Lemma rounds_of_hearings (s s1 : Store) (caseId : string) :
  hearings (cache s1) = hearings (cache s) ->
  rounds_of s1 caseId = rounds_of s caseId.
Proof. unfold rounds_of, listHearings. intros ->. reflexivity. Qed.

Lemma rounds_of_added (s s1 : Store) (caseId caseId' : string)
    (round : number) (id : string) (now : Z) :
  hearings (cache s1)
  = hearings (cache s) ++ [new_hearing caseId' round id now] ->
  rounds_of s1 caseId
  = rounds_of s caseId ++ (if String.eqb caseId' caseId then [round] else []).
Proof.
  unfold rounds_of, listHearings. intros ->. rewrite filter_app, map_app.
  simpl. destruct (String.eqb caseId' caseId); reflexivity.
Qed.

Lemma rounds_of_update_first (l : list Hearing) (p : Hearing -> bool)
    (st : HearingStatus) (caseId : string) :
  map h_round
    (filter (fun h => String.eqb (h_case_id h) caseId)
       (update_first p (fun h => set_h_status h st) l))
  = map h_round (filter (fun h => String.eqb (h_case_id h) caseId) l).
Proof.
  induction l as [|x l IH]; simpl; [reflexivity|].
  destruct (p x); simpl.
  - destruct (String.eqb (h_case_id x) caseId); reflexivity.
  - destruct (String.eqb (h_case_id x) caseId); simpl; rewrite IH; reflexivity.
Qed.

Lemma listHearings_swept (s : Store) (now : Z) (caseId : string) :
  listHearings (expireInvites s now) caseId = listHearings s caseId.
Proof.
  unfold listHearings. rewrite (proj1 (expireInvites_keeps s now)).
  reflexivity.
Qed.

Lemma rounds_of_swept (s : Store) (now : Z) (caseId : string) :
  rounds_of (expireInvites s now) caseId = rounds_of s caseId.
Proof. unfold rounds_of. rewrite listHearings_swept. reflexivity. Qed.

(** The rounds of [caseId] after a hearing request: the same, or one more,
    which is the round the request names or the round an omitted round
    resolves to. *)
Lemma post_hearings_rounds (s : Store) (caseId' userId : string)
    (reqBody : option json) (t_sweep : Z) (hid : string)
    (t_created t_stamp : Z) (eid : nat -> string) (caseId : string) :
  let s1 := snd (post_hearings s caseId' userId reqBody t_sweep hid
                   t_created t_stamp eid) in
  rounds_of s1 caseId = rounds_of s caseId \/
  (caseId' = caseId /\
   exists data r, hearingSchema reqBody = Some data /\ hb_round data = Some r)
  \/
  rounds_of s1 caseId
  = rounds_of s caseId ++ [resolve_round None (listHearings s caseId)].
Proof.
  cbv zeta. unfold post_hearings, getCase.
  destruct (find (has_id caseId') (cases (cache (expireInvites s t_sweep))))
    as [caseItem|] eqn:Hfind; cbn [snd];
    [|left; apply rounds_of_swept].
  destruct (negb (assertParticipant userId caseItem)); cbn [snd];
    [left; apply rounds_of_swept|].
  destruct (match c_acceptance caseItem with
            | Some acc_accepted | None => false
            | Some _ => true
            end); cbn [snd]; [left; apply rounds_of_swept|].
  destruct (hearingSchema reqBody) as [data|] eqn:Hbody; cbn [snd];
    [|left; apply rounds_of_swept].
  rewrite (find_has_id _ _ _ Hfind).
  unfold createHearing. cbn [snd h_id].
  match goal with
  | |- context [saveEvidence ?a ?b ?c] =>
      assert (hearings (cache (saveEvidence a b c))
              = hearings (cache s)
                ++ [new_hearing caseId'
                      (resolve_round (hb_round data)
                         (listHearings (expireInvites s t_sweep) caseId'))
                      hid t_created]) as Hadd
  end.
  { cbn [saveEvidence saveStatements save cache set_evidence set_statements
         set_cases set_hearings hearings].
    rewrite (proj1 (expireInvites_keeps s t_sweep)). reflexivity. }
  rewrite (rounds_of_added _ _ caseId _ _ _ _ Hadd).
  destruct (String.eqb_spec caseId' caseId) as [->|Hne].
  - rewrite listHearings_swept.
    destruct (hb_round data) as [r|] eqn:Hr.
    + right. left. split; [reflexivity|]. exists data, r. auto.
    + right. right. reflexivity.
  - left. apply app_nil_r.
Qed.

(** The same for an appeal, whose round is one above the largest. *)
Lemma post_appeal_rounds (s : Store) (caseId' hearingId userId : string)
    (reqBody : option json) (t_sweep : Z) (hid : string)
    (t_created t_stamp : Z) (eid : nat -> string) (caseId : string) :
  let s1 := snd (post_appeal s caseId' hearingId userId reqBody t_sweep hid
                   t_created t_stamp eid) in
  rounds_of s1 caseId = rounds_of s caseId \/
  (rounds_of s caseId <> [] /\
   rounds_of s1 caseId
   = rounds_of s caseId ++ [add1 (Math_max (rounds_of s caseId))]).
Proof.
  cbv zeta.
  destruct (getCase s caseId' t_sweep) as [[caseItem|] s1] eqn:Hcase.
  2:{ left. unfold post_appeal, find_hearing_of_case. rewrite Hcase.
      unfold getCase in Hcase. injection Hcase as _ <-.
      apply rounds_of_swept. }
  assert (s1 = expireInvites s t_sweep) as Hs1
    by (unfold getCase in Hcase; injection Hcase as _ <-; reflexivity).
  destruct (assertParticipant userId caseItem) eqn:Hpart.
  2:{ left. unfold post_appeal, find_hearing_of_case.
      rewrite Hcase, Hpart. cbn [negb snd]. rewrite Hs1.
      apply rounds_of_swept. }
  destruct (getHearing s1 hearingId) as [hearing|] eqn:Hh.
  2:{ left. unfold post_appeal, find_hearing_of_case.
      rewrite Hcase, Hpart. cbn [negb]. rewrite Hh. cbn [snd]. rewrite Hs1.
      apply rounds_of_swept. }
  destruct (String.eqb_spec (h_case_id hearing) (c_id caseItem)) as [Hbel|Hbel].
  2:{ left. unfold post_appeal, find_hearing_of_case.
      rewrite Hcase, Hpart. cbn [negb]. rewrite Hh.
      apply String.eqb_neq in Hbel. rewrite Hbel. cbn [negb snd].
      rewrite Hs1. apply rounds_of_swept. }
  destruct (appealSchema reqBody) as [data|] eqn:Hbody.
  2:{ left. unfold post_appeal, find_hearing_of_case.
      rewrite Hcase, Hpart. cbn [negb]. rewrite Hh, Hbel, String.eqb_refl.
      cbn [negb]. rewrite Hbody. cbn [snd]. rewrite Hs1.
      apply rounds_of_swept. }
  destruct (post_appeal_effect s caseId' hearingId userId reqBody t_sweep hid
              t_created t_stamp eid caseItem hearing data s1
              Hcase Hpart Hh Hbel Hbody) as (_ & Hhs & _).
  rewrite (rounds_of_added _ _ caseId _ _ _ _ Hhs).
  destruct (String.eqb_spec caseId' caseId) as [->|Hne].
  - right. split; [|reflexivity].
    pose proof (getHearing_listed s1 hearingId hearing Hh) as H.
    unfold getCase in Hcase. injection Hcase as Hfind _.
    rewrite Hbel, (find_has_id _ _ _ Hfind), Hs1, rounds_of_swept in H.
    exact H.
  - left. apply app_nil_r.
Qed.

Lemma acceptCase_hearings (s : Store) (caseId userId : string) (now : Z) :
  hearings (cache (snd (acceptCase s caseId userId now))) = hearings (cache s).
Proof.
  unfold acceptCase.
  destruct (find (has_id caseId) (cases (cache s))) as [found|];
    [|reflexivity].
  destruct (acceptance_is found acc_rejected); [reflexivity|].
  destruct (acceptance_is found acc_accepted); [reflexivity|].
  destruct (expiry_passed found now); [reflexivity|].
  destruct (negb (opt_string_eqb (c_invited_user_id found) (Some userId)));
    reflexivity.
Qed.

Lemma rejectCase_hearings (s : Store) (caseId userId : string) :
  hearings (cache (snd (rejectCase s caseId userId))) = hearings (cache s).
Proof.
  unfold rejectCase.
  destruct (find (has_id caseId) (cases (cache s))) as [found|];
    [|reflexivity].
  destruct (negb (opt_string_eqb (c_invited_user_id found) (Some userId)));
    reflexivity.
Qed.

Lemma find_hearing_of_case_store (s : Store) (caseId hearingId userId : string)
    (now : Z) :
  snd (find_hearing_of_case s caseId hearingId userId now)
  = expireInvites s now.
Proof.
  unfold find_hearing_of_case, getCase.
  destruct (find (has_id caseId) (cases (cache (expireInvites s now))))
    as [caseItem|]; [|reflexivity].
  destruct (negb (assertParticipant userId caseItem)); [reflexivity|].
  destruct (getHearing (expireInvites s now) hearingId) as [hearing|];
    [|reflexivity].
  destruct (negb (String.eqb (h_case_id hearing) (c_id caseItem)));
    reflexivity.
Qed.

Lemma post_cases_hearings (is_email : string -> bool) (s : Store)
    (userId : string) (reqBody : option json) (id : string) (now now' : Z) :
  hearings (cache (snd (post_cases is_email s userId reqBody id now now')))
  = hearings (cache s).
Proof.
  unfold post_cases.
  destruct (createCaseSchema is_email reqBody) as [data|]; [|reflexivity].
  destruct (truthy (cb_friend_email data)); [|reflexivity].
  destruct (findUserByEmail s _); reflexivity.
Qed.

(** The rounds of a case after one event: the same; or the event is a
    hearing request that names its round; or one more round, the one an
    omitted round resolves to; or one more round, one above the largest. *)
Lemma step_rounds (is_email : string -> bool) (s : Store) (ev : Event)
    (caseId : string) :
  rounds_of (step is_email s ev) caseId = rounds_of s caseId \/
  names_round caseId ev \/
  rounds_of (step is_email s ev) caseId
  = rounds_of s caseId ++ [resolve_round None (listHearings s caseId)] \/
  (rounds_of s caseId <> [] /\
   rounds_of (step is_email s ev) caseId
   = rounds_of s caseId ++ [add1 (Math_max (rounds_of s caseId))]).
Proof.
  destruct ev; cbn [step].
  - left. apply rounds_of_hearings, post_cases_hearings.
  - left. apply rounds_of_swept.
  - left. apply rounds_of_swept.
  - destruct (post_hearings_rounds s caseId0 userId reqBody t_sweep hid
                t_created t_stamp eid caseId) as [H|[H|H]]; auto.
  - left. apply rounds_of_hearings. unfold post_accept.
    pose proof (acceptCase_hearings s caseId0 userId now) as H.
    destruct (acceptCase s caseId0 userId now) as [[e|c] s1]; exact H.
  - left. apply rounds_of_hearings. unfold post_reject.
    pose proof (rejectCase_hearings s caseId0 userId) as H.
    destruct (rejectCase s caseId0 userId) as [[e|c] s1]; exact H.
  - left. unfold judge_request.
    pose proof (find_hearing_of_case_store s caseId0 hearingId userId now)
      as H.
    destruct (find_hearing_of_case s caseId0 hearingId userId now)
      as [[r|[c h]] s1]; cbn [snd] in *; rewrite H; apply rounds_of_swept.
  - left. destruct outcome as [e|v]; [reflexivity|].
    unfold judge_settle, rounds_of, listHearings, saveVerdict.
    cbn [snd save cache set_cases set_hearings set_verdicts hearings].
    apply rounds_of_update_first.
  - left. unfold get_verdict.
    pose proof (find_hearing_of_case_store s caseId0 hearingId userId now)
      as H.
    destruct (find_hearing_of_case s caseId0 hearingId userId now)
      as [[r|[c h]] s1]; cbn [snd] in *;
      [|destruct (getVerdict s1 (h_id h))]; cbn [snd]; rewrite H;
      apply rounds_of_swept.
  - destruct (post_appeal_rounds s caseId0 hearingId userId reqBody t_sweep
                hid t_created t_stamp eid caseId) as [H|H]; auto.
  - left. apply rounds_of_hearings. unfold createUser.
    destruct (find _ (users (cache s))); reflexivity.
  - left. apply rounds_of_hearings. unfold addFriend.
    destruct (find (user_has_id userId) (users (cache s)));
      [|reflexivity].
    destruct (find (user_has_id friendId) (users (cache s))); reflexivity.
  - left. reflexivity.
Qed.

Lemma first_rounds_S (n : nat) :
  first_rounds (S n) = first_rounds n ++ [int (Z.of_nat (S n))].
Proof. unfold first_rounds. rewrite seq_S, map_app. reflexivity. Qed.

Lemma length_first_rounds (n : nat) : List.length (first_rounds n) = n.
Proof. unfold first_rounds. rewrite length_map, length_seq. reflexivity. Qed.

Lemma Math_max_first_rounds (n : nat) :
  Math_max (first_rounds (S n)) = int (Z.of_nat (S n)).
Proof.
  unfold Math_max. induction n as [|n IH].
  - reflexivity.
  - rewrite first_rounds_S, fold_left_app, IH. cbn [fold_left].
    rewrite Math_max2_int. f_equal. lia.
Qed.

(** The round after the rounds 1 to n, by either rule. *)
Lemma next_round (n : nat) :
  add1 (Math_max (first_rounds (S n))) = int (Z.of_nat (S (S n))).
Proof. rewrite Math_max_first_rounds, add1_int. f_equal. lia. Qed.

Lemma step_counts_up (is_email : string -> bool) (s : Store) (ev : Event)
    (caseId : string) (n : nat) :
  rounds_of s caseId = first_rounds n ->
  ~ names_round caseId ev ->
  exists m, rounds_of (step is_email s ev) caseId = first_rounds m.
Proof.
  intros Hinv Hev.
  destruct (step_rounds is_email s ev caseId) as [H|[H|[H|[Hne H]]]].
  - exists n. rewrite H. exact Hinv.
  - contradiction.
  - exists (S n). rewrite H, first_rounds_S, Hinv. f_equal. f_equal.
    unfold rounds_of in Hinv. destruct n as [|n].
    + destruct (listHearings s caseId); [reflexivity | discriminate].
    + destruct (listHearings s caseId) as [|h hs] eqn:E; [discriminate|].
      cbn [resolve_round]. rewrite Hinv. apply next_round.
  - exists (S n). rewrite H, first_rounds_S, Hinv. f_equal. f_equal.
    destruct n as [|n]; [rewrite Hinv in Hne; contradiction|].
    apply next_round.
Qed.

(** C5.  A case that has no hearing yet, and a run of the server in which no
    hearing request for the case names its round: after the run the rounds of
    the case's hearings, oldest first, are 1, 2, ..., n.  An omitted round
    resolves to 1 when the case has no hearing and to one above the largest
    round otherwise. *)
Theorem omitted_rounds_count_up (is_email : string -> bool) (caseId : string)
    (evs : list Event) (s : Store) :
  listHearings s caseId = [] ->
  (forall ev, In ev evs -> ~ names_round caseId ev) ->
  rounds_of (run is_email s evs) caseId
  = first_rounds (List.length (listHearings (run is_email s evs) caseId)) /\
  resolve_round None [] = int 1 /\
  (forall h hs,
     resolve_round None (h :: hs) = add1 (Math_max (map h_round (h :: hs)))).
Proof.
  intros Hempty Hevs. split; [|split; reflexivity].
  assert (exists n, rounds_of (run is_email s evs) caseId = first_rounds n)
    as [n Hn].
  { assert (exists n, rounds_of s caseId = first_rounds n) as Hinv.
    { exists 0%nat. unfold rounds_of. rewrite Hempty. reflexivity. }
    clear Hempty. revert s Hinv.
    induction evs as [|ev evs IH]; intros s [n Hinv].
    - exists n. exact Hinv.
    - cbn [run fold_left]. apply IH.
      + intros e He. apply Hevs. right. exact He.
      + apply (step_counts_up is_email s ev caseId n Hinv).
        apply Hevs. left. reflexivity. }
  rewrite Hn. f_equal.
  pose proof (f_equal (@List.length number) Hn) as Hlen.
  unfold rounds_of in Hlen. rewrite length_map, length_first_rounds in Hlen.
  symmetry. exact Hlen.
Qed.

Lemma omitted_rounds_count_up_example :
  rounds_of (run no_email empty_store chores_run) "case-1" = [int 1; int 2].
Proof.
  destruct (omitted_rounds_count_up no_email "case-1" chores_run empty_store)
    as (H & _).
  - reflexivity.
  - intros ev Hin. simpl in Hin.
    destruct Hin as [<-|[<-|[<-|[<-|[<-|[]]]]]]; simpl; try tauto.
    intros (_ & data & r & H1 & H2). vm_compute in H1.
    injection H1 as <-. discriminate.
  - exact H.
Defined.

(** The same run, step by step: the case ends appealed with two hearings,
    the first judged with its verdict, the second submitted. *)
Lemma chores_run_outcome :
  let s := run no_email empty_store chores_run in
  map h_status (listHearings s "case-1") = [judged; submitted] /\
  option_map c_status (find (has_id "case-1") (cases (cache s)))
  = Some appealed /\
  getVerdict s "hearing-1" = Some (example_verdict 60 40 21) /\
  getVerdict s "hearing-2" = None /\
  map st_narrative (getStatements s "hearing-1") = ["I did dishes"; "I cooked"] /\
  getStatements s "hearing-2" = [].
Proof. vm_compute. repeat split; reflexivity. Qed.

(** Word counts on a few strings: the empty string, leading white space, a
    run of two spaces, and an ideographic space. *)
Lemma split_ws_length_examples :
  split_ws_length "" = 1 /\
  split_ws_length " a" = 2 /\
  split_ws_length "a  b" = 2 /\
  split_ws_length "I did dishes" = 3 /\
  split_ws_length "主动　确认" = 2.
Proof. repeat split; reflexivity. Qed.

(** The judge route with the mock service on the first hearing of the chores
    case: the verdict is stored, the hearing judged, the case decided. *)
Lemma post_judge_mock_example :
  let s := store_with_hearing
             (example_case pending_judgement acc_accepted None)
             (example_hearing submitted) in
  let service := fun input => inr (defaultVerdict exact input 21) in
  let r := post_judge service
             (saveStatements s "hearing-1" (ji_statements chores_input))
             "case-1" "hearing-1" "alice" 20 in
  status (fst r) = 200 /\
  option_map (fun v => v_score v) (getVerdict (snd r) "hearing-1")
  = Some {| partyA_pct := int 60; partyB_pct := int 40;
            confidence := Fin (3 # 10) |} /\
  option_map h_status (getHearing (snd r) "hearing-1") = Some judged /\
  option_map c_status (find (has_id "case-1") (cases (cache (snd r))))
  = Some decided.
Proof. vm_compute. repeat split; reflexivity. Qed.

(** * Further properties of the code *)

(** ** Answering an invitation *)

Lemma opt_string_eqb_eq (a b : option string) :
  opt_string_eqb a b = true <-> a = b.
Proof.
  destruct a as [x|], b as [y|]; simpl; split; intros H;
    try discriminate; try reflexivity.
  - apply String.eqb_eq in H. subst. reflexivity.
  - injection H as ->. apply String.eqb_refl.
Qed.

Lemma find_map {T : Type} (p : T -> bool) (g : T -> T) (l : list T) :
  (forall x, p (g x) = p x) ->
  find p (map g l) = option_map g (find p l).
Proof.
  intros Hp. induction l as [|x l IH]; simpl; [reflexivity|].
  rewrite Hp. destruct (p x); [reflexivity | exact IH].
Qed.

Lemma has_id_sweep_one (id : string) (now : Z) (c : Case) :
  has_id id (sweep_one now c) = has_id id c.
Proof. unfold sweep_one. destruct (should_expire now c); reflexivity. Qed.

Lemma expireInvites_cases (s : Store) (now : Z) :
  cases (cache (expireInvites s now)) = map (sweep_one now) (cases (cache s)).
Proof.
  unfold expireInvites.
  destruct (existsb (should_expire now) (cases (cache s))) eqn:E.
  - reflexivity.
  - assert (forall x, In x (cases (cache s)) -> should_expire now x = false)
      as Hall.
    { intros x Hx. destruct (should_expire now x) eqn:Ex; [|reflexivity].
      assert (existsb (should_expire now) (cases (cache s)) = true) as F
        by (apply existsb_exists; exists x; split; assumption).
      congruence. }
    induction (cases (cache s)) as [|x l IH]; [reflexivity|].
    cbn [map]. unfold sweep_one at 1. rewrite (Hall x) by (left; reflexivity).
    rewrite <- IH.
    + reflexivity.
    + simpl in E. apply Bool.orb_false_iff in E. tauto.
    + intros y Hy. apply Hall. right. exact Hy.
Qed.

Lemma getCase_swept (s : Store) (caseId : string) (now : Z) :
  getCase s caseId now
  = (option_map (sweep_one now) (find (has_id caseId) (cases (cache s))),
     expireInvites s now).
Proof.
  unfold getCase. rewrite expireInvites_cases, find_map.
  - reflexivity.
  - intros x. apply has_id_sweep_one.
Qed.

(** X1.  A pending invitation whose expiry has not passed, the very instant
    of the expiry included, and the invited user: [acceptCase] returns the
    case accepted, with status draft and the user among its participants,
    each participant once and none removed; its id, topic, context,
    parties, creation time, owner, invited user and expiry are what they
    were, and the case is saved. *)
Theorem acceptCase_by_invited_user (s : Store) (caseId userId : string)
    (now e : Z) (found : Case) :
  find (has_id caseId) (cases (cache s)) = Some found ->
  c_acceptance found = Some acc_pending ->
  c_expires_at found = Some e ->
  now <= e ->
  c_invited_user_id found = Some userId ->
  exists c l,
    fst (acceptCase s caseId userId now) = inr c /\
    find (has_id caseId) (cases (cache (snd (acceptCase s caseId userId now))))
    = Some c /\
    file (snd (acceptCase s caseId userId now))
    = cache (snd (acceptCase s caseId userId now)) /\
    c_acceptance c = Some acc_accepted /\
    c_status c = draft /\
    c_participant_ids c = Some l /\
    NoDup l /\
    (forall x, In x l <-> In x (participants_of found) \/ x = userId) /\
    c_id c = c_id found /\
    c_topic c = c_topic found /\
    c_relationship_context c = c_relationship_context found /\
    c_parties c = c_parties found /\
    c_created_at c = c_created_at found /\
    c_owner_id c = c_owner_id found /\
    c_invited_user_id c = c_invited_user_id found /\
    c_expires_at c = c_expires_at found.
Proof.
  intros Hf Hacc He Hnow Hinv. unfold acceptCase. rewrite Hf.
  unfold acceptance_is, expiry_passed. rewrite Hacc, He, Hinv.
  assert ((e <? now) = false) as -> by (apply Z.ltb_ge; exact Hnow).
  cbn [opt_string_eqb]. rewrite String.eqb_refl. cbn [negb fst snd].
  eexists. eexists. split; [reflexivity|]. split.
  { cbn [save cache set_cases cases].
    rewrite find_update_first by reflexivity. rewrite Hf. reflexivity. }
  split; [reflexivity|]. split; [reflexivity|]. split; [reflexivity|].
  split; [reflexivity|]. split; [apply dedup_NoDup|]. split.
  { intros x. unfold Array_from_Set. rewrite dedup_In, in_app_iff.
    unfold participants_of. simpl. split.
    - intros [[H|[H|[]]] _]; auto.
    - intros [H|H]; split; auto. }
  repeat split; first [reflexivity | simpl; assumption].
Qed.

Lemma acceptCase_by_invited_user_example :
  exists c,
    fst (acceptCase (store_with pending_case) "case-1" "bob" 100) = inr c /\
    c_acceptance c = Some acc_accepted /\
    c_status c = draft /\
    c_participant_ids c = Some ["alice"; "bob"].
Proof.
  destruct (acceptCase_by_invited_user (store_with pending_case) "case-1"
              "bob" 100 100 pending_case eq_refl eq_refl eq_refl)
    as (c & l & H1 & _ & _ & H4 & H5 & _).
  - discriminate.
  - reflexivity.
  - exists c. split; [exact H1|]. split; [exact H4|]. split; [exact H5|].
    simpl in H1. injection H1 as <-. reflexivity.
Defined.

(** X2.  Nobody but the invited user can answer a pending invitation that
    has not expired: for any other user, the owner included, [acceptCase]
    and [rejectCase] throw [forbidden], the routes answer 403, and the store
    is left as it was. *)
Theorem only_invited_user_answers (s : Store) (caseId userId : string)
    (now : Z) (found : Case) :
  find (has_id caseId) (cases (cache s)) = Some found ->
  c_acceptance found = Some acc_pending ->
  expiry_passed found now = false ->
  c_invited_user_id found <> Some userId ->
  acceptCase s caseId userId now = (inl forbidden, s) /\
  rejectCase s caseId userId = (inl forbidden, s) /\
  post_accept s caseId userId now = (respond 403 (BError "forbidden"), s) /\
  post_reject s caseId userId = (respond 403 (BError "forbidden"), s).
Proof.
  intros Hf Hacc He Hinv.
  assert (opt_string_eqb (c_invited_user_id found) (Some userId) = false) as Hn.
  { destruct (opt_string_eqb (c_invited_user_id found) (Some userId)) eqn:E;
      [|reflexivity].
    apply opt_string_eqb_eq in E. contradiction. }
  unfold post_accept, post_reject, acceptCase, rejectCase. rewrite Hf.
  unfold acceptance_is. rewrite Hacc, He, Hn. repeat split; reflexivity.
Qed.

Lemma only_invited_user_answers_example :
  acceptCase (store_with pending_case) "case-1" "alice" 50
  = (inl forbidden, store_with pending_case) /\
  rejectCase (store_with pending_case) "case-1" "alice"
  = (inl forbidden, store_with pending_case).
Proof.
  destruct (only_invited_user_answers (store_with pending_case) "case-1"
              "alice" 50 pending_case eq_refl eq_refl eq_refl)
    as (H1 & H2 & _).
  - discriminate.
  - split; [exact H1 | exact H2].
Defined.

(** X3.  Once the invited user has rejected a case, whatever its state was
    (pending, accepted or expired, the expiry passed or not), the rejection
    stands: the case is rejected and closed; [acceptCase] throws
    [case_rejected] to every user at every time and changes nothing; and a
    hearing request on the case is answered 400 [case_not_accepted] to a
    participant and 403 to anyone else, and adds no hearing. *)
Theorem rejectCase_is_final (s : Store) (caseId userId : string)
    (found : Case) :
  find (has_id caseId) (cases (cache s)) = Some found ->
  c_invited_user_id found = Some userId ->
  let s1 := snd (rejectCase s caseId userId) in
  exists c,
    fst (rejectCase s caseId userId) = inr c /\
    find (has_id caseId) (cases (cache s1)) = Some c /\
    c_acceptance c = Some acc_rejected /\
    c_status c = closed /\
    c_participant_ids c = c_participant_ids found /\
    (forall u t, acceptCase s1 caseId u t = (inl case_rejected, s1)) /\
    (forall u reqBody t hid t1 t2 eid,
       fst (post_hearings s1 caseId u reqBody t hid t1 t2 eid)
       = (if assertParticipant u found
          then respond 400 (BError "case_not_accepted")
          else respond 403 (BError "forbidden")) /\
       hearings (cache (snd (post_hearings s1 caseId u reqBody t hid t1 t2
                               eid)))
       = hearings (cache s)).
Proof.
  intros Hf Hinv. cbv zeta. unfold rejectCase. rewrite Hf, Hinv.
  cbn [opt_string_eqb]. rewrite String.eqb_refl. cbn [negb fst snd].
  set (c := set_status (set_acceptance found acc_rejected) closed).
  assert (find (has_id caseId)
            (update_first (has_id caseId)
               (fun c0 => set_status (set_acceptance c0 acc_rejected) closed)
               (cases (cache s))) = Some c) as Hc.
  { rewrite find_update_first by reflexivity. rewrite Hf. reflexivity. }
  exists c. split; [reflexivity|]. split; [exact Hc|].
  split; [reflexivity|]. split; [reflexivity|]. split; [reflexivity|]. split.
  - intros u t. unfold acceptCase. cbn [save cache set_cases cases].
    rewrite Hc. reflexivity.
  - intros u reqBody t hid t1 t2 eid. unfold post_hearings.
    rewrite getCase_swept. cbn [save cache set_cases cases]. rewrite Hc.
    cbn [option_map].
    assert (sweep_one t c = c) as -> by reflexivity.
    unfold c, assertParticipant.
    cbn [c_acceptance c_participant_ids set_status set_acceptance].
    destruct (match c_participant_ids found with
              | Some l => includes l u
              | None => false
              end); cbn [negb fst snd];
      (split; [reflexivity|]);
      rewrite (proj1 (expireInvites_keeps _ t)); reflexivity.
Qed.

Lemma rejectCase_is_final_example :
  acceptCase (snd (rejectCase (store_with pending_case) "case-1" "bob"))
    "case-1" "bob" 50
  = (inl case_rejected, store_with rejected_case) /\
  fst (post_hearings (snd (rejectCase (store_with pending_case) "case-1"
                             "bob"))
         "case-1" "alice" chores_hearing_body 60 "hearing-1" 61 62 no_ids)
  = respond 400 (BError "case_not_accepted").
Proof.
  destruct (rejectCase_is_final (store_with pending_case) "case-1" "bob"
              pending_case eq_refl eq_refl)
    as (c & _ & _ & _ & _ & _ & Hacc & Hh).
  split.
  - exact (Hacc "bob" 50).
  - exact (proj1 (Hh "alice" chores_hearing_body 60 "hearing-1" 61 62 no_ids)).
Defined.

(** ** The expiry sweep *)

Lemma sweep_nothing_due (now : Z) (l : list Case) :
  existsb (should_expire now) l = false -> map (sweep_one now) l = l.
Proof.
  induction l as [|x l IH]; [reflexivity|]. cbn [existsb map].
  intros E. apply Bool.orb_false_iff in E. destruct E as [Ex El].
  unfold sweep_one at 1. rewrite Ex, (IH El). reflexivity.
Qed.

Lemma should_expire_later (t t' : Z) (c : Case) :
  t <= t' -> should_expire t c = true -> should_expire t' c = true.
Proof.
  unfold should_expire, expiry_passed. intros Ht H.
  apply Bool.andb_true_iff in H. destruct H as [Hp He]. rewrite Hp.
  destruct (c_expires_at c) as [e|]; [|discriminate].
  apply Z.ltb_lt in He. apply Z.ltb_lt. lia.
Qed.

Lemma should_expire_swept (t t' : Z) (c : Case) :
  should_expire t c = true -> should_expire t' (sweep_one t c) = false.
Proof.
  intros H. unfold sweep_one. rewrite H. reflexivity.
Qed.

Lemma sweep_one_twice (t t' : Z) (c : Case) :
  t <= t' -> sweep_one t' (sweep_one t c) = sweep_one t' c.
Proof.
  intros Ht. destruct (should_expire t c) eqn:E.
  - unfold sweep_one at 1. rewrite (should_expire_swept t t' c E).
    unfold sweep_one. rewrite E, (should_expire_later t t' c Ht E).
    reflexivity.
  - unfold sweep_one at 2. rewrite E. reflexivity.
Qed.

Lemma sweep_twice (t t' : Z) (l : list Case) :
  t <= t' -> map (sweep_one t') (map (sweep_one t) l) = map (sweep_one t') l.
Proof.
  intros Ht. rewrite map_map. apply map_ext. intros c.
  apply sweep_one_twice. exact Ht.
Qed.

Lemma existsb_due_later (t t' : Z) (l : list Case) :
  t <= t' -> existsb (should_expire t) l = true ->
  existsb (should_expire t') l = true.
Proof.
  intros Ht H. apply existsb_exists in H. destruct H as [c [Hin Hc]].
  apply existsb_exists. exists c. split; [exact Hin|].
  exact (should_expire_later t t' c Ht Hc).
Qed.

(** X4.  Sweeps compose: as the clock does not go back, a sweep followed by a
    later sweep leaves the store, the file included, as the later sweep
    alone would; in particular a sweep repeated at the same instant changes
    nothing. *)
Theorem expireInvites_twice (s : Store) (t t' : Z) :
  t <= t' ->
  expireInvites (expireInvites s t) t' = expireInvites s t'.
Proof.
  intros Ht.
  destruct (existsb (should_expire t) (cases (cache s))) eqn:E1.
  - pose proof (existsb_due_later t t' _ Ht E1) as E.
    assert (expireInvites s t
            = save (set_cases (cache s)
                      (map (sweep_one t) (cases (cache s))))) as ->.
    { unfold expireInvites. rewrite E1. reflexivity. }
    assert (expireInvites s t'
            = save (set_cases (cache s)
                      (map (sweep_one t') (cases (cache s))))) as ->.
    { unfold expireInvites. rewrite E. reflexivity. }
    unfold expireInvites at 1. cbn [save cache set_cases cases].
    change (fun c => if should_expire t' c then mark_expired c else c)
      with (sweep_one t').
    destruct (existsb (should_expire t')
                (map (sweep_one t) (cases (cache s)))) eqn:E2.
    + rewrite (sweep_twice t t' _ Ht). reflexivity.
    + apply sweep_nothing_due in E2. rewrite (sweep_twice t t' _ Ht) in E2.
      rewrite E2. reflexivity.
  - assert (expireInvites s t = s) as ->
      by (unfold expireInvites; rewrite E1; reflexivity).
    reflexivity.
Qed.

Lemma expireInvites_twice_example :
  expireInvites (expireInvites (store_with pending_case) 50) 150
  = store_with (example_case expired acc_expired (Some 100)).
Proof.
  rewrite (expireInvites_twice (store_with pending_case) 50 150).
  - reflexivity.
  - lia.
Defined.

Lemma should_expire_sweep_one (now : Z) (c : Case) :
  should_expire now (sweep_one now c) = false.
Proof.
  destruct (should_expire now c) eqn:E.
  - exact (should_expire_swept now now c E).
  - unfold sweep_one. rewrite E. exact E.
Qed.

(** X5.  What a read shows.  After the sweep no case of the store is pending
    with its expiry passed; the store holds as many cases as before, each
    either untouched or, when it was pending and due, marked expired in
    acceptance and status with its other fields as they were.  So the case
    [getCase] returns has the requested id and is not a stale invitation,
    and [listCasesByUser] returns exactly the swept cases the user takes
    part in. *)
Theorem reads_show_no_stale_invitation (s : Store) (now : Z) :
  List.length (cases (cache (expireInvites s now)))
  = List.length (cases (cache s)) /\
  (forall c, In c (cases (cache (expireInvites s now))) ->
     should_expire now c = false /\
     exists c0, In c0 (cases (cache s)) /\
       (c = c0 \/
        (should_expire now c0 = true /\
         c = set_status (set_acceptance c0 acc_expired) expired))) /\
  (forall caseId c, fst (getCase s caseId now) = Some c ->
     c_id c = caseId /\ should_expire now c = false) /\
  (forall userId c, In c (fst (listCasesByUser s userId now)) <->
     In c (cases (cache (expireInvites s now))) /\
     assertParticipant userId c = true).
Proof.
  split; [|split; [|split]].
  - rewrite expireInvites_cases. apply length_map.
  - intros c Hin. rewrite expireInvites_cases in Hin.
    apply in_map_iff in Hin. destruct Hin as [c0 [<- Hin]]. split.
    + apply should_expire_sweep_one.
    + exists c0. split; [exact Hin|]. unfold sweep_one.
      destruct (should_expire now c0); [right; split; reflexivity | left;
        reflexivity].
  - intros caseId c H. rewrite getCase_swept in H. cbn [fst] in H.
    destruct (find (has_id caseId) (cases (cache s))) as [c0|] eqn:E;
      [|discriminate].
    injection H as <-. split.
    + pose proof (find_has_id _ _ _ E) as Hid. unfold sweep_one.
      destruct (should_expire now c0); exact Hid.
    + apply should_expire_sweep_one.
  - intros userId c. unfold listCasesByUser. cbn [fst].
    rewrite filter_In. reflexivity.
Qed.

(** ** Creating a case and looking it up *)

(** X6.  A case created under an id no case has yet can be read back:
    [getCase] returns the case [createCase] returned, swept like any other,
    and the cases under other ids are read as before.  Its owner is a
    participant.  Without an invited user the case is a draft, accepted,
    with no expiry, and no sweep ever changes it. *)
Theorem createCase_then_getCase (s : Store) (input : CreateCaseInput)
    (id : string) (now now' : Z) :
  find (has_id id) (cases (cache s)) = None ->
  let c := fst (createCase s input id now now') in
  let s1 := snd (createCase s input id now now') in
  (forall t, fst (getCase s1 id t) = Some (sweep_one t c)) /\
  (forall other t, other <> id ->
     fst (getCase s1 other t) = fst (getCase s other t)) /\
  assertParticipant (ownerId input) c = true /\
  (truthy (invitedUserId input) = false ->
     c_status c = draft /\
     c_acceptance c = Some acc_accepted /\
     c_expires_at c = None /\
     forall t, sweep_one t c = c).
Proof.
  intros Hfresh. cbv zeta.
  assert (forall k c0, find (has_id k) [c0]
                       = if String.eqb (c_id c0) k then Some c0 else None)
    as Hone by reflexivity.
  split; [|split; [|split]].
  - intros t. rewrite getCase_swept. cbn [fst snd createCase save cache
      set_cases cases]. rewrite find_app, Hfresh, Hone. cbn [c_id].
    rewrite String.eqb_refl. reflexivity.
  - intros other t Hne. rewrite !getCase_swept.
    cbn [fst snd createCase save cache set_cases cases].
    rewrite find_app.
    destruct (find (has_id other) (cases (cache s))); [reflexivity|].
    rewrite Hone. cbn [c_id].
    assert (String.eqb id other = false) as ->
      by (apply String.eqb_neq; congruence).
    reflexivity.
  - unfold assertParticipant. cbn [fst createCase c_participant_ids].
    destruct (participantIds input) as [[|p ps]|];
      unfold Array_from_Set; simpl; rewrite String.eqb_refl; reflexivity.
  - intros Hno. cbn [fst createCase c_status c_acceptance c_expires_at].
    rewrite Hno. split; [reflexivity|]. split; [reflexivity|].
    split; [reflexivity|]. intros t. unfold sweep_one, should_expire.
    cbn [acceptance_is c_acceptance andb]. reflexivity.
Qed.

Lemma createCase_then_getCase_example :
  fst (getCase (snd (createCase empty_store solo_input "case-1" 0 0))
         "case-1" 1000000000)
  = Some (fst (createCase empty_store solo_input "case-1" 0 0)).
Proof.
  destruct (createCase_then_getCase empty_store solo_input "case-1" 0 0
              eq_refl) as (H1 & _ & _ & H4).
  rewrite (H1 1000000000).
  destruct (H4 eq_refl) as (_ & _ & _ & H). rewrite H. reflexivity.
Defined.

(** ** Submitting a hearing *)

Lemma stamped_statements (hearingId : string) (now : Z)
    (l : list StatementInput) :
  Forall (fun x => st_hearing_id x = hearingId)
    (map (stamp_statement hearingId now) l).
Proof. induction l; constructor; [reflexivity | assumption]. Qed.

Lemma stamped_evidence (hearingId : string) (now : Z) (eid : nat -> string)
    (l : list EvidenceInput) (i : nat) :
  Forall (fun x => e_hearing_id x = hearingId)
    (stamp_evidence hearingId now eid i l).
Proof.
  revert i. induction l as [|x l IH]; intros i; constructor;
    [reflexivity | apply IH].
Qed.

(** The two ways a hearing request ends: refused, with no effect but the
    sweep, or served. *)
Lemma post_hearings_outcome (s : Store) (caseId userId : string)
    (reqBody : option json) (t_sweep : Z) (hid : string)
    (t_created t_stamp : Z) (eid : nat -> string) :
  let r := post_hearings s caseId userId reqBody t_sweep hid t_created
             t_stamp eid in
  (In (status (fst r)) [404; 403; 400] /\ snd r = expireInvites s t_sweep) \/
  (exists caseItem data,
     fst (getCase s caseId t_sweep) = Some caseItem /\
     assertParticipant userId caseItem = true /\
     (c_acceptance caseItem = Some acc_accepted \/
      c_acceptance caseItem = None) /\
     hearingSchema reqBody = Some data /\
     status (fst r) = 201).
Proof.
  cbv zeta. unfold post_hearings, getCase. cbn [fst].
  destruct (find (has_id caseId) (cases (cache (expireInvites s t_sweep))))
    as [caseItem|]; [|left; simpl; auto].
  destruct (assertParticipant userId caseItem) eqn:Hp; cbn [negb];
    [|left; simpl; auto].
  destruct (hearingSchema reqBody) as [data|] eqn:Hb.
  - destruct (c_acceptance caseItem) as [[| | |]|] eqn:Ha;
      try (left; simpl; auto; fail);
      right; exists caseItem, data; auto.
  - left. destruct (c_acceptance caseItem) as [[| | |]|]; simpl; auto.
Qed.

(** X7.  A hearing request by a participant of an accepted case, with a body
    the schema accepts, is answered 201 with a new submitted hearing of the
    case.  The hearing is the last of the case's hearings; its round is the
    round the body names, taken as it is whatever rounds the case already
    has, or else, when the rounds of the case are safe integers, 1 for a
    first hearing and one above the largest round otherwise; the statements
    and the evidence the store then returns for it are those of the body,
    stamped; the case is pending judgement; no verdict changes. *)
Theorem post_hearings_submits (s : Store) (caseId userId : string)
    (reqBody : option json) (t_sweep : Z) (hid : string)
    (t_created t_stamp : Z) (eid : nat -> string)
    (caseItem : Case) (data : HearingBody) :
  fst (getCase s caseId t_sweep) = Some caseItem ->
  assertParticipant userId caseItem = true ->
  c_acceptance caseItem = Some acc_accepted \/ c_acceptance caseItem = None ->
  hearingSchema reqBody = Some data ->
  let r := post_hearings s caseId userId reqBody t_sweep hid t_created
             t_stamp eid in
  exists hearing,
    fst r = respond 201 (BHearing hearing) /\
    h_id hearing = hid /\
    h_case_id hearing = caseId /\
    h_status hearing = submitted /\
    h_created_at hearing = t_created /\
    (forall round, hb_round data = Some round -> h_round hearing = round) /\
    (hb_round data = None ->
     forall rs, rounds_of s caseId = map int rs ->
                Forall safe_integer rs ->
                h_round hearing = int (next_after rs)) /\
    listHearings (snd r) caseId = listHearings s caseId ++ [hearing] /\
    getStatements (snd r) hid
    = map (stamp_statement hid t_stamp) (hb_statements data) /\
    getEvidence (snd r) hid
    = stamp_evidence hid t_stamp eid 0 (evidence_of data) /\
    find (has_id caseId) (cases (cache (snd r)))
    = Some (set_status caseItem pending_judgement) /\
    verdicts (cache (snd r)) = verdicts (cache s).
Proof.
  intros Hcase Hpart Hacc Hbody. cbv zeta.
  unfold getCase in Hcase. cbn [fst] in Hcase.
  pose proof (find_has_id _ _ _ Hcase) as Hid.
  destruct (expireInvites_keeps s t_sweep) as (Kh & Kv & _ & _).
  unfold post_hearings, getCase. rewrite Hcase, Hpart. cbn [negb].
  assert (match c_acceptance caseItem with
          | Some acc_accepted | None => false
          | Some _ => true
          end = false) as ->
    by (destruct Hacc as [-> | ->]; reflexivity).
  rewrite Hbody, Hid. unfold createHearing. cbn [fst snd h_id].
  eexists. split; [reflexivity|].
  cbn [h_id h_case_id h_status h_created_at h_round].
  split; [reflexivity|]. split; [reflexivity|]. split; [reflexivity|].
  split; [reflexivity|]. split.
  { intros round ->. reflexivity. }
  split.
  { intros -> rs Hrs _. rewrite <- (resolve_round_int _ rs Hrs).
    unfold listHearings. rewrite Kh. reflexivity. }
  split.
  { unfold listHearings. cbn [saveEvidence saveStatements save cache
      set_evidence set_statements set_cases set_hearings hearings].
    rewrite Kh, filter_app. cbn [filter h_case_id].
    rewrite String.eqb_refl. reflexivity. }
  split.
  { unfold getStatements. cbn [saveEvidence saveStatements save cache
      set_evidence set_statements statements].
    change (fun x => String.eqb (st_hearing_id x) hid)
      with (keyed st_hearing_id hid).
    change (fun x => negb (String.eqb (st_hearing_id x) hid))
      with (not_keyed st_hearing_id hid).
    rewrite filter_app, filter_keyed_not_keyed.
    rewrite (filter_keyed_all _ _ _ (stamped_statements hid t_stamp _)).
    reflexivity. }
  split.
  { unfold getEvidence. cbn [saveEvidence saveStatements save cache
      set_evidence set_statements evidence].
    change (fun x => String.eqb (e_hearing_id x) hid)
      with (keyed e_hearing_id hid).
    change (fun x => negb (String.eqb (e_hearing_id x) hid))
      with (not_keyed e_hearing_id hid).
    rewrite filter_app, filter_keyed_not_keyed.
    rewrite (filter_keyed_all _ _ _ (stamped_evidence hid t_stamp eid _ 0)).
    reflexivity. }
  split.
  { cbn [saveEvidence saveStatements save cache set_evidence set_statements
      set_cases set_hearings cases].
    rewrite find_update_first by reflexivity. rewrite Hcase. reflexivity. }
  cbn [saveEvidence saveStatements save cache set_evidence set_statements
    set_cases set_hearings verdicts]. exact Kv.
Qed.

Lemma post_hearings_submits_example :
  exists hearing,
    fst (post_hearings judged_store "case-1" "bob" round_seven_body 30
           "hearing-7" 31 32 no_ids)
    = respond 201 (BHearing hearing) /\
    h_round hearing = Fin 7 /\
    map e_content_or_url
      (getEvidence
         (snd (post_hearings judged_store "case-1" "bob" round_seven_body 30
                 "hearing-7" 31 32 no_ids)) "hearing-7")
    = ["http://x"].
Proof.
  destruct (post_hearings_submits judged_store "case-1" "bob"
              round_seven_body 30 "hearing-7" 31 32 no_ids
              (example_case decided acc_accepted None)
              {| hb_round := Some (Fin 7);
                 hb_statements :=
                   [{| si_side := A; si_narrative := "again";
                       si_feelings := None; si_context := None;
                       si_requests := None |}];
                 hb_evidence :=
                   Some [{| ei_side := A; ei_type := ev_link;
                            ei_title := None;
                            ei_content_or_url := "http://x";
                            ei_notes := None |}] |}
              eq_refl eq_refl (or_introl eq_refl) eq_refl)
    as (h & H1 & _ & _ & _ & _ & H6 & _ & _ & _ & H10 & _).
  exists h. split; [exact H1|]. split; [exact (H6 _ eq_refl)|].
  rewrite H10. reflexivity.
Defined.

(** X8.  A hearing request that is not answered 201 is answered 404, 403 or
    400 and has no effect on the store but the sweep of its first read; and
    so has an appeal that is answered 404, 403 or 400. *)
Theorem refused_requests_leave_no_trace :
  (forall s caseId userId reqBody t_sweep hid t_created t_stamp eid,
     let r := post_hearings s caseId userId reqBody t_sweep hid t_created
                t_stamp eid in
     status (fst r) <> 201 ->
     In (status (fst r)) [404; 403; 400] /\ snd r = expireInvites s t_sweep) /\
  (forall s caseId hearingId userId reqBody t_sweep hid t_created t_stamp eid,
     let r := post_appeal s caseId hearingId userId reqBody t_sweep hid
                t_created t_stamp eid in
     status (fst r) <> 500 ->
     In (status (fst r)) [404; 403; 400] /\ snd r = expireInvites s t_sweep).
Proof.
  split.
  - intros s caseId userId reqBody t_sweep hid t_created t_stamp eid r Hr.
    destruct (post_hearings_outcome s caseId userId reqBody t_sweep hid
                t_created t_stamp eid) as [H|(c & d & _ & _ & _ & _ & H)].
    + exact H.
    + contradiction.
  - intros s caseId hearingId userId reqBody t_sweep hid t_created t_stamp
      eid r Hr. subst r. revert Hr. unfold post_appeal.
    pose proof (find_hearing_of_case_store s caseId hearingId userId t_sweep)
      as Hs.
    unfold find_hearing_of_case in *. unfold getCase in *.
    destruct (find (has_id caseId) (cases (cache (expireInvites s t_sweep))))
      as [caseItem|]; [|simpl; auto].
    destruct (negb (assertParticipant userId caseItem)); [simpl; auto|].
    destruct (getHearing (expireInvites s t_sweep) hearingId) as [h|];
      [|simpl; auto].
    destruct (negb (String.eqb (h_case_id h) (c_id caseItem)));
      [simpl; auto|].
    destruct (appealSchema reqBody) as [data|]; [|simpl; auto].
    cbn [fst status respond]. intros Hr. exfalso. apply Hr.
    destruct (createHearing _ _ _ _ _). reflexivity.
Qed.

Lemma z_items_refuses {T : Type} (schema : option json -> option T)
    (items : list json) (x : json) :
  In x items -> schema (Some x) = None -> z_items schema items = None.
Proof.
  intros Hin Hx. induction items as [|y l IH]; [contradiction|].
  cbn [z_items]. destruct Hin as [->|Hin].
  - rewrite Hx. reflexivity.
  - rewrite (IH Hin). destruct (schema (Some y)); reflexivity.
Qed.

Lemma hearingSchema_refuses (f : list (string * json)) :
  refused_hearing_body f -> hearingSchema (Some (JObj f)) = None.
Proof.
  intros H. unfold hearingSchema.
  destruct H as [H|H|items g H Hin Hg|items g H Hin Hg|q H Hq|q H Hq].
  - rewrite H. cbn [z_array_min1 z_array].
    destruct (z_optional z_positive_int (lookup "round" f)); reflexivity.
  - rewrite H. cbn [z_array_min1 z_array z_items].
    destruct (z_optional z_positive_int (lookup "round" f)); reflexivity.
  - assert (statementSchema (Some (JObj g)) = None) as Hs.
    { unfold statementSchema.
      assert (z_string_min1 (lookup "narrative" g) = None) as ->
        by (destruct Hg as [-> | ->]; reflexivity).
      destruct (z_side (lookup "side" g)); reflexivity. }
    rewrite H. unfold z_array_min1, z_array.
    rewrite (z_items_refuses statementSchema items (JObj g) Hin Hs).
    destruct (z_optional z_positive_int (lookup "round" f)); reflexivity.
  - assert (evidenceSchema (Some (JObj g)) = None) as Hs.
    { unfold evidenceSchema.
      assert (z_string_min1 (lookup "content_or_url" g) = None) as ->
        by (destruct Hg as [-> | ->]; reflexivity).
      destruct (z_side (lookup "side" g)); [|reflexivity].
      destruct (z_evidence_type (lookup "type" g)); [|reflexivity].
      destruct (z_optional z_string (lookup "title" g)); reflexivity. }
    rewrite H. unfold z_optional at 2. unfold z_array.
    rewrite (z_items_refuses evidenceSchema items (JObj g) Hin Hs).
    cbn [option_map].
    destruct (z_optional z_positive_int (lookup "round" f)); [|reflexivity].
    destruct (z_array_min1 statementSchema (lookup "statements" f));
      reflexivity.
  - rewrite H. unfold z_optional at 1. unfold z_positive_int.
    assert (Qle_bool q 0 = true) as -> by (apply Qle_bool_iff; exact Hq).
    rewrite Bool.andb_false_r. reflexivity.
  - rewrite H. unfold z_optional at 1. unfold z_positive_int, is_integer.
    assert (Qeq_bool (inject_Z (Qfloor q)) q = false) as ->.
    { destruct (Qeq_bool (inject_Z (Qfloor q)) q) eqn:E; [|reflexivity].
      apply Qeq_bool_iff in E. contradiction. }
    reflexivity.
Qed.

(** X9.  What the hearing route refuses as invalid.  A body without
    statements or with an empty list of them, with a statement that lacks a
    narrative or has an empty one, with a piece of evidence that lacks a
    content or has an empty one, or with a round that is zero, negative or
    not whole, does not pass the schema: whoever sends it and whatever the
    case, the request is not answered 201 and no hearing, statement or
    evidence is added. *)
Theorem invalid_hearing_body_refused (f : list (string * json)) (s : Store)
    (caseId userId : string) (t_sweep : Z) (hid : string)
    (t_created t_stamp : Z) (eid : nat -> string) :
  refused_hearing_body f ->
  let r := post_hearings s caseId userId (Some (JObj f)) t_sweep hid t_created
             t_stamp eid in
  hearingSchema (Some (JObj f)) = None /\
  In (status (fst r)) [404; 403; 400] /\
  snd r = expireInvites s t_sweep.
Proof.
  intros Hf r. pose proof (hearingSchema_refuses f Hf) as Hs.
  split; [exact Hs|].
  destruct (post_hearings_outcome s caseId userId (Some (JObj f)) t_sweep hid
              t_created t_stamp eid) as [H|(c & d & _ & _ & _ & Hd & _)].
  - exact H.
  - rewrite Hs in Hd. discriminate.
Qed.

Lemma invalid_hearing_body_refused_example :
  fst (post_hearings judged_store "case-1" "alice"
         (Some (JObj [("statements",
                       JArr [JObj [("side", JStr "A");
                                   ("narrative", JStr "")]])]))
         30 "hearing-2" 31 32 no_ids)
  = respond 400 BInvalid.
Proof.
  destruct (invalid_hearing_body_refused
              [("statements",
                JArr [JObj [("side", JStr "A"); ("narrative", JStr "")]])]
              judged_store "case-1" "alice" 30 "hearing-2" 31 32 no_ids)
    as (_ & _ & _).
  - apply (statement_without_narrative _
             [JObj [("side", JStr "A"); ("narrative", JStr "")]]
             [("side", JStr "A"); ("narrative", JStr "")]).
    + reflexivity.
    + left. reflexivity.
    + right. reflexivity.
  - reflexivity.
Defined.

(** ** Evidence and verdicts *)

(** X10.  Evidence is replaced like statements: after two saves for one
    hearing, each set stamped with the hearing's id, the store returns
    exactly the second set for that hearing, and the evidence of every other
    hearing is what it was. *)
Theorem saveEvidence_replaces (s : Store) (hearingId : string)
    (first second : list Evidence) :
  Forall (fun x => e_hearing_id x = hearingId) first ->
  Forall (fun x => e_hearing_id x = hearingId) second ->
  let s2 := saveEvidence (saveEvidence s hearingId first) hearingId second in
  getEvidence s2 hearingId = second /\
  forall other, other <> hearingId ->
    getEvidence s2 other = getEvidence s other.
Proof.
  intros H1 H2. unfold getEvidence, saveEvidence.
  cbn [save cache set_evidence evidence].
  change (fun x => String.eqb (e_hearing_id x) hearingId)
    with (keyed e_hearing_id hearingId).
  change (fun x => negb (String.eqb (e_hearing_id x) hearingId))
    with (not_keyed e_hearing_id hearingId).
  split.
  - rewrite !filter_app.
    rewrite !filter_keyed_not_keyed, (filter_keyed_all _ _ _ H2).
    reflexivity.
  - intros other Hne.
    change (fun x => String.eqb (e_hearing_id x) other)
      with (keyed e_hearing_id other).
    rewrite !filter_app.
    rewrite !(filter_keyed_other e_hearing_id hearingId other) by exact Hne.
    rewrite (filter_keyed_none _ _ _ _ Hne H1).
    rewrite (filter_keyed_none _ _ _ _ Hne H2).
    rewrite !app_nil_r. reflexivity.
Qed.

Lemma saveEvidence_replaces_example :
  getEvidence
    (saveEvidence
       (saveEvidence empty_store "hearing-1"
          [example_evidence "hearing-1" "e1" "photo";
           example_evidence "hearing-1" "e2" "receipt"])
       "hearing-1" [])
    "hearing-1"
  = [].
Proof.
  destruct (saveEvidence_replaces empty_store "hearing-1"
              [example_evidence "hearing-1" "e1" "photo";
               example_evidence "hearing-1" "e2" "receipt"] []) as [H _].
  - repeat constructor.
  - constructor.
  - exact H.
Defined.

(** X11.  A verdict saved for a hearing id the store does not know is kept
    and returned for that id, and neither a hearing nor a case changes. *)
Theorem saveVerdict_unknown_hearing (s : Store) (v : Verdict) :
  getHearing s (v_hearing_id v) = None ->
  getVerdict (saveVerdict s v) (v_hearing_id v) = Some v /\
  hearings (cache (saveVerdict s v)) = hearings (cache s) /\
  cases (cache (saveVerdict s v)) = cases (cache s).
Proof.
  unfold getHearing. intros Hh. unfold getVerdict, saveVerdict.
  cbn [save cache set_cases set_hearings set_verdicts verdicts hearings
       cases].
  rewrite Hh. split; [|split].
  - change (fun v0 => String.eqb (v_hearing_id v0) (v_hearing_id v))
      with (keyed v_hearing_id (v_hearing_id v)).
    change (fun v0 => negb (String.eqb (v_hearing_id v0) (v_hearing_id v)))
      with (not_keyed v_hearing_id (v_hearing_id v)).
    rewrite find_app, find_keyed_not_keyed. cbn [find].
    unfold keyed. rewrite String.eqb_refl. reflexivity.
  - clear - Hh. induction (hearings (cache s)) as [|h l IH]; [reflexivity|].
    cbn [find update_first] in *.
    destruct (hearing_has_id (v_hearing_id v) h); [discriminate|].
    rewrite (IH Hh). reflexivity.
  - reflexivity.
Qed.

Lemma saveVerdict_unknown_hearing_example :
  getVerdict (saveVerdict empty_store (example_verdict 60 40 20)) "hearing-1"
  = Some (example_verdict 60 40 20) /\
  hearings (cache (saveVerdict empty_store (example_verdict 60 40 20))) = [].
Proof.
  destruct (saveVerdict_unknown_hearing empty_store
              (example_verdict 60 40 20) eq_refl) as (H1 & H2 & _).
  split; [exact H1 | exact H2].
Defined.

(** X12.  The verdict route shows a verdict only to a participant of the
    case it is asked under, and only for a hearing of that case: when it
    answers 200 with a verdict, the case exists and has the acting user among
    its participants, the hearing exists and belongs to that case, and the
    verdict is the one the store holds for that hearing.  Whatever it
    answers, 200, 404 or 403, the route leaves the store as the sweep of its
    first read leaves it. *)
Theorem get_verdict_only_for_participants (s : Store)
    (caseId hearingId userId : string) (now : Z) :
  let r := get_verdict s caseId hearingId userId now in
  snd r = expireInvites s now /\
  In (status (fst r)) [200; 404; 403] /\
  forall v,
    fst r = respond 200 (BVerdict v) ->
    exists caseItem hearing,
      fst (getCase s caseId now) = Some caseItem /\
      In userId (participants_of caseItem) /\
      getHearing s hearingId = Some hearing /\
      h_case_id hearing = caseId /\
      getVerdict s hearingId = Some v /\
      v_hearing_id v = hearingId.
Proof.
  cbv zeta. unfold get_verdict.
  pose proof (find_hearing_of_case_store s caseId hearingId userId now) as Hs.
  destruct (expireInvites_keeps s now) as (Kh & Kv & _ & _).
  unfold find_hearing_of_case in *. unfold getCase in *. cbn [fst].
  destruct (find (has_id caseId) (cases (cache (expireInvites s now))))
    as [caseItem|] eqn:Hc;
    [|split; [reflexivity|]; split; [simpl; tauto | discriminate]].
  destruct (assertParticipant userId caseItem) eqn:Hp; cbn [negb];
    [|split; [reflexivity|]; split; [simpl; tauto | discriminate]].
  destruct (getHearing (expireInvites s now) hearingId) as [h|] eqn:Hh;
    [|split; [reflexivity|]; split; [simpl; tauto | discriminate]].
  destruct (String.eqb (h_case_id h) (c_id caseItem)) eqn:Hb; cbn [negb];
    [|split; [reflexivity|]; split; [simpl; tauto | discriminate]].
  destruct (getVerdict (expireInvites s now) (h_id h)) as [v0|] eqn:Hv;
    [|split; [reflexivity|]; split; [simpl; tauto | discriminate]].
  cbn [fst snd]. split; [reflexivity|]. split; [simpl; tauto|].
  intros v H. injection H as ->.
  assert (h_id h = hearingId) as Hid.
  { unfold getHearing in Hh. apply find_some in Hh. destruct Hh as [_ Hh].
    unfold hearing_has_id in Hh. apply String.eqb_eq in Hh. exact Hh. }
  rewrite Hid in Hv.
  exists caseItem, h. split; [reflexivity|]. split.
  { unfold assertParticipant in Hp. unfold participants_of.
    destruct (c_participant_ids caseItem); [|discriminate].
    apply includes_In. exact Hp. }
  split; [unfold getHearing in *; rewrite <- Kh; exact Hh|].
  split.
  { apply String.eqb_eq in Hb. rewrite Hb. exact (find_has_id _ _ _ Hc). }
  split; [unfold getVerdict in *; rewrite <- Kv; exact Hv|].
  unfold getVerdict in Hv. apply find_some in Hv. destruct Hv as [_ Hv].
  apply String.eqb_eq in Hv. exact Hv.
Qed.

Lemma get_verdict_only_for_participants_example :
  (exists caseItem,
     fst (getCase judged_store "case-1" 40) = Some caseItem /\
     In "bob" (participants_of caseItem)) /\
  snd (get_verdict judged_store "case-1" "hearing-1" "carol" 40)
  = expireInvites judged_store 40.
Proof.
  destruct (get_verdict_only_for_participants judged_store "case-1"
              "hearing-1" "bob" 40) as (_ & _ & H).
  destruct (H (example_verdict 60 40 20) eq_refl) as (c & h & H1 & H2 & _).
  split; [exists c; split; [exact H1 | exact H2]|].
  exact (proj1 (get_verdict_only_for_participants judged_store "case-1"
                  "hearing-1" "carol" 40)).
Defined.

(** X13.  The judge route, for a participant and a hearing of the case.  If
    the service returns a verdict for the hearing it was asked about, the
    route answers 200 with it, the store returns it for that hearing, the
    hearing is judged and the case decided.  If the service throws, the
    route answers 500 and nothing but the sweep has touched the store, so
    the hearing is still submitted and can be judged again. *)
Theorem post_judge_records (service : JudgeServiceInput -> Exception + Verdict)
    (s : Store) (caseId hearingId userId : string) (now : Z)
    (caseItem : Case) (hearing : Hearing) :
  fst (getCase s caseId now) = Some caseItem ->
  assertParticipant userId caseItem = true ->
  getHearing s hearingId = Some hearing ->
  h_case_id hearing = caseId ->
  let r := post_judge service s caseId hearingId userId now in
  exists input,
    fst (judge_request s caseId hearingId userId now) = inr input /\
    ji_hearingId input = hearingId /\
    ji_statements input = getStatements s hearingId /\
    ji_evidence input = getEvidence s hearingId /\
    (forall v, service input = inr v -> v_hearing_id v = hearingId ->
       fst r = respond 200 (BVerdict v) /\
       getVerdict (snd r) hearingId = Some v /\
       getHearing (snd r) hearingId = Some (set_h_status hearing judged) /\
       find (has_id caseId) (cases (cache (snd r)))
       = Some (set_status caseItem decided)) /\
    (forall e, service input = inl e ->
       fst r = respond 500 (BCaught e) /\ snd r = expireInvites s now).
Proof.
  intros Hc Hp Hh Hb. cbv zeta.
  unfold getCase in Hc. cbn [fst] in Hc.
  pose proof (find_has_id _ _ _ Hc) as Hcid.
  destruct (expireInvites_keeps s now) as (Kh & Kv & Kst & _).
  assert (getHearing (expireInvites s now) hearingId = Some hearing) as Hh1
    by (unfold getHearing in *; rewrite Kh; exact Hh).
  assert (h_id hearing = hearingId) as Hid.
  { unfold getHearing in Hh. apply find_some in Hh. destruct Hh as [_ Hh].
    unfold hearing_has_id in Hh. apply String.eqb_eq in Hh. exact Hh. }
  assert (find_hearing_of_case s caseId hearingId userId now
          = (inr (caseItem, hearing), expireInvites s now)) as Hfind.
  { unfold find_hearing_of_case, getCase. rewrite Hc, Hp. cbn [negb].
    rewrite Hh1, Hb, Hcid, String.eqb_refl. reflexivity. }
  unfold post_judge, judge_request. rewrite Hfind. cbn [fst snd].
  eexists. split; [reflexivity|]. cbn [ji_hearingId ji_statements ji_evidence].
  split; [exact Hid|]. split.
  { unfold getStatements. rewrite Kst, Hid. reflexivity. }
  split.
  { unfold getEvidence, expireInvites.
    destruct (existsb (should_expire now) (cases (cache s)));
      rewrite Hid; reflexivity. }
  split.
  - intros v Hv Hvid. rewrite Hv. cbn [judge_settle fst snd].
    split; [reflexivity|].
    assert (find (has_id (h_case_id hearing))
              (cases (cache (expireInvites s now))) = Some caseItem) as Hc1
      by (rewrite Hb; exact Hc).
    destruct (saveVerdict_once (expireInvites s now) hearingId hearing
                caseItem v Hh1 Hc1 Hvid) as (G1 & _ & G3 & G4 & _).
    rewrite Hb in G4. auto.
  - intros e He. rewrite He. split; reflexivity.
Qed.

Lemma post_judge_records_example :
  option_map h_status
    (getHearing
       (snd (post_judge mock_service
               (store_with_hearing
                  (example_case pending_judgement acc_accepted None)
                  (example_hearing submitted))
               "case-1" "hearing-1" "alice" 20)) "hearing-1")
  = Some judged.
Proof.
  destruct (post_judge_records mock_service
              (store_with_hearing
                 (example_case pending_judgement acc_accepted None)
                 (example_hearing submitted))
              "case-1" "hearing-1" "alice" 20
              (example_case pending_judgement acc_accepted None)
              (example_hearing submitted) eq_refl eq_refl eq_refl eq_refl)
    as (input & Hin & _ & _ & _ & Hok & _).
  simpl in Hin. injection Hin as <-.
  destruct (Hok _ eq_refl eq_refl) as (_ & _ & H & _).
  rewrite H. reflexivity.
Defined.

(** ** Users and friends *)

Lemma find_email_none (email : string) (l : list User) :
  find (fun u => String.eqb (u_email u) email) l = None <->
  ~ In email (map u_email l).
Proof.
  induction l as [|x l IH]; simpl; [tauto|].
  destruct (String.eqb_spec (u_email x) email) as [E|E].
  - split; [discriminate | intros H; exfalso; apply H; left; exact E].
  - rewrite IH. tauto.
Qed.

(** X14.  Registration keeps e-mail addresses unique.  If no two users share
    an address, none do after [createUser]; an address already taken throws
    [email_exists] and changes nothing; a new address adds a user with the
    given id, the hash as password and no friends, whom [findUserByEmail]
    then finds, while every other address is looked up as before. *)
Theorem createUser_keeps_emails_unique (s : Store)
    (email name password id hashed : string) :
  NoDup (map u_email (users (cache s))) ->
  let r := createUser s email name password id hashed in
  NoDup (map u_email (users (cache (snd r)))) /\
  (forall u0, findUserByEmail s email = Some u0 ->
     r = (inl email_exists, s)) /\
  (findUserByEmail s email = None ->
     exists u,
       fst r = inr u /\
       u_id u = id /\ u_email u = email /\ u_password u = hashed /\
       u_friends u = [] /\
       findUserByEmail (snd r) email = Some u /\
       forall other, other <> email ->
         findUserByEmail (snd r) other = findUserByEmail s other).
Proof.
  intros Hnd. cbv zeta. unfold createUser, findUserByEmail.
  destruct (find (fun u => String.eqb (u_email u) email) (users (cache s)))
    as [u0|] eqn:E.
  - split; [exact Hnd|]. split; [reflexivity | discriminate].
  - cbn [fst snd save cache set_users users]. split; [|split].
    + rewrite map_app. cbn [map u_email].
      apply NoDup_app; [exact Hnd | | ].
      * constructor; [simpl; tauto | constructor].
      * intros x Hx [<-|[]]. apply find_email_none in E. contradiction.
    + discriminate.
    + intros _. eexists. split; [reflexivity|].
      cbn [u_id u_email u_password u_friends].
      repeat (split; [reflexivity|]). split.
      * rewrite find_app, E. cbn [find u_email].
        rewrite String.eqb_refl. reflexivity.
      * intros other Hne. rewrite find_app.
        destruct (find (fun u => String.eqb (u_email u) other)
                    (users (cache s))); [reflexivity|].
        cbn [find u_email].
        assert (String.eqb email other = false) as ->
          by (apply String.eqb_neq; congruence).
        reflexivity.
Qed.

Lemma createUser_keeps_emails_unique_example :
  createUser two_users "bob@example.com" "Bob" "secret" "bob-2" "hash-2"
  = (inl email_exists, two_users) /\
  exists u,
    fst (createUser two_users "carol@example.com" "Carol" "secret" "carol"
           "hash-3") = inr u /\
    u_password u = "hash-3".
Proof.
  destruct (createUser_keeps_emails_unique two_users "bob@example.com" "Bob"
              "secret" "bob-2" "hash-2") as (_ & H & _).
  { repeat constructor; simpl; intuition discriminate. }
  destruct (createUser_keeps_emails_unique two_users "carol@example.com"
              "Carol" "secret" "carol" "hash-3") as (_ & _ & G).
  { repeat constructor; simpl; intuition discriminate. }
  split.
  - exact (H _ eq_refl).
  - destruct (G eq_refl) as (u & H1 & _ & _ & H4 & _).
    exists u. split; [exact H1 | exact H4].
Defined.

Lemma find_update_first_other {T : Type} (p q : T -> bool) (f : T -> T)
    (l : list T) :
  (forall x, p x = true -> q x = false) ->
  (forall x, q (f x) = q x) ->
  find q (update_first p f l) = find q l.
Proof.
  intros Hpq Hq. induction l as [|x l IH]; [reflexivity|]. cbn [update_first].
  destruct (p x) eqn:E; cbn [find].
  - rewrite Hq, (Hpq x E). reflexivity.
  - rewrite IH. reflexivity.
Qed.

Lemma update_first_fixed {T : Type} (p : T -> bool) (f : T -> T) (l : list T)
    (x : T) :
  find p l = Some x -> f x = x -> update_first p f l = l.
Proof.
  intros Hf Hx. induction l as [|y l IH]; [reflexivity|].
  cbn [update_first find] in *. destruct (p y).
  - injection Hf as ->. rewrite Hx. reflexivity.
  - rewrite (IH Hf). reflexivity.
Qed.

Lemma push_friend_In (friendId : string) (u : User) (x : string) :
  In x (u_friends (push_friend friendId u)) <->
  In x (u_friends u) \/ x = friendId.
Proof.
  unfold push_friend. destruct (includes (u_friends u) friendId) eqn:E.
  - apply includes_In in E. split; [tauto|]. intros [H| ->]; assumption.
  - cbn [set_friends u_friends]. rewrite in_app_iff. simpl. intuition.
Qed.

Lemma push_friend_fixed (friendId : string) (u : User) :
  In friendId (u_friends u) -> push_friend friendId u = u.
Proof.
  intros H. unfold push_friend. apply includes_In in H. rewrite H.
  reflexivity.
Qed.

Lemma user_has_id_push (id friendId : string) (u : User) :
  user_has_id id (push_friend friendId u) = user_has_id id u.
Proof. unfold push_friend. destruct (includes _ _); reflexivity. Qed.

Lemma user_has_id_apart (a b : string) :
  a <> b -> forall x, user_has_id a x = true -> user_has_id b x = false.
Proof.
  intros Hne x H. unfold user_has_id in *. apply String.eqb_eq in H.
  apply String.eqb_neq. congruence.
Qed.

(** X15.  Friendship is mutual and set once.  For two users of the store,
    after [addFriend] each has the other among their friends, these being
    the friends they had and the other and nothing else, and a second call
    changes nothing; the two may be the same user.  When either id is unknown the
    call throws [user_not_found] and changes nothing. *)
Theorem addFriend_is_mutual (s : Store) (userId friendId : string) :
  (forall u f,
     findUserById s userId = Some u ->
     findUserById s friendId = Some f ->
     let s1 := snd (addFriend s userId friendId) in
     exists u1 f1,
       fst (addFriend s userId friendId) = inr tt /\
       findUserById s1 userId = Some u1 /\
       findUserById s1 friendId = Some f1 /\
       (forall x, In x (u_friends u1) <-> In x (u_friends u) \/ x = friendId) /\
       (forall x, In x (u_friends f1) <-> In x (u_friends f) \/ x = userId) /\
       addFriend s1 userId friendId = (inr tt, s1)) /\
  (findUserById s userId = None \/ findUserById s friendId = None ->
   addFriend s userId friendId = (inl user_not_found, s)).
Proof.
  unfold findUserById. split.
  - intros u f Hu Hf. cbv zeta.
    set (us1 := update_first (user_has_id userId) (push_friend friendId)
                  (users (cache s))).
    set (us2 := update_first (user_has_id friendId) (push_friend userId) us1).
    assert (addFriend s userId friendId
            = (inr tt, save (set_users (cache s) us2))) as Hadd
      by (unfold addFriend; rewrite Hu, Hf; reflexivity).
    rewrite Hadd. cbn [fst snd save cache set_users users]. clear Hadd.
    assert (find (user_has_id userId) us1 = Some (push_friend friendId u))
      as Hu1.
    { unfold us1. rewrite find_update_first, Hu; [reflexivity|].
      intros x. apply user_has_id_push. }
    destruct (String.eqb_spec userId friendId) as [E|E].
    + subst friendId. rewrite Hf in Hu. injection Hu as ->.
      assert (find (user_has_id userId) us2 = Some (push_friend userId u))
        as Hu2.
      { unfold us2. rewrite find_update_first, Hu1.
        - cbn [option_map]. rewrite push_friend_fixed; [reflexivity|].
          apply push_friend_In. right. reflexivity.
        - intros x. apply user_has_id_push. }
      clearbody us1 us2.
      exists (push_friend userId u), (push_friend userId u).
      split; [reflexivity|]. split; [exact Hu2|]. split; [exact Hu2|].
      split; [apply push_friend_In|]. split; [apply push_friend_In|].
      unfold addFriend. cbn [save cache set_users users]. rewrite Hu2.
      assert (push_friend userId (push_friend userId u)
              = push_friend userId u) as Hfix.
      { apply push_friend_fixed, push_friend_In. right. reflexivity. }
      rewrite (update_first_fixed _ _ us2 _ Hu2 Hfix).
      rewrite (update_first_fixed _ _ us2 _ Hu2 Hfix).
      reflexivity.
    + assert (find (user_has_id friendId) us1 = Some f) as Hf1.
      { unfold us1. rewrite find_update_first_other; [exact Hf| |].
        - apply user_has_id_apart. exact E.
        - intros x. apply user_has_id_push. }
      assert (find (user_has_id friendId) us2 = Some (push_friend userId f))
        as Hf2.
      { unfold us2. rewrite find_update_first, Hf1; [reflexivity|].
        intros x. apply user_has_id_push. }
      assert (find (user_has_id userId) us2 = Some (push_friend friendId u))
        as Hu2.
      { unfold us2. rewrite find_update_first_other; [exact Hu1| |].
        - apply user_has_id_apart. congruence.
        - intros x. apply user_has_id_push. }
      clearbody us1 us2.
      exists (push_friend friendId u), (push_friend userId f).
      split; [reflexivity|]. split; [exact Hu2|]. split; [exact Hf2|].
      split; [apply push_friend_In|]. split; [apply push_friend_In|].
      unfold addFriend. cbn [save cache set_users users]. rewrite Hu2, Hf2.
      assert (push_friend friendId (push_friend friendId u)
              = push_friend friendId u) as Hfix1.
      { apply push_friend_fixed, push_friend_In. right. reflexivity. }
      assert (push_friend userId (push_friend userId f)
              = push_friend userId f) as Hfix2.
      { apply push_friend_fixed, push_friend_In. right. reflexivity. }
      rewrite (update_first_fixed _ _ us2 _ Hu2 Hfix1).
      rewrite (update_first_fixed _ _ us2 _ Hf2 Hfix2).
      reflexivity.
  - intros [H|H]; unfold addFriend; rewrite H; [reflexivity|].
    destruct (find (user_has_id userId) (users (cache s))); reflexivity.
Qed.

(** ** One verdict per hearing *)

Lemma NoDup_map_filter {T K : Type} (key : T -> K) (p : T -> bool)
    (l : list T) :
  NoDup (map key l) -> NoDup (map key (filter p l)).
Proof.
  induction l as [|x l IH]; cbn [map filter]; intros H; [exact H|].
  apply NoDup_cons_iff in H. destruct H as [Hx Hl].
  destruct (p x); [|exact (IH Hl)].
  cbn [map]. constructor; [|exact (IH Hl)].
  intros Hin. apply Hx. apply in_map_iff in Hin.
  destruct Hin as [y [Hy Hin]]. apply filter_In in Hin.
  apply in_map_iff. exists y. tauto.
Qed.

Lemma not_keyed_absent {T : Type} (key : T -> string) (k : string)
    (l : list T) :
  ~ In k (map key (filter (not_keyed key k) l)).
Proof.
  intros Hin. apply in_map_iff in Hin. destruct Hin as [y [Hy Hin]].
  apply filter_In in Hin. destruct Hin as [_ Hn]. unfold not_keyed in Hn.
  rewrite Hy, String.eqb_refl in Hn. discriminate.
Qed.

Lemma find_keyed_unique {T : Type} (key : T -> string) (l : list T) (v : T) :
  NoDup (map key l) -> In v l -> find (keyed key (key v)) l = Some v.
Proof.
  induction l as [|x l IH]; cbn [map find]; intros Hnd Hin; [contradiction|].
  apply NoDup_cons_iff in Hnd. destruct Hnd as [Hx Hl].
  unfold keyed at 1. destruct Hin as [->|Hin].
  - rewrite String.eqb_refl. reflexivity.
  - destruct (String.eqb_spec (key x) (key v)) as [E|E].
    + exfalso. apply Hx. rewrite E. apply in_map. exact Hin.
    + exact (IH Hl Hin).
Qed.

Lemma saveVerdict_unique (s : Store) (v : Verdict) :
  NoDup (map v_hearing_id (verdicts (cache s))) ->
  NoDup (map v_hearing_id (verdicts (cache (saveVerdict s v)))).
Proof.
  intros H. unfold saveVerdict.
  cbn [save cache set_cases set_hearings set_verdicts verdicts].
  change (fun v0 => negb (String.eqb (v_hearing_id v0) (v_hearing_id v)))
    with (not_keyed v_hearing_id (v_hearing_id v)).
  rewrite map_app. apply NoDup_app.
  - apply NoDup_map_filter. exact H.
  - constructor; [simpl; tauto | constructor].
  - intros k Hk [<-|[]]. exact (not_keyed_absent _ _ _ Hk).
Qed.

Lemma acceptCase_verdicts (s : Store) (caseId userId : string) (now : Z) :
  verdicts (cache (snd (acceptCase s caseId userId now))) = verdicts (cache s).
Proof.
  unfold acceptCase.
  destruct (find (has_id caseId) (cases (cache s))) as [found|];
    [|reflexivity].
  destruct (acceptance_is found acc_rejected); [reflexivity|].
  destruct (acceptance_is found acc_accepted); [reflexivity|].
  destruct (expiry_passed found now); [reflexivity|].
  destruct (negb (opt_string_eqb (c_invited_user_id found) (Some userId)));
    reflexivity.
Qed.

Lemma rejectCase_verdicts (s : Store) (caseId userId : string) :
  verdicts (cache (snd (rejectCase s caseId userId))) = verdicts (cache s).
Proof.
  unfold rejectCase.
  destruct (find (has_id caseId) (cases (cache s))) as [found|];
    [|reflexivity].
  destruct (negb (opt_string_eqb (c_invited_user_id found) (Some userId)));
    reflexivity.
Qed.

Lemma post_hearings_verdicts (s : Store) (caseId userId : string)
    (reqBody : option json) (t_sweep : Z) (hid : string)
    (t_created t_stamp : Z) (eid : nat -> string) :
  verdicts (cache (snd (post_hearings s caseId userId reqBody t_sweep hid
                          t_created t_stamp eid)))
  = verdicts (cache s).
Proof.
  destruct (expireInvites_keeps s t_sweep) as (_ & Kv & _ & _).
  unfold post_hearings, getCase.
  destruct (find (has_id caseId) (cases (cache (expireInvites s t_sweep))))
    as [caseItem|]; [|exact Kv].
  destruct (negb (assertParticipant userId caseItem)); [exact Kv|].
  destruct (match c_acceptance caseItem with
            | Some acc_accepted | None => false
            | Some _ => true
            end); [exact Kv|].
  destruct (hearingSchema reqBody) as [data|]; [|exact Kv]. exact Kv.
Qed.

Lemma post_appeal_verdicts (s : Store) (caseId hearingId userId : string)
    (reqBody : option json) (t_sweep : Z) (hid : string)
    (t_created t_stamp : Z) (eid : nat -> string) :
  verdicts (cache (snd (post_appeal s caseId hearingId userId reqBody t_sweep
                          hid t_created t_stamp eid)))
  = verdicts (cache s).
Proof.
  destruct (expireInvites_keeps s t_sweep) as (_ & Kv & _ & _).
  unfold post_appeal, find_hearing_of_case, getCase.
  destruct (find (has_id caseId) (cases (cache (expireInvites s t_sweep))))
    as [caseItem|]; [|exact Kv].
  destruct (negb (assertParticipant userId caseItem)); [exact Kv|].
  destruct (getHearing (expireInvites s t_sweep) hearingId) as [h|];
    [|exact Kv].
  destruct (negb (String.eqb (h_case_id h) (c_id caseItem))); [exact Kv|].
  destruct (appealSchema reqBody) as [data|]; [|exact Kv].
  destruct (ab_statements data), (ab_evidence data); exact Kv.
Qed.

(** Every event leaves the verdicts alone, save the settling of a judge
    request that returned a verdict. *)
Lemma step_verdicts (is_email : string -> bool) (s : Store) (ev : Event) :
  verdicts (cache (step is_email s ev)) = verdicts (cache s) \/
  exists v, ev = EvJudgeSettle (inr v) /\ step is_email s ev = saveVerdict s v.
Proof.
  destruct ev; cbn [step].
  - left. unfold post_cases.
    destruct (createCaseSchema is_email reqBody) as [data|]; [|reflexivity].
    destruct (truthy (cb_friend_email data)); [|reflexivity].
    destruct (findUserByEmail s _); reflexivity.
  - left. exact (proj1 (proj2 (expireInvites_keeps s now))).
  - left. exact (proj1 (proj2 (expireInvites_keeps s now))).
  - left. apply post_hearings_verdicts.
  - left. unfold post_accept.
    pose proof (acceptCase_verdicts s caseId userId now) as H.
    destruct (acceptCase s caseId userId now) as [[e|c] s1]; exact H.
  - left. unfold post_reject.
    pose proof (rejectCase_verdicts s caseId userId) as H.
    destruct (rejectCase s caseId userId) as [[e|c] s1]; exact H.
  - left. unfold judge_request.
    pose proof (find_hearing_of_case_store s caseId hearingId userId now)
      as H.
    destruct (find_hearing_of_case s caseId hearingId userId now)
      as [[r|[c h]] s1]; cbn [snd] in *; rewrite H;
      exact (proj1 (proj2 (expireInvites_keeps s now))).
  - destruct outcome as [e|v]; [left; reflexivity|].
    right. exists v. split; reflexivity.
  - left. unfold get_verdict.
    pose proof (find_hearing_of_case_store s caseId hearingId userId now)
      as H.
    destruct (find_hearing_of_case s caseId hearingId userId now)
      as [[r|[c h]] s1]; cbn [snd] in *;
      [|destruct (getVerdict s1 (h_id h))]; cbn [snd]; rewrite H;
      exact (proj1 (proj2 (expireInvites_keeps s now))).
  - left. apply post_appeal_verdicts.
  - left. unfold createUser.
    destruct (find _ (users (cache s))); reflexivity.
  - left. unfold addFriend.
    destruct (find (user_has_id userId) (users (cache s)));
      [|reflexivity].
    destruct (find (user_has_id friendId) (users (cache s))); reflexivity.
  - left. reflexivity.
Qed.

(** X16.  At most one verdict per hearing, along any run.  If the store holds
    no two verdicts for one hearing, it holds none after any run of the
    server, and every verdict it holds is the one [getVerdict] returns for
    its hearing: no verdict is hidden behind another. *)
Theorem one_verdict_per_hearing (is_email : string -> bool)
    (evs : list Event) (s : Store) :
  NoDup (map v_hearing_id (verdicts (cache s))) ->
  NoDup (map v_hearing_id (verdicts (cache (run is_email s evs)))) /\
  forall v, In v (verdicts (cache (run is_email s evs))) ->
    getVerdict (run is_email s evs) (v_hearing_id v) = Some v.
Proof.
  intros H.
  assert (NoDup (map v_hearing_id (verdicts (cache (run is_email s evs)))))
    as Hrun.
  { revert s H. induction evs as [|ev evs IH]; intros s H; [exact H|].
    cbn [run fold_left]. apply IH.
    destruct (step_verdicts is_email s ev) as [E|[v [_ E]]].
    - rewrite E. exact H.
    - rewrite E. apply saveVerdict_unique. exact H. }
  split; [exact Hrun|].
  intros v Hin. unfold getVerdict.
  exact (find_keyed_unique v_hearing_id _ v Hrun Hin).
Qed.

Lemma one_verdict_per_hearing_example :
  NoDup (map v_hearing_id
           (verdicts (cache (run no_email empty_store
                               (chores_run
                                ++ [EvJudgeSettle
                                      (inr (example_verdict 30 70 60))]))))).
Proof.
  apply (one_verdict_per_hearing no_email
           (chores_run ++ [EvJudgeSettle (inr (example_verdict 30 70 60))])
           empty_store).
  constructor.
Defined.

(** ** What becomes of a case *)

Lemma case_moves_refl (c : Case) : case_moves c c.
Proof.
  unfold case_moves. repeat split; try reflexivity; auto.
Qed.

Lemma case_moves_trans (c1 c2 c3 : Case) :
  case_moves c1 c2 -> case_moves c2 c3 -> case_moves c1 c3.
Proof.
  unfold case_moves.
  intros (I1 & T1 & R1 & P1 & C1 & O1 & V1 & E1 & M1 & J1 & A1)
         (I2 & T2 & R2 & P2 & C2 & O2 & V2 & E2 & M2 & J2 & A2).
  repeat split; try congruence.
  - intros u Hu. exact (M2 u (M1 u Hu)).
  - intros H. exact (J2 (J1 H)).
  - intros H. destruct (A1 H) as [H'|H'].
    + exact (A2 H').
    + right. exact (J2 H').
Qed.

Lemma case_moves_all_refl (l : list Case) : Forall2 case_moves l l.
Proof.
  induction l as [|c l IH]; constructor; [apply case_moves_refl | exact IH].
Qed.

Lemma case_moves_all_trans (l1 l2 l3 : list Case) :
  Forall2 case_moves l1 l2 -> Forall2 case_moves l2 l3 ->
  Forall2 case_moves l1 l3.
Proof.
  intros H. revert l3. induction H as [|x y l l' Hxy Hl IH]; intros l3 H3.
  - inversion H3. constructor.
  - inversion H3 as [|y' z l2' l3' Hyz Hl3]; subst. constructor.
    + exact (case_moves_trans _ _ _ Hxy Hyz).
    + exact (IH _ Hl3).
Qed.

Lemma cases_follow_refl (l : list Case) : cases_follow l l.
Proof.
  exists l, []. split; [symmetry; apply app_nil_r | apply case_moves_all_refl].
Qed.

Lemma cases_follow_trans (l1 l2 l3 : list Case) :
  cases_follow l1 l2 -> cases_follow l2 l3 -> cases_follow l1 l3.
Proof.
  intros (a & b & -> & Ha) (m & n & -> & Hm).
  apply Forall2_app_inv_l in Hm. destruct Hm as (a' & b' & Ha' & Hb' & ->).
  exists a', (b' ++ n). split; [symmetry; apply app_assoc|].
  exact (case_moves_all_trans _ _ _ Ha Ha').
Qed.

Lemma cases_follow_map (f : Case -> Case) (l : list Case) :
  (forall c, case_moves c (f c)) -> cases_follow l (map f l).
Proof.
  intros Hf. exists (map f l), []. split; [symmetry; apply app_nil_r|].
  induction l as [|c l IH]; cbn [map]; constructor; [apply Hf | exact IH].
Qed.

Lemma cases_follow_update_first (p : Case -> bool) (f : Case -> Case)
    (l : list Case) :
  (forall x, find p l = Some x -> case_moves x (f x)) ->
  cases_follow l (update_first p f l).
Proof.
  intros Hf. exists (update_first p f l), [].
  split; [symmetry; apply app_nil_r|].
  induction l as [|c l IH]; cbn [update_first]; [constructor|].
  cbn [find] in Hf. destruct (p c).
  - constructor; [exact (Hf c eq_refl) | apply case_moves_all_refl].
  - constructor; [apply case_moves_refl | exact (IH Hf)].
Qed.

Lemma cases_follow_find (l l' : list Case) (k : string) (c : Case) :
  cases_follow l l' -> find (has_id k) l = Some c ->
  exists c', find (has_id k) l' = Some c' /\ case_moves c c'.
Proof.
  intros (l1 & l2 & -> & H) Hf.
  induction H as [|x y l l1 Hxy Hl IH]; [discriminate|].
  cbn [find app] in *. unfold has_id at 1.
  unfold has_id at 1 in Hf.
  destruct Hxy as (I & Hrest). rewrite I.
  destruct (String.eqb (c_id x) k).
  - injection Hf as <-. exists y. split; [reflexivity|].
    split; [exact I | exact Hrest].
  - exact (IH Hf).
Qed.

Lemma sweep_one_moves (now : Z) (c : Case) : case_moves c (sweep_one now c).
Proof.
  unfold sweep_one. destruct (should_expire now c) eqn:E;
    [|apply case_moves_refl].
  unfold should_expire in E. apply andb_prop in E. destruct E as [E _].
  unfold acceptance_is in E. unfold case_moves, mark_expired, participants_of.
  cbn [set_status set_acceptance c_id c_topic c_relationship_context c_parties
       c_created_at c_owner_id c_invited_user_id c_expires_at
       c_participant_ids c_acceptance].
  repeat split; auto; intros H; rewrite H in E; discriminate.
Qed.

Lemma expireInvites_follow (s : Store) (now : Z) :
  cases_follow (cases (cache s)) (cases (cache (expireInvites s now))).
Proof.
  rewrite expireInvites_cases. apply cases_follow_map.
  apply sweep_one_moves.
Qed.

Lemma acceptCase_follow (s : Store) (caseId userId : string) (now : Z) :
  cases_follow (cases (cache s))
    (cases (cache (snd (acceptCase s caseId userId now)))).
Proof.
  unfold acceptCase.
  destruct (find (has_id caseId) (cases (cache s))) as [found|] eqn:Hf;
    [|apply cases_follow_refl].
  destruct (acceptance_is found acc_rejected) eqn:Er;
    [apply cases_follow_refl|].
  destruct (acceptance_is found acc_accepted) eqn:Ea;
    [apply cases_follow_refl|].
  assert (c_acceptance found <> Some acc_rejected) as Nr.
  { intros H. unfold acceptance_is in Er. rewrite H in Er. discriminate. }
  assert (c_acceptance found <> Some acc_accepted) as Na.
  { intros H. unfold acceptance_is in Ea. rewrite H in Ea. discriminate. }
  destruct (expiry_passed found now).
  - cbn [snd save cache set_cases cases]. apply cases_follow_update_first.
    intros x Hx. rewrite Hf in Hx. injection Hx as <-.
    unfold case_moves, mark_expired, participants_of.
    cbn [set_status set_acceptance c_id c_topic c_relationship_context
         c_parties c_created_at c_owner_id c_invited_user_id c_expires_at
         c_participant_ids c_acceptance].
    repeat split; auto; intros H; contradiction.
  - destruct (negb (opt_string_eqb (c_invited_user_id found) (Some userId)));
      [apply cases_follow_refl|].
    cbn [snd save cache set_cases cases]. apply cases_follow_update_first.
    intros x Hx. rewrite Hf in Hx. injection Hx as <-.
    unfold case_moves, participants_of.
    cbn [set_status set_acceptance set_participant_ids c_id c_topic
         c_relationship_context c_parties c_created_at c_owner_id
         c_invited_user_id c_expires_at c_participant_ids c_acceptance].
    repeat split; auto; try (intros H; contradiction).
    intros u Hu. unfold Array_from_Set. apply dedup_In.
    split; [|intros []]. apply in_or_app. left. exact Hu.
Qed.

Lemma rejectCase_follow (s : Store) (caseId userId : string) :
  cases_follow (cases (cache s))
    (cases (cache (snd (rejectCase s caseId userId)))).
Proof.
  unfold rejectCase.
  destruct (find (has_id caseId) (cases (cache s))) as [found|];
    [|apply cases_follow_refl].
  destruct (negb (opt_string_eqb (c_invited_user_id found) (Some userId)));
    [apply cases_follow_refl|].
  cbn [snd save cache set_cases cases]. apply cases_follow_update_first.
  intros x _. unfold case_moves, participants_of.
  cbn [set_status set_acceptance c_id c_topic c_relationship_context
       c_parties c_created_at c_owner_id c_invited_user_id c_expires_at
       c_participant_ids c_acceptance].
  repeat split; auto.
Qed.

Lemma set_status_moves (st : CaseStatus) (c : Case) :
  case_moves c (set_status c st).
Proof.
  unfold case_moves, participants_of.
  cbn [set_status c_id c_topic c_relationship_context c_parties
       c_created_at c_owner_id c_invited_user_id c_expires_at
       c_participant_ids c_acceptance].
  repeat split; auto.
Qed.

Lemma set_status_follow (p : Case -> bool) (st : CaseStatus) (l : list Case) :
  cases_follow l (update_first p (fun c => set_status c st) l).
Proof.
  apply cases_follow_update_first. intros x _. apply set_status_moves.
Qed.

Lemma post_hearings_follow (s : Store) (caseId userId : string)
    (reqBody : option json) (t_sweep : Z) (hid : string)
    (t_created t_stamp : Z) (eid : nat -> string) :
  cases_follow (cases (cache (expireInvites s t_sweep)))
    (cases (cache (snd (post_hearings s caseId userId reqBody t_sweep hid
                          t_created t_stamp eid)))).
Proof.
  unfold post_hearings, getCase.
  destruct (find (has_id caseId) (cases (cache (expireInvites s t_sweep))))
    as [caseItem|]; [|apply cases_follow_refl].
  destruct (negb (assertParticipant userId caseItem));
    [apply cases_follow_refl|].
  destruct (match c_acceptance caseItem with
            | Some acc_accepted | None => false
            | Some _ => true
            end); [apply cases_follow_refl|].
  destruct (hearingSchema reqBody) as [data|]; [|apply cases_follow_refl].
  apply set_status_follow.
Qed.

Lemma post_appeal_follow (s : Store) (caseId hearingId userId : string)
    (reqBody : option json) (t_sweep : Z) (hid : string)
    (t_created t_stamp : Z) (eid : nat -> string) :
  cases_follow (cases (cache (expireInvites s t_sweep)))
    (cases (cache (snd (post_appeal s caseId hearingId userId reqBody t_sweep
                          hid t_created t_stamp eid)))).
Proof.
  unfold post_appeal, find_hearing_of_case, getCase.
  destruct (find (has_id caseId) (cases (cache (expireInvites s t_sweep))))
    as [caseItem|]; [|apply cases_follow_refl].
  destruct (negb (assertParticipant userId caseItem));
    [apply cases_follow_refl|].
  destruct (getHearing (expireInvites s t_sweep) hearingId) as [h|];
    [|apply cases_follow_refl].
  destruct (negb (String.eqb (h_case_id h) (c_id caseItem)));
    [apply cases_follow_refl|].
  destruct (appealSchema reqBody) as [data|]; [|apply cases_follow_refl].
  assert (cases_follow (cases (cache (expireInvites s t_sweep)))
            (update_first (has_id (c_id caseItem))
               (fun c => set_status c appealed)
               (update_first (has_id (c_id caseItem))
                  (fun c => set_status c pending_judgement)
                  (cases (cache (expireInvites s t_sweep)))))) as Hup.
  { eapply cases_follow_trans; apply set_status_follow. }
  destruct (ab_statements data), (ab_evidence data); exact Hup.
Qed.

Lemma saveVerdict_follow (s : Store) (v : Verdict) :
  cases_follow (cases (cache s)) (cases (cache (saveVerdict s v))).
Proof.
  unfold saveVerdict. cbn [save cache set_cases cases].
  destruct (find (hearing_has_id (v_hearing_id v)) (hearings (cache s)));
    [apply set_status_follow | apply cases_follow_refl].
Qed.

(** Every event moves the stored cases and may add one. *)
Lemma step_cases (is_email : string -> bool) (s : Store) (ev : Event) :
  cases_follow (cases (cache s)) (cases (cache (step is_email s ev))).
Proof.
  destruct ev; cbn [step].
  - unfold post_cases.
    destruct (createCaseSchema is_email reqBody) as [data|];
      [|apply cases_follow_refl].
    assert (forall input,
              cases_follow (cases (cache s))
                (cases (cache (snd (createCase s input id now now')))))
      as Hc.
    { intros input. unfold createCase. cbn [snd save cache set_cases cases].
      eexists _, [_]. split; [reflexivity | apply case_moves_all_refl]. }
    destruct (truthy (cb_friend_email data)).
    + destruct (findUserByEmail s _); [|apply cases_follow_refl].
      match goal with
      | |- context [createCase s ?i id now now'] =>
          pose proof (Hc i) as H;
          destruct (createCase s i id now now'); exact H
      end.
    + match goal with
      | |- context [createCase s ?i id now now'] =>
          pose proof (Hc i) as H;
          destruct (createCase s i id now now'); exact H
      end.
  - apply expireInvites_follow.
  - apply expireInvites_follow.
  - eapply cases_follow_trans;
      [apply (expireInvites_follow s t_sweep) | apply post_hearings_follow].
  - unfold post_accept.
    pose proof (acceptCase_follow s caseId userId now) as H.
    destruct (acceptCase s caseId userId now) as [[e|c] s1]; exact H.
  - unfold post_reject.
    pose proof (rejectCase_follow s caseId userId) as H.
    destruct (rejectCase s caseId userId) as [[e|c] s1]; exact H.
  - unfold judge_request.
    pose proof (find_hearing_of_case_store s caseId hearingId userId now)
      as H.
    destruct (find_hearing_of_case s caseId hearingId userId now)
      as [[r|[c h]] s1]; cbn [snd] in *; rewrite H;
      apply expireInvites_follow.
  - destruct outcome as [e|v];
      [apply cases_follow_refl | apply saveVerdict_follow].
  - unfold get_verdict.
    pose proof (find_hearing_of_case_store s caseId hearingId userId now)
      as H.
    destruct (find_hearing_of_case s caseId hearingId userId now)
      as [[r|[c h]] s1]; cbn [snd] in *;
      [|destruct (getVerdict s1 (h_id h))]; cbn [snd]; rewrite H;
      apply expireInvites_follow.
  - eapply cases_follow_trans;
      [apply (expireInvites_follow s t_sweep) | apply post_appeal_follow].
  - unfold createUser.
    destruct (find _ (users (cache s))); apply cases_follow_refl.
  - unfold addFriend.
    destruct (find (user_has_id userId) (users (cache s)));
      [|apply cases_follow_refl].
    destruct (find (user_has_id friendId) (users (cache s)));
      apply cases_follow_refl.
  - apply cases_follow_refl.
Qed.

Lemma run_cases (is_email : string -> bool) (evs : list Event) (s : Store) :
  cases_follow (cases (cache s)) (cases (cache (run is_email s evs))).
Proof.
  revert s. induction evs as [|ev evs IH]; intros s;
    [apply cases_follow_refl|].
  cbn [run fold_left].
  exact (cases_follow_trans _ _ _ (step_cases is_email s ev)
           (IH (step is_email s ev))).
Qed.

(** X17.  A case keeps its identity and its rejection.  Whatever requests
    are served, a case that the store finds under an identifier is still
    found under it afterwards, with the same topic, context, parties,
    creation time, owner, invited user and expiry; none of its participants
    has been removed; if it was rejected it still is, and if it was accepted
    it is accepted or rejected. *)
Theorem case_is_kept (is_email : string -> bool) (evs : list Event)
    (s : Store) (caseId : string) (c : Case) :
  find (has_id caseId) (cases (cache s)) = Some c ->
  exists c',
    find (has_id caseId) (cases (cache (run is_email s evs))) = Some c' /\
    case_moves c c'.
Proof.
  intros Hf.
  exact (cases_follow_find _ _ caseId c (run_cases is_email evs s) Hf).
Qed.

Lemma case_is_kept_example :
  exists c',
    find (has_id "case-1")
      (cases (cache (run no_email (store_with rejected_case)
                       [EvPostAccept "case-1" "bob" 50;
                        EvGetCase "case-1" 500]))) = Some c' /\
    case_moves rejected_case c'.
Proof.
  apply (case_is_kept no_email
           [EvPostAccept "case-1" "bob" 50; EvGetCase "case-1" 500]
           (store_with rejected_case) "case-1" rejected_case).
  reflexivity.
Defined.

(** ** The mock verdict when one side is silent *)

Lemma filter_is_A_none (sts : list Statement) :
  Forall (fun x => st_side x = B) sts -> filter is_A sts = [].
Proof.
  induction 1 as [|x l Hx Hl IH]; [reflexivity|].
  cbn [filter]. unfold is_A at 1. rewrite Hx. exact IH.
Qed.

Lemma filter_is_A_all (sts : list Statement) :
  Forall (fun x => st_side x = A) sts -> filter is_A sts = sts.
Proof.
  induction 1 as [|x l Hx Hl IH]; [reflexivity|].
  cbn [filter]. unfold is_A at 1. rewrite Hx. cbn [PartySide_eqb].
  rewrite IH. reflexivity.
Qed.

Lemma count_words_pos (x : Statement) (l : list Statement) :
  1 <= count_words (x :: l).
Proof.
  rewrite count_words_cons.
  pose proof (split_ws_length_pos (st_narrative x)).
  pose proof (count_words_filter (fun _ => true) l). lia.
Qed.

Lemma Math_round_whole (q : Q) (z : Z) : (q == inject_Z z)%Q -> Math_round q = z.
Proof.
  intros H. unfold Math_round.
  assert (Qfloor (q + (1 # 2)) = Qfloor (inject_Z z + (1 # 2)))%Q as ->.
  { apply Qfloor_comp. rewrite H. reflexivity. }
  apply Z.le_antisymm.
  - assert (Qfloor (inject_Z z + (1 # 2)) < z + 1); [|lia].
    rewrite Zlt_Qlt.
    pose proof (Qfloor_le (inject_Z z + (1 # 2))) as Hle.
    rewrite inject_Z_plus. change (inject_Z 1) with 1%Q. lra.
  - rewrite <- (Qfloor_Z z) at 1. apply Qfloor_resp_le. lra.
Qed.

(** X18.  The mock verdict when one side is silent.  If no statement is A's,
    the mock verdict is 50 to 50, whatever B wrote; if every statement is
    A's, and there is one, it is 100 to 0.  The rounding is any monotone
    function that leaves 1/2, 1, 50 and 100 as they are. *)
Theorem defaultVerdict_one_sided (fl : Q -> Q) (input : JudgeServiceInput)
    (now : Z) :
  (forall x y, (x <= y)%Q -> (fl x <= fl y)%Q) ->
  (fl (1 # 2) == 1 # 2)%Q -> (fl 1 == 1)%Q ->
  (fl 50 == 50)%Q -> (fl 100 == 100)%Q ->
  (Forall (fun x => st_side x = B) (ji_statements input) ->
   partyA_pct (v_score (defaultVerdict fl input now)) = int 50 /\
   partyB_pct (v_score (defaultVerdict fl input now)) = int 50) /\
  (ji_statements input <> [] ->
   Forall (fun x => st_side x = A) (ji_statements input) ->
   partyA_pct (v_score (defaultVerdict fl input now)) = int 100 /\
   partyB_pct (v_score (defaultVerdict fl input now)) = int 0).
Proof.
  intros Hm Hhalf H1 H50 H100.
  assert (forall x y, (x == y)%Q -> (fl x == fl y)%Q) as Heq.
  { intros x y E. apply Qle_antisym; apply Hm; rewrite E; apply Qle_refl. }
  unfold defaultVerdict. cbn [v_score partyA_pct partyB_pct].
  set (sts := ji_statements input). split.
  - intros HB.
    assert (mock_pct fl sts = 50) as ->; [|split; reflexivity].
    unfold mock_pct. rewrite (filter_is_A_none sts HB).
    change (count_words [] =? 0) with true. cbv iota.
    set (t := if count_words sts =? 0 then 1 else count_words sts).
    assert (1 <= inject_Z t)%Q as Ht.
    { change 1%Q with (inject_Z 1). rewrite <- Zle_Qle. unfold t.
      pose proof (count_words_filter (fun _ => true) sts).
      destruct (Z.eqb_spec (count_words sts) 0); lia. }
    apply (Math_round_whole _ 50).
    assert (inject_Z t / 2 / inject_Z t == 1 # 2)%Q as E by (field; lra).
    assert (fl (inject_Z t / 2 / inject_Z t) == 1 # 2)%Q as E2
      by (rewrite (Heq _ _ E); exact Hhalf).
    rewrite (Heq _ 50%Q) by (rewrite E2; reflexivity). exact H50.
  - intros Hne HA.
    assert (mock_pct fl sts = 100) as ->; [|split; reflexivity].
    unfold mock_pct. rewrite (filter_is_A_all sts HA).
    destruct sts as [|x l]; [contradiction|].
    pose proof (count_words_pos x l) as Hp.
    destruct (Z.eqb_spec (count_words (x :: l)) 0) as [E0|_]; [lia|].
    assert (1 <= inject_Z (count_words (x :: l)))%Q as Ht.
    { change 1%Q with (inject_Z 1). rewrite <- Zle_Qle. exact Hp. }
    apply (Math_round_whole _ 100).
    assert (inject_Z (count_words (x :: l)) / inject_Z (count_words (x :: l))
            == 1)%Q as E by (field; lra).
    assert (fl (inject_Z (count_words (x :: l))
                / inject_Z (count_words (x :: l))) == 1)%Q as E2
      by (rewrite (Heq _ _ E); exact H1).
    rewrite (Heq _ 100%Q) by (rewrite E2; reflexivity). exact H100.
Qed.

Lemma defaultVerdict_one_sided_example :
  partyA_pct
    (v_score
       (defaultVerdict exact
          (input_with
             [example_statement "hearing-1" B "nobody ever washes up" 20])
          30)) = int 50.
Proof.
  assert (Forall (fun x => st_side x = B)
            [example_statement "hearing-1" B "nobody ever washes up" 20])
    as HB by (repeat constructor).
  destruct (defaultVerdict_one_sided exact
              (input_with
                 [example_statement "hearing-1" B "nobody ever washes up" 20])
              30) as [Hnone _].
  - intros x y H. exact H.
  - reflexivity.
  - reflexivity.
  - reflexivity.
  - reflexivity.
  - exact (proj1 (Hnone HB)).
Defined.

(** ** The latest hearing of a case *)

Lemma num_sub_pos (a b : number) :
  isNaN a = false -> isNaN b = false ->
  num_ltb (Fin 0) (num_sub b a) = num_ltb a b.
Proof.
  destruct a as [| | |x], b as [| | |y]; intros Ha Hb;
    try discriminate; try reflexivity.
  cbn [num_sub num_ltb]. f_equal.
  destruct (Qle_bool (y - x) 0) eqn:E1, (Qle_bool y x) eqn:E2;
    try reflexivity; exfalso.
  - apply Qle_bool_iff in E1.
    assert (~ (y <= x)%Q) as N
      by (intros H; apply Qle_bool_iff in H; congruence).
    apply N. lra.
  - apply Qle_bool_iff in E2.
    assert (~ (y - x <= 0)%Q) as N
      by (intros H; apply Qle_bool_iff in H; congruence).
    apply N. lra.
Qed.

Lemma num_ltb_asym (a b : number) :
  num_ltb a b = true -> num_ltb b a = false.
Proof.
  destruct a as [| | |x], b as [| | |y]; cbn [num_ltb]; intros H;
    try discriminate; try reflexivity.
  apply Bool.negb_true_iff in H. apply Bool.negb_false_iff.
  apply Qle_bool_iff.
  assert (~ (y <= x)%Q) as N
    by (intros H'; apply Qle_bool_iff in H'; congruence).
  lra.
Qed.

(** [a <= b] and [b <= c] give [a <= c], when [b] is a number. *)
Lemma num_le_trans (a b c : number) :
  isNaN b = false ->
  num_ltb b a = false -> num_ltb c b = false -> num_ltb c a = false.
Proof.
  destruct a as [| | |x], b as [| | |y], c as [| | |z]; cbn [num_ltb isNaN];
    intros Hb H1 H2; try discriminate; try reflexivity.
  apply Bool.negb_false_iff in H1, H2. apply Bool.negb_false_iff.
  apply Qle_bool_iff in H1, H2. apply Qle_bool_iff. lra.
Qed.

Lemma hd_insert_sorted {T : Type} (cmp : T -> T -> number) (x : T)
    (l : list T) :
  hd_error (insert_sorted cmp x l)
  = match hd_error l with
    | None => Some x
    | Some y => if num_ltb (Fin 0) (cmp x y) then Some y else Some x
    end.
Proof.
  destruct l as [|y t]; [reflexivity|]. cbn [insert_sorted hd_error].
  destruct (num_ltb (Fin 0) (cmp x y)); reflexivity.
Qed.

(** The head of the sorted hearings: one of them, and none has a greater
    round. *)
Lemma latest_is_greatest (l : list Hearing) :
  Forall (fun h => isNaN (h_round h) = false) l ->
  match hd_error (Array_sort by_round_desc l) with
  | None => l = []
  | Some h =>
      In h l /\ forall h', In h' l -> num_ltb (h_round h) (h_round h') = false
  end.
Proof.
  induction 1 as [|x l Hx Hl IH]; [reflexivity|].
  cbn [Array_sort fold_right]. fold (Array_sort by_round_desc l).
  rewrite hd_insert_sorted.
  destruct (hd_error (Array_sort by_round_desc l)) as [y|].
  - destruct IH as [Hy Hmax].
    assert (isNaN (h_round y) = false) as Hny
      by exact (proj1 (Forall_forall _ l) Hl y Hy).
    unfold by_round_desc. rewrite (num_sub_pos _ _ Hx Hny).
    destruct (num_ltb (h_round x) (h_round y)) eqn:E.
    + split; [right; exact Hy|]. intros h' [<-|Hin].
      * exact (num_ltb_asym _ _ E).
      * exact (Hmax h' Hin).
    + split; [left; reflexivity|]. intros h' [<-|Hin].
      * destruct (h_round x) as [| | |q]; try reflexivity.
        cbn [num_ltb]. apply Bool.negb_false_iff. apply Qle_bool_iff.
        apply Qle_refl.
      * exact (num_le_trans _ _ _ Hny (Hmax h' Hin) E).
  - subst l. split; [left; reflexivity|]. intros h' [<-|[]].
    destruct (h_round x) as [| | |q]; try reflexivity.
    cbn [num_ltb]. apply Bool.negb_false_iff. apply Qle_bool_iff.
    apply Qle_refl.
Qed.

(** X19.  The view of a case.  [GET /cases/:caseId] gives a view only to a
    participant of the case, and the view holds the case as the sweep of
    that instant leaves it.  When no round of the case is NaN, the latest
    hearing of the view is a hearing of the case whose round no other
    hearing of the case exceeds, with the verdict stored for it, and there
    is none only when the case has no hearing. *)
Theorem get_case_latest (s : Store) (caseId userId : string) (now : Z)
    (view : CaseView) :
  Forall (fun r => isNaN r = false) (rounds_of s caseId) ->
  fst (get_case s caseId userId now) = inr view ->
  (exists c,
     find (has_id caseId) (cases (cache s)) = Some c /\
     cv_case view = sweep_one now c /\
     In userId (participants_of c)) /\
  match cv_latest_hearing view with
  | None => listHearings s caseId = [] /\ cv_latest_verdict view = None
  | Some h =>
      In h (listHearings s caseId) /\
      (forall h', In h' (listHearings s caseId) ->
                  num_ltb (h_round h) (h_round h') = false) /\
      cv_latest_verdict view = getVerdict s (h_id h)
  end.
Proof.
  intros Hnan Hview. unfold get_case in Hview.
  rewrite getCase_swept in Hview.
  destruct (find (has_id caseId) (cases (cache s))) as [c|] eqn:Hf;
    cbn [option_map] in Hview; [|discriminate].
  pose proof (find_has_id _ _ _ Hf) as Hid.
  destruct (assertParticipant userId (sweep_one now c)) eqn:Hp;
    cbn [negb fst] in Hview; [|discriminate].
  injection Hview as <-. cbn [cv_case cv_latest_hearing cv_latest_verdict].
  assert (c_id (sweep_one now c) = caseId) as ->.
  { unfold sweep_one. destruct (should_expire now c); exact Hid. }
  rewrite listHearings_swept. split.
  - exists c. split; [reflexivity|]. split; [reflexivity|].
    unfold assertParticipant in Hp. unfold participants_of.
    assert (c_participant_ids (sweep_one now c) = c_participant_ids c) as E
      by (unfold sweep_one; destruct (should_expire now c); reflexivity).
    rewrite E in Hp.
    destruct (c_participant_ids c) as [l|]; [|discriminate].
    apply includes_In. exact Hp.
  - assert (Forall (fun h => isNaN (h_round h) = false)
              (listHearings s caseId)) as Hl.
    { unfold rounds_of in Hnan. apply Forall_forall. intros h Hh.
      apply (proj1 (Forall_forall _ _) Hnan). apply in_map. exact Hh. }
    pose proof (latest_is_greatest _ Hl) as Hmax.
    destruct (hd_error (Array_sort by_round_desc (listHearings s caseId)))
      as [h|].
    + destruct Hmax as [Hin Hge]. split; [exact Hin|].
      split; [exact Hge|]. unfold getVerdict.
      rewrite (proj1 (proj2 (expireInvites_keeps s now))). reflexivity.
    + split; [exact Hmax | reflexivity].
Qed.

Lemma get_case_latest_example :
  exists view,
    fst (get_case two_hearings "case-1" "bob" 50) = inr view /\
    cv_latest_hearing view = Some second_hearing /\
    In second_hearing (listHearings two_hearings "case-1").
Proof.
  eexists. split; [reflexivity|]. split; [reflexivity|].
  assert (Forall (fun r => isNaN r = false) (rounds_of two_hearings "case-1"))
    as Hnan by (repeat constructor).
  destruct (get_case_latest two_hearings "case-1" "bob" 50 _ Hnan eq_refl)
    as [_ H].
  exact (proj1 H).
Defined.

Lemma is_finite_not_NaN (x : number) : is_finite x -> isNaN x = false.
Proof. destruct x; intros H; try contradiction; reflexivity. Qed.

(** The maximum of finite numbers, from a start that is finite or
    [-Infinity]: no less than the start and than each of them, and finite as
    soon as one of them is. *)
Lemma fold_Math_max2_finite (rs : list number) (acc : number) :
  acc = NegInfinity \/ is_finite acc ->
  Forall is_finite rs ->
  num_ltb (fold_left Math_max2 rs acc) acc = false /\
  (forall x, In x rs -> num_ltb (fold_left Math_max2 rs acc) x = false) /\
  (is_finite acc \/ rs <> [] -> is_finite (fold_left Math_max2 rs acc)).
Proof.
  intros Hacc Hrs. revert acc Hacc.
  induction Hrs as [|r rs Hr Hl IH]; intros acc Hacc.
  - cbn [fold_left]. split; [|split].
    + destruct Hacc as [->|Hf]; [reflexivity|].
      destruct acc as [| | |q]; try contradiction.
      cbn [num_ltb]. apply Bool.negb_false_iff. apply Qle_bool_iff.
      apply Qle_refl.
    + intros x [].
    + intros [H|H]; [exact H | contradiction].
  - cbn [fold_left].
    assert (is_finite (Math_max2 acc r) /\
            num_ltb (Math_max2 acc r) acc = false /\
            num_ltb (Math_max2 acc r) r = false) as (Hf & Ha & Hb).
    { destruct r as [| | |qr]; try contradiction.
      destruct Hacc as [->|Hfa].
      - cbn. repeat split. apply Bool.negb_false_iff. apply Qle_bool_iff.
        apply Qle_refl.
      - destruct acc as [| | |qa]; try contradiction.
        unfold Math_max2. cbn [isNaN orb num_ltb].
        destruct (Qle_bool qr qa) eqn:E; cbn [negb num_ltb is_finite].
        + repeat split.
          * apply Bool.negb_false_iff. apply Qle_bool_iff. apply Qle_refl.
          * rewrite E. reflexivity.
        + assert (~ (qr <= qa)%Q) as N
            by (intros H'; apply Qle_bool_iff in H'; congruence).
          repeat split.
          * apply Bool.negb_false_iff. apply Qle_bool_iff. lra.
          * apply Bool.negb_false_iff. apply Qle_bool_iff. apply Qle_refl. }
    destruct (IH (Math_max2 acc r) (or_intror Hf)) as (I1 & I2 & I3).
    pose proof (is_finite_not_NaN _ Hf) as Hn.
    split; [|split].
    + exact (num_le_trans _ _ _ Hn Ha I1).
    + intros x [<-|Hin].
      * exact (num_le_trans _ _ _ Hn Hb I1).
      * exact (I2 x Hin).
    + intros _. apply I3. left. exact Hf.
Qed.

(** The round an omitted round resolves to, over hearings with finite
    rounds: finite, and greater than each of theirs. *)
Lemma resolve_round_above (hs : list Hearing) :
  Forall is_finite (map h_round hs) ->
  is_finite (resolve_round None hs) /\
  forall h, In h hs -> num_ltb (h_round h) (resolve_round None hs) = true.
Proof.
  intros Hfin. destruct hs as [|h0 hs]; [split; [exact I | intros h []]|].
  cbn [resolve_round]. unfold Math_max.
  destruct (fold_Math_max2_finite (map h_round (h0 :: hs)) NegInfinity
              (or_introl eq_refl) Hfin) as (_ & Hge & Hf).
  assert (is_finite (fold_left Math_max2 (map h_round (h0 :: hs)) NegInfinity))
    as Hm by (apply Hf; right; discriminate).
  destruct (fold_left Math_max2 (map h_round (h0 :: hs)) NegInfinity)
    as [| | |q]; try contradiction.
  cbn [add1]. split; [exact I|].
  intros h Hin. pose proof (Hge (h_round h) (in_map h_round _ _ Hin)) as Hle.
  pose proof (proj1 (Forall_forall _ _) Hfin (h_round h)
                (in_map h_round _ _ Hin)) as Hh.
  destruct (h_round h) as [| | |x]; try contradiction.
  cbn [num_ltb] in *. apply Bool.negb_false_iff in Hle.
  apply Qle_bool_iff in Hle. apply Bool.negb_true_iff.
  destruct (Qle_bool (q + 1) x) eqn:E; [|reflexivity].
  apply Qle_bool_iff in E. lra.
Qed.

(** The hearing with the greatest round is the latest, wherever it is in the
    list. *)
Lemma latest_of_added (old : list Hearing) (h : Hearing) :
  Forall (fun x => isNaN (h_round x) = false) (old ++ [h]) ->
  (forall x, In x old -> num_ltb (h_round x) (h_round h) = true) ->
  hd_error (Array_sort by_round_desc (old ++ [h])) = Some h.
Proof.
  intros Hnan Hlt. pose proof (latest_is_greatest _ Hnan) as Hmax.
  destruct (hd_error (Array_sort by_round_desc (old ++ [h]))) as [h0|].
  - destruct Hmax as [Hin Hge]. apply in_app_or in Hin.
    destruct Hin as [Hin|[<-|[]]]; [|reflexivity].
    assert (In h (old ++ [h])) as Hh
      by (apply in_or_app; right; left; reflexivity).
    pose proof (Hge h Hh) as H.
    rewrite (Hlt h0 Hin) in H. discriminate.
  - destruct old; discriminate.
Qed.

(** X20.  The hearing a request has just opened is the latest.  After a
    hearing request without a round, by a participant of an accepted case
    whose rounds so far are safe integers, [GET /cases/:caseId] shows the
    new hearing, with the next round, as the latest one of the case, at
    whatever instant it is asked, with the case pending judgement. *)
Theorem new_hearing_is_latest (s : Store) (caseId userId : string)
    (reqBody : option json) (t_sweep : Z) (hid : string)
    (t_created t_stamp : Z) (eid : nat -> string)
    (caseItem : Case) (data : HearingBody) (now : Z) (rs : list Z) :
  fst (getCase s caseId t_sweep) = Some caseItem ->
  assertParticipant userId caseItem = true ->
  c_acceptance caseItem = Some acc_accepted \/ c_acceptance caseItem = None ->
  hearingSchema reqBody = Some data ->
  hb_round data = None ->
  rounds_of s caseId = map int rs ->
  Forall safe_integer rs ->
  let s1 := snd (post_hearings s caseId userId reqBody t_sweep hid t_created
                   t_stamp eid) in
  exists view,
    fst (get_case s1 caseId userId now) = inr view /\
    cv_case view = set_status caseItem pending_judgement /\
    cv_latest_hearing view
    = Some (new_hearing caseId (int (next_after rs)) hid t_created).
Proof.
  intros Hcase Hpart Hacc Hbody Hround Hrs _.
  rewrite <- (resolve_round_int (listHearings s caseId) rs Hrs).
  assert (Forall is_finite (rounds_of s caseId)) as Hfin.
  { rewrite Hrs. apply Forall_forall. intros x Hx. apply in_map_iff in Hx.
    destruct Hx as (z & <- & _). exact I. }
  cbv zeta.
  unfold getCase in Hcase. cbn [fst] in Hcase.
  pose proof (find_has_id _ _ _ Hcase) as Hid.
  destruct (expireInvites_keeps s t_sweep) as (Kh & _ & _ & _).
  unfold post_hearings, getCase. rewrite Hcase, Hpart. cbn [negb].
  assert (match c_acceptance caseItem with
          | Some acc_accepted | None => false
          | Some _ => true
          end = false) as ->
    by (destruct Hacc as [-> | ->]; reflexivity).
  rewrite Hbody, Hid, Hround. unfold createHearing. cbn [fst snd h_id].
  set (s1 := saveEvidence _ _ _).
  assert (find (has_id caseId) (cases (cache s1))
          = Some (set_status caseItem pending_judgement)) as Hf1.
  { unfold s1. cbn [saveEvidence saveStatements save cache set_evidence
      set_statements set_cases set_hearings cases].
    rewrite find_update_first by reflexivity. rewrite Hcase. reflexivity. }
  assert (listHearings s1 caseId
          = listHearings s caseId
            ++ [new_hearing caseId
                  (resolve_round None (listHearings s caseId)) hid t_created])
    as Hl1.
  { unfold s1, listHearings. cbn [saveEvidence saveStatements save cache
      set_evidence set_statements set_cases set_hearings hearings].
    rewrite Kh, filter_app. cbn [filter h_case_id].
    rewrite String.eqb_refl. reflexivity. }
  clearbody s1.
  assert (sweep_one now (set_status caseItem pending_judgement)
          = set_status caseItem pending_judgement) as Hsw.
  { unfold sweep_one, should_expire, acceptance_is. cbn [set_status c_acceptance].
    destruct Hacc as [-> | ->]; reflexivity. }
  unfold get_case. rewrite getCase_swept, Hf1. cbn [option_map].
  rewrite Hsw.
  assert (assertParticipant userId (set_status caseItem pending_judgement)
          = true) as -> by exact Hpart.
  cbn [negb fst set_status c_id]. rewrite Hid, listHearings_swept, Hl1.
  destruct (resolve_round_above (listHearings s caseId) Hfin) as [Hnew Habove].
  rewrite latest_of_added.
  - eexists. split; [reflexivity|]. split; reflexivity.
  - apply Forall_app. split.
    + apply Forall_forall. intros h Hh. apply is_finite_not_NaN.
      apply (proj1 (Forall_forall _ _) Hfin). apply in_map. exact Hh.
    + constructor; [|constructor]. apply is_finite_not_NaN. exact Hnew.
  - exact Habove.
Qed.

Lemma new_hearing_is_latest_example :
  exists view,
    fst (get_case
           (snd (post_hearings two_hearings "case-1" "alice"
                   chores_hearing_body 50 "hearing-3" 51 52 no_ids))
           "case-1" "alice" 60) = inr view /\
    cv_latest_hearing view
    = Some (new_hearing "case-1" (int 3) "hearing-3" 51).
Proof.
  assert (Forall safe_integer [1; 2]) as Hsafe
    by (repeat constructor; unfold safe_integer; lia).
  destruct (new_hearing_is_latest two_hearings "case-1" "alice"
              chores_hearing_body 50 "hearing-3" 51 52 no_ids
              (example_case pending_judgement acc_accepted None)
              _ 60 [1; 2] eq_refl eq_refl (or_introl eq_refl) eq_refl eq_refl
              eq_refl Hsafe)
    as (view & Hview & _ & Hlatest).
  exists view. split; [exact Hview | exact Hlatest].
Defined.

(** ** The list of a user's cases *)

Lemma cases_follow_In (l l' : list Case) (c : Case) :
  cases_follow l l' -> In c l -> exists c', In c' l' /\ case_moves c c'.
Proof.
  intros (l1 & l2 & -> & H) Hin.
  induction H as [|x y l l1 Hxy Hl IH]; [contradiction|].
  destruct Hin as [<-|Hin].
  - exists y. split; [left; reflexivity | exact Hxy].
  - destruct (IH Hin) as (c' & Hc' & Hm). exists c'.
    split; [right; exact Hc' | exact Hm].
Qed.

(** X21.  A case stays on its participants' lists.  A case that
    [GET /cases] lists for a user is, after any requests, still listed for
    that user at any later read: a case with the same identity, no
    participant removed. *)
Theorem listed_case_stays (is_email : string -> bool) (evs : list Event)
    (s : Store) (userId : string) (t t' : Z) (c : Case) :
  In c (fst (listCasesByUser s userId t)) ->
  exists c',
    In c' (fst (listCasesByUser
                  (run is_email (snd (listCasesByUser s userId t)) evs)
                  userId t')) /\
    case_moves c c'.
Proof.
  unfold listCasesByUser. cbn [fst snd]. intros Hin.
  apply filter_In in Hin. destruct Hin as [Hin Hp].
  destruct (cases_follow_In _ _ c
              (run_cases is_email evs (expireInvites s t)) Hin)
    as (c1 & Hc1 & Hm1).
  exists (sweep_one t' c1).
  pose proof (case_moves_trans _ _ _ Hm1 (sweep_one_moves t' c1)) as Hm.
  split; [|exact Hm].
  apply filter_In. split.
  - rewrite expireInvites_cases. apply in_map. exact Hc1.
  - destruct Hm as (_ & _ & _ & _ & _ & _ & _ & _ & Hpart & _).
    unfold participants_of in Hpart.
    destruct (c_participant_ids c) as [l|]; [|discriminate].
    apply includes_In in Hp. specialize (Hpart userId Hp).
    destruct (c_participant_ids (sweep_one t' c1)) as [l'|];
      [|contradiction].
    apply includes_In. exact Hpart.
Qed.

Lemma listed_case_stays_example :
  exists c',
    In c' (fst (listCasesByUser
                  (run no_email
                     (snd (listCasesByUser (store_with pending_case) "bob" 50))
                     [EvPostReject "case-1" "bob"])
                  "bob" 500)) /\
    case_moves pending_case c'.
Proof.
  apply (listed_case_stays no_email [EvPostReject "case-1" "bob"]
           (store_with pending_case) "bob" 50 500 pending_case).
  left. reflexivity.
Defined.

(** ** Chat *)

Lemma insert_sorted_In {T : Type} (cmp : T -> T -> number) (x a : T)
    (l : list T) :
  In x (insert_sorted cmp a l) <-> x = a \/ In x l.
Proof.
  induction l as [|y t IH]; cbn [insert_sorted].
  - simpl. intuition congruence.
  - destruct (num_ltb (Fin 0) (cmp a y)).
    + cbn [In]. rewrite IH. cbn [In]. intuition congruence.
    + cbn [In]. intuition congruence.
Qed.

Lemma Array_sort_In {T : Type} (cmp : T -> T -> number) (x : T)
    (l : list T) :
  In x (Array_sort cmp l) <-> In x l.
Proof.
  induction l as [|a l IH]; [reflexivity|].
  cbn [Array_sort fold_right]. fold (Array_sort cmp l).
  rewrite insert_sorted_In, IH. cbn [In]. intuition congruence.
Qed.

Lemma insert_sorted_length {T : Type} (cmp : T -> T -> number) (a : T)
    (l : list T) :
  List.length (insert_sorted cmp a l) = S (List.length l).
Proof.
  induction l as [|y t IH]; [reflexivity|]. cbn [insert_sorted].
  destruct (num_ltb (Fin 0) (cmp a y)); cbn [List.length];
    [rewrite IH|]; reflexivity.
Qed.

Lemma Array_sort_length {T : Type} (cmp : T -> T -> number) (l : list T) :
  List.length (Array_sort cmp l) = List.length l.
Proof.
  induction l as [|a l IH]; [reflexivity|].
  cbn [Array_sort fold_right]. fold (Array_sort cmp l).
  rewrite insert_sorted_length, IH. reflexivity.
Qed.

Lemma by_created_at_pos (a b : ChatMessage) :
  num_ltb (Fin 0) (by_created_at a b) = (m_created_at b <? m_created_at a).
Proof.
  unfold by_created_at.
  destruct (Z.compare_spec (m_created_at a) (m_created_at b)) as [E|E|E];
    symmetry.
  - rewrite E. apply Z.ltb_irrefl.
  - apply Z.ltb_ge. lia.
  - apply Z.ltb_lt. exact E.
Qed.

Lemma insert_ascending (a : ChatMessage) (l : list ChatMessage) :
  ascending l -> ascending (insert_sorted by_created_at a l).
Proof.
  induction l as [|y t IH]; cbn [insert_sorted ascending].
  - intros _. split; [intros z []|exact I].
  - intros [Hy Ht]. rewrite by_created_at_pos.
    destruct (Z.ltb_spec (m_created_at y) (m_created_at a)) as [E|E].
    + cbn [ascending]. split; [|exact (IH Ht)].
      intros z Hz. apply insert_sorted_In in Hz. destruct Hz as [->|Hz].
      * lia.
      * exact (Hy z Hz).
    + cbn [ascending]. split; [|split; [exact Hy | exact Ht]].
      intros z [<-|Hz]; [exact E|]. specialize (Hy z Hz). lia.
Qed.

Lemma Array_sort_ascending (l : list ChatMessage) :
  ascending (Array_sort by_created_at l).
Proof.
  induction l as [|a l IH]; [exact I|].
  cbn [Array_sort fold_right]. fold (Array_sort by_created_at l).
  apply insert_ascending. exact IH.
Qed.

Lemma between_users_sym (userId peerId : string) (m : ChatMessage) :
  between_users peerId userId m = between_users userId peerId m.
Proof. unfold between_users. apply Bool.orb_comm. Qed.

Lemma between_users_spec (userId peerId : string) (m : ChatMessage) :
  between_users userId peerId m = true <->
  (m_from_user_id m = userId /\ m_to_user_id m = peerId) \/
  (m_from_user_id m = peerId /\ m_to_user_id m = userId).
Proof.
  unfold between_users.
  rewrite Bool.orb_true_iff, !Bool.andb_true_iff, !String.eqb_eq.
  reflexivity.
Qed.

(** X22.  A conversation is the same for both sides.  [listMessages] gives
    exactly the stored messages that one of the two users sent to the other,
    each as often as it is stored, in the order of their instants, and gives
    the same list whichever of the two asks.  A message that [saveMessage]
    stores is in the conversation of its sender and its receiver, which
    grows by one. *)
Theorem listMessages_conversation (s : Store) (userId peerId : string) :
  (forall m,
     In m (listMessages s userId peerId) <->
     In m (messages (cache s)) /\
     ((m_from_user_id m = userId /\ m_to_user_id m = peerId) \/
      (m_from_user_id m = peerId /\ m_to_user_id m = userId))) /\
  List.length (listMessages s userId peerId)
  = List.length (filter (between_users userId peerId) (messages (cache s))) /\
  ascending (listMessages s userId peerId) /\
  listMessages s peerId userId = listMessages s userId peerId /\
  (forall content id now,
     let msg := fst (saveMessage s userId peerId content id now) in
     let s1 := snd (saveMessage s userId peerId content id now) in
     In msg (listMessages s1 userId peerId) /\
     In msg (listMessages s1 peerId userId) /\
     List.length (listMessages s1 userId peerId)
     = S (List.length (listMessages s userId peerId))).
Proof.
  assert (forall u p, listMessages s p u = listMessages s u p) as Hsym.
  { intros u p. unfold listMessages. f_equal. apply filter_ext.
    intros m. apply between_users_sym. }
  split; [|split; [|split; [|split]]].
  - intros m. unfold listMessages.
    rewrite Array_sort_In, filter_In, between_users_spec. reflexivity.
  - apply Array_sort_length.
  - apply Array_sort_ascending.
  - apply Hsym.
  - intros content id now. cbv zeta. unfold saveMessage. cbn [fst snd].
    set (msg := {| m_id := id; m_from_user_id := userId;
                   m_to_user_id := peerId; m_content := content;
                   m_created_at := now |}).
    assert (between_users userId peerId msg = true) as Hb.
    { apply between_users_spec. left. split; reflexivity. }
    assert (In msg (Array_sort by_created_at
                      (filter (between_users userId peerId)
                         (messages (cache s) ++ [msg])))) as Hin.
    { apply Array_sort_In. apply filter_In. split; [|exact Hb].
      apply in_or_app. right. left. reflexivity. }
    split; [exact Hin|]. split.
    + unfold listMessages. cbn [save cache set_messages messages].
      rewrite (filter_ext _ _ (between_users_sym userId peerId)).
      exact Hin.
    + unfold listMessages. cbn [save cache set_messages messages].
      rewrite !Array_sort_length, filter_app, length_app.
      cbn [filter]. rewrite Hb. cbn [List.length]. lia.
Qed.

Lemma slice_from_end_suffix {T : Type} (limit : number) (l : list T) :
  exists older, l = older ++ slice_from_end limit l.
Proof.
  assert (exists older, l = older ++ l) as Hall by (exists []; reflexivity).
  destruct limit as [| | |q]; try exact Hall. cbn [slice_from_end].
  destruct (Qfloor q =? 0); [exact Hall|].
  eexists. symmetry. apply firstn_skipn.
Qed.

Lemma num_ltb_0_int (n : Z) : num_ltb (Fin 0) (int n) = (0 <? n).
Proof.
  unfold int. cbn [num_ltb]. unfold Qle_bool. cbn [Qnum Qden inject_Z].
  rewrite !Z.mul_1_r. destruct (Z.leb_spec n 0), (Z.ltb_spec 0 n);
    try reflexivity; lia.
Qed.

(** X23.  A page of a conversation.  [listMessagesPaged] gives the end of
    the conversation: the messages whose timestamp is greater, as a string,
    than a [since] that is given and not empty, and of those a limit leaves
    out the older ones.  A whole limit of at least 1 gives that many
    messages, or all when there are fewer; no limit, NaN, or a limit of 0 or
    less gives all, and so does a limit between 0 and 1.  When [since] is
    itself a timestamp and the order of the strings is the order of the
    instants on it and on the timestamps of the conversation, the messages
    kept are those after that instant. *)
Theorem listMessagesPaged_page (toISOString : Z -> string)
    (string_gtb : string -> string -> bool) (s : Store)
    (userId peerId : string) (since : option string)
    (limit : option number) :
  let paged := listMessagesPaged toISOString string_gtb s userId peerId in
  let all := paged since None in
  let page := paged since limit in
  (exists older, all = older ++ page) /\
  (forall m,
     In m all <->
     In m (listMessages s userId peerId) /\
     forall t, since = Some t -> t <> "" ->
               string_gtb (toISOString (m_created_at m)) t = true) /\
  (forall n, 1 <= n -> limit = Some (int n) ->
     Z.of_nat (List.length page) = Z.min n (Z.of_nat (List.length all))) /\
  (limit = None \/ limit = Some NaN \/
   (exists q, limit = Some (Fin q) /\ (q < 1)%Q) ->
   page = all) /\
  (forall t0,
     since = Some (toISOString t0) -> toISOString t0 <> "" ->
     (forall m, In m (listMessages s userId peerId) ->
        string_gtb (toISOString (m_created_at m)) (toISOString t0)
        = (t0 <? m_created_at m)) ->
     forall m, In m all <->
               In m (listMessages s userId peerId) /\ t0 < m_created_at m).
Proof.
  cbv zeta. unfold listMessagesPaged.
  set (msgs := if truthy since then _ else _).
  assert (forall m,
            In m msgs <->
            In m (listMessages s userId peerId) /\
            forall t, since = Some t -> t <> "" ->
                      string_gtb (toISOString (m_created_at m)) t = true)
    as Hsince.
  { intros m. unfold msgs. destruct since as [t|]; cbn [truthy].
    - destruct (String.eqb_spec t "") as [->|Hne]; cbn [negb].
      + split; [|tauto]. intros H. split; [exact H|].
        intros t' E Hne. injection E as <-. contradiction.
      + rewrite filter_In. split.
        * intros [Hin Hgt]. split; [exact Hin|]. intros t' E _.
          injection E as <-. exact Hgt.
        * intros [Hin Hgt]. split; [exact Hin|]. exact (Hgt t eq_refl Hne).
    - split; [|tauto]. intros H. split; [exact H | discriminate]. }
  clearbody msgs.
  split; [|split; [|split; [|split]]].
  - destruct limit as [n|]; [|exists []; reflexivity].
    destruct (num_ltb (Fin 0) n); [|exists []; reflexivity].
    apply slice_from_end_suffix.
  - exact Hsince.
  - intros n Hn ->. rewrite num_ltb_0_int.
    assert ((0 <? n) = true) as -> by (apply Z.ltb_lt; lia).
    unfold int. cbn [slice_from_end]. rewrite Qfloor_Z.
    assert ((n =? 0) = false) as -> by (apply Z.eqb_neq; lia).
    rewrite length_skipn. lia.
  - intros [->|[->|(q & -> & Hq)]]; try reflexivity.
    cbn [num_ltb]. destruct (Qle_bool q 0) eqn:E; [reflexivity|].
    cbn [negb slice_from_end].
    assert (~ (q <= 0)%Q) as N
      by (intros H; apply Qle_bool_iff in H; congruence).
    assert (Qfloor q = 0) as ->; [|reflexivity].
    apply Z.le_antisymm.
    + assert (Qfloor q < 1); [|lia]. rewrite Zlt_Qlt.
      pose proof (Qfloor_le q). change (inject_Z 1) with 1%Q. lra.
    + rewrite <- (Qfloor_Z 0). apply Qfloor_resp_le.
      change (inject_Z 0) with 0%Q. lra.
  - intros t0 Hs Hne Hord m. rewrite Hsince. split.
    + intros [Hin Hgt]. split; [exact Hin|].
      specialize (Hgt _ Hs Hne). rewrite (Hord m Hin) in Hgt.
      apply Z.ltb_lt. exact Hgt.
    + intros [Hin Hlt]. split; [exact Hin|]. intros t E _.
      rewrite Hs in E. injection E as <-. rewrite (Hord m Hin).
      apply Z.ltb_lt. exact Hlt.
Qed.

Lemma listMessagesPaged_page_example :
  map m_id
    (listMessagesPaged (fun _ => "") (fun _ _ => false) chat_store "bob"
       "alice" None (Some (int 2)))
  = ["m1"; "m4"] /\
  Z.of_nat
    (List.length
       (listMessagesPaged (fun _ => "") (fun _ _ => false) chat_store "bob"
          "alice" None (Some (int 2)))) = 2.
Proof.
  split; [reflexivity|].
  destruct (listMessagesPaged_page (fun _ => "") (fun _ _ => false)
              chat_store "bob" "alice" None (Some (int 2)))
    as (_ & _ & Hn & _).
  exact (Hn 2 ltac:(lia) eq_refl).
Defined.

Lemma Map_set_keys {V : Type} (k k' : string) (v : V)
    (m : list (string * V)) :
  In k' (map fst (Map_set k v m)) <-> k' = k \/ In k' (map fst m).
Proof.
  induction m as [|[k0 v0] t IH]; cbn [Map_set map fst In].
  - intuition congruence.
  - destruct (String.eqb_spec k k0) as [<-|N]; cbn [map fst In].
    + intuition congruence.
    + rewrite IH. intuition congruence.
Qed.

Lemma Map_set_NoDup {V : Type} (k : string) (v : V) (m : list (string * V)) :
  NoDup (map fst m) -> NoDup (map fst (Map_set k v m)).
Proof.
  induction m as [|[k0 v0] t IH]; cbn [Map_set map fst]; intros H.
  - constructor; [intros [] | constructor].
  - apply NoDup_cons_iff in H. destruct H as [Hk0 Ht].
    destruct (String.eqb_spec k k0) as [<-|N]; cbn [map fst].
    + constructor; assumption.
    + constructor; [|exact (IH Ht)].
      intros Hin. apply Map_set_keys in Hin. destruct Hin as [E|Hin].
      * apply N. symmetry. exact E.
      * exact (Hk0 Hin).
Qed.

Lemma Map_set_In {V : Type} (k k' : string) (v v' : V)
    (m : list (string * V)) :
  NoDup (map fst m) ->
  In (k', v') (Map_set k v m) ->
  (k' = k /\ v' = v) \/ (k' <> k /\ In (k', v') m).
Proof.
  induction m as [|[k0 v0] t IH]; cbn [Map_set map fst]; intros Hnd Hin.
  - destruct Hin as [E|[]]. injection E as <- <-. left. split; reflexivity.
  - apply NoDup_cons_iff in Hnd. destruct Hnd as [Hk0 Ht].
    destruct (String.eqb_spec k k0) as [<-|N].
    + destruct Hin as [E|Hin].
      * injection E as <- <-. left. split; reflexivity.
      * right. split; [|right; exact Hin].
        intros ->. apply Hk0. apply (in_map fst) in Hin. exact Hin.
    + destruct Hin as [E|Hin].
      * injection E as <- <-. right. split; [|left; reflexivity].
        intros E. apply N. symmetry. exact E.
      * destruct (IH Ht Hin) as [H|[Hne H]]; [left; exact H|].
        right. split; [exact Hne | right; exact H].
Qed.

Lemma lookup_In {V : Type} (k : string) (v : V) (m : list (string * V)) :
  lookup k m = Some v -> In (k, v) m.
Proof.
  induction m as [|[k0 v0] t IH]; cbn [lookup]; [discriminate|].
  destruct (String.eqb_spec k k0) as [<-|N].
  - intros E. injection E as <-. left. reflexivity.
  - intros H. right. exact (IH H).
Qed.

Lemma lookup_absent {V : Type} (k : string) (m : list (string * V)) :
  lookup k m = None -> ~ In k (map fst m).
Proof.
  induction m as [|[k0 v0] t IH]; cbn [lookup map fst In]; [tauto|].
  destruct (String.eqb_spec k k0) as [<-|N]; [discriminate|].
  intros H [E|Hin]; [apply N; symmetry; exact E | exact (IH H Hin)].
Qed.

(** X24.  One entry per peer, with the newest message.  [listConversations]
    gives one entry for each user that the asking user has exchanged a
    message with, and no other; its message is one of those exchanged with
    that peer, and none of them is newer. *)
Theorem listConversations_newest (s : Store) (userId : string) :
  let convs := listConversations s userId in
  NoDup (map fst convs) /\
  (forall peer last,
     In (peer, last) convs ->
     In last (messages (cache s)) /\
     peer_of userId last = Some peer /\
     forall m, In m (messages (cache s)) -> peer_of userId m = Some peer ->
               m_created_at m <= m_created_at last) /\
  (forall m peer,
     In m (messages (cache s)) -> peer_of userId m = Some peer ->
     In peer (map fst convs)).
Proof.
  cbv zeta. unfold listConversations.
  set (f := fun (peers : list (string * ChatMessage)) (m : ChatMessage) =>
              if String.eqb (m_from_user_id m) userId then
                Map_set (m_to_user_id m)
                  (newer (lookup (m_to_user_id m) peers) m) peers
              else if String.eqb (m_to_user_id m) userId then
                Map_set (m_from_user_id m)
                  (newer (lookup (m_from_user_id m) peers) m) peers
              else peers).
  assert (forall P m,
            f P m = match peer_of userId m with
                    | Some k => Map_set k (newer (lookup k P) m) P
                    | None => P
                    end) as Hf.
  { intros P m. unfold f, peer_of.
    destruct (String.eqb (m_from_user_id m) userId); [reflexivity|].
    destruct (String.eqb (m_to_user_id m) userId); reflexivity. }
  clearbody f.
  set (Inv := fun (L : list ChatMessage) (P : list (string * ChatMessage)) =>
    NoDup (map fst P) /\
    (forall peer last,
       In (peer, last) P ->
       In last L /\
       peer_of userId last = Some peer /\
       forall m, In m L -> peer_of userId m = Some peer ->
                 m_created_at m <= m_created_at last) /\
    (forall m peer,
       In m L -> peer_of userId m = Some peer -> In peer (map fst P))).
  assert (forall rest L P, Inv L P -> Inv (L ++ rest) (fold_left f rest P))
    as Hfold.
  { induction rest as [|m rest IH]; intros L P HI.
    - rewrite app_nil_r. exact HI.
    - cbn [fold_left].
      replace (L ++ m :: rest) with ((L ++ [m]) ++ rest)
        by (rewrite <- app_assoc; reflexivity).
      apply IH. rewrite Hf. destruct HI as (I1 & I2 & I3).
      destruct (peer_of userId m) as [k|] eqn:Hk.
      + split; [|split].
        * apply Map_set_NoDup. exact I1.
        * intros peer last Hin.
          apply (Map_set_In _ _ _ _ _ I1) in Hin.
          destruct Hin as [[-> ->]|[Hne Hin]].
          -- destruct (lookup k P) as [a|] eqn:Hl; cbn [newer].
             ++ destruct (I2 k a (lookup_In _ _ _ Hl)) as (Ja & Jb & Jc).
                destruct (Z.ltb_spec (m_created_at m) (m_created_at a))
                  as [E|E].
                ** split; [apply in_or_app; left; exact Ja|].
                   split; [exact Jb|]. intros m' Hm' Hp'.
                   apply in_app_or in Hm'.
                   destruct Hm' as [Hm'|[<-|[]]]; [exact (Jc m' Hm' Hp')|].
                   lia.
                ** split; [apply in_or_app; right; left; reflexivity|].
                   split; [exact Hk|]. intros m' Hm' Hp'.
                   apply in_app_or in Hm'.
                   destruct Hm' as [Hm'|[<-|[]]]; [|lia].
                   specialize (Jc m' Hm' Hp'). lia.
             ++ split; [apply in_or_app; right; left; reflexivity|].
                split; [exact Hk|]. intros m' Hm' Hp'.
                apply in_app_or in Hm'.
                destruct Hm' as [Hm'|[<-|[]]]; [|lia].
                exfalso. exact (lookup_absent _ _ Hl (I3 m' k Hm' Hp')).
          -- destruct (I2 peer last Hin) as (Ja & Jb & Jc).
             split; [apply in_or_app; left; exact Ja|].
             split; [exact Jb|]. intros m' Hm' Hp'.
             apply in_app_or in Hm'.
             destruct Hm' as [Hm'|[<-|[]]]; [exact (Jc m' Hm' Hp')|].
             rewrite Hk in Hp'. injection Hp' as E. exfalso. apply Hne.
             symmetry. exact E.
        * intros m' peer Hm' Hp'. apply Map_set_keys.
          apply in_app_or in Hm'. destruct Hm' as [Hm'|[<-|[]]].
          -- right. exact (I3 m' peer Hm' Hp').
          -- left. rewrite Hk in Hp'. injection Hp' as E. symmetry. exact E.
      + split; [exact I1|]. split.
        * intros peer last Hin. destruct (I2 peer last Hin) as (Ja & Jb & Jc).
          split; [apply in_or_app; left; exact Ja|].
          split; [exact Jb|]. intros m' Hm' Hp'.
          apply in_app_or in Hm'.
          destruct Hm' as [Hm'|[<-|[]]]; [exact (Jc m' Hm' Hp')|].
          rewrite Hk in Hp'. discriminate.
        * intros m' peer Hm' Hp'. apply in_app_or in Hm'.
          destruct Hm' as [Hm'|[<-|[]]]; [exact (I3 m' peer Hm' Hp')|].
          rewrite Hk in Hp'. discriminate. }
  apply (Hfold (messages (cache s)) [] []).
  split; [constructor|]. split.
  - intros peer last [].
  - intros m peer [].
Qed.

(** ** What is on disk *)

Lemma persisted_save (d : DataShape) : persisted (save d).
Proof. reflexivity. Qed.

Lemma persisted_sweep (s : Store) (now : Z) :
  persisted s -> persisted (expireInvites s now).
Proof.
  intros H. unfold expireInvites.
  destruct (existsb (should_expire now) (cases (cache s)));
    [apply persisted_save | exact H].
Qed.

(** X25.  The file follows the cache.  If the file holds what the cache
    holds, it still does after any event that is not an appeal: every change
    these make to the cache is saved. *)
Theorem file_follows_cache (is_email : string -> bool) (s : Store)
    (ev : Event) :
  persisted s -> ~ is_appeal ev -> persisted (step is_email s ev).
Proof.
  intros H Hev. destruct ev; cbn [step].
  - unfold post_cases.
    destruct (createCaseSchema is_email reqBody) as [data|]; [|exact H].
    destruct (truthy (cb_friend_email data)).
    + destruct (findUserByEmail s _); [apply persisted_save | exact H].
    + apply persisted_save.
  - apply persisted_sweep. exact H.
  - apply persisted_sweep. exact H.
  - pose proof (persisted_sweep s t_sweep H) as Hs.
    unfold post_hearings, getCase.
    destruct (find (has_id caseId) (cases (cache (expireInvites s t_sweep))))
      as [caseItem|]; [|exact Hs].
    destruct (negb (assertParticipant userId caseItem)); [exact Hs|].
    destruct (match c_acceptance caseItem with
              | Some acc_accepted | None => false
              | Some _ => true
              end); [exact Hs|].
    destruct (hearingSchema reqBody) as [data|]; [|exact Hs].
    apply persisted_save.
  - unfold post_accept, acceptCase.
    destruct (find (has_id caseId) (cases (cache s))) as [found|];
      [|exact H].
    destruct (acceptance_is found acc_rejected); [exact H|].
    destruct (acceptance_is found acc_accepted); [exact H|].
    destruct (expiry_passed found now); [apply persisted_save|].
    destruct (negb (opt_string_eqb (c_invited_user_id found) (Some userId)));
      [exact H | apply persisted_save].
  - unfold post_reject, rejectCase.
    destruct (find (has_id caseId) (cases (cache s))) as [found|];
      [|exact H].
    destruct (negb (opt_string_eqb (c_invited_user_id found) (Some userId)));
      [exact H | apply persisted_save].
  - unfold judge_request.
    pose proof (find_hearing_of_case_store s caseId hearingId userId now)
      as E.
    destruct (find_hearing_of_case s caseId hearingId userId now)
      as [[r|[c h]] s1]; cbn [snd] in *; rewrite E;
      apply persisted_sweep; exact H.
  - destruct outcome as [e|v]; [exact H | apply persisted_save].
  - unfold get_verdict.
    pose proof (find_hearing_of_case_store s caseId hearingId userId now)
      as E.
    destruct (find_hearing_of_case s caseId hearingId userId now)
      as [[r|[c h]] s1]; cbn [snd] in *;
      [|destruct (getVerdict s1 (h_id h))]; cbn [snd]; rewrite E;
      apply persisted_sweep; exact H.
  - exfalso. apply Hev. exact I.
  - unfold createUser.
    destruct (find _ (users (cache s))); [exact H | apply persisted_save].
  - unfold addFriend.
    destruct (find (user_has_id userId) (users (cache s))); [|exact H].
    destruct (find (user_has_id friendId) (users (cache s)));
      [apply persisted_save | exact H].
  - apply persisted_save.
Qed.

Lemma file_follows_cache_example :
  persisted (step no_email (store_with pending_case)
               (EvPostAccept "case-1" "bob" 50)).
Proof.
  apply (file_follows_cache no_email (store_with pending_case)
           (EvPostAccept "case-1" "bob" 50)).
  - reflexivity.
  - intros [].
Defined.

(** X26.  An appeal is not saved at once.  After an appeal that passes the
    checks of the route, the cache holds the case as appealed and the file
    holds it as pending judgement, so the file no longer holds what the
    cache holds; the next call that saves, here [saveMessage], writes the
    appealed status to the file. *)
Theorem appeal_is_saved_late (s : Store) (caseId hearingId userId : string)
    (reqBody : option json) (t_sweep : Z) (hid : string)
    (t_created t_stamp : Z) (eid : nat -> string)
    (caseItem : Case) (hearing : Hearing) (data : AppealBody) (s1 : Store) :
  getCase s caseId t_sweep = (Some caseItem, s1) ->
  assertParticipant userId caseItem = true ->
  getHearing s1 hearingId = Some hearing ->
  h_case_id hearing = c_id caseItem ->
  appealSchema reqBody = Some data ->
  let s2 := snd (post_appeal s caseId hearingId userId reqBody t_sweep hid
                   t_created t_stamp eid) in
  option_map c_status (find (has_id caseId) (cases (cache s2)))
  = Some appealed /\
  option_map c_status (find (has_id caseId) (cases (file s2)))
  = Some pending_judgement /\
  ~ persisted s2 /\
  forall from to content id now,
    let s3 := snd (saveMessage s2 from to content id now) in
    persisted s3 /\
    option_map c_status (find (has_id caseId) (cases (file s3)))
    = Some appealed.
Proof.
  intros Hcase Hpart Hh Hbel Hbody.
  destruct (post_appeal_effect s caseId hearingId userId reqBody t_sweep hid
              t_created t_stamp eid caseItem hearing data s1
              Hcase Hpart Hh Hbel Hbody) as (_ & _ & Hc & _ & Hfile).
  cbv zeta.
  set (s2 := snd (post_appeal s caseId hearingId userId reqBody t_sweep hid
                    t_created t_stamp eid)) in *.
  split; [rewrite Hc; reflexivity|].
  split; [rewrite Hfile; reflexivity|].
  split.
  - unfold persisted. intros E. rewrite E, Hc in Hfile. discriminate.
  - intros from to content id now. split; [apply persisted_save|].
    unfold saveMessage. cbn [snd save file set_messages cases].
    rewrite Hc. reflexivity.
Qed.

Lemma appeal_is_saved_late_example :
  ~ persisted (snd (post_appeal judged_store "case-1" "hearing-1" "alice"
                      bare_appeal_body 50 "hearing-2" 51 52 no_ids)).
Proof.
  destruct (appeal_is_saved_late judged_store "case-1" "hearing-1" "alice"
              bare_appeal_body 50 "hearing-2" 51 52 no_ids
              _ _ _ _ eq_refl eq_refl eq_refl eq_refl eq_refl)
    as (_ & _ & H & _).
  exact H.
Defined.

(** ** Who changes a verdict *)

Lemma saveVerdict_other (s : Store) (v : Verdict) (hearingId : string) :
  v_hearing_id v <> hearingId ->
  getVerdict (saveVerdict s v) hearingId = getVerdict s hearingId.
Proof.
  intros Hne. unfold getVerdict, saveVerdict.
  cbn [save cache set_cases set_hearings set_verdicts verdicts].
  change (fun v0 => String.eqb (v_hearing_id v0) hearingId)
    with (keyed v_hearing_id hearingId).
  change (fun v0 => negb (String.eqb (v_hearing_id v0) (v_hearing_id v)))
    with (not_keyed v_hearing_id (v_hearing_id v)).
  rewrite find_app, find_keyed_other by congruence.
  destruct (find (keyed v_hearing_id hearingId) (verdicts (cache s)));
    [reflexivity|].
  cbn [find]. unfold keyed.
  assert (String.eqb (v_hearing_id v) hearingId = false) as ->
    by (apply String.eqb_neq; exact Hne).
  reflexivity.
Qed.

(** X27.  Only judging changes a verdict.  Along any run in which no
    judge request is settled with a verdict for a hearing, the verdict the
    store returns for that hearing stays what it was: no other request,
    appeals and later hearings included, removes or replaces it. *)
Theorem verdict_stays (is_email : string -> bool) (evs : list Event)
    (s : Store) (hearingId : string) :
  Forall (fun ev => ~ settles hearingId ev) evs ->
  getVerdict (run is_email s evs) hearingId = getVerdict s hearingId.
Proof.
  intros H. revert s. induction H as [|ev evs Hev _ IH]; intros s;
    [reflexivity|].
  cbn [run fold_left]. fold (run is_email (step is_email s ev) evs).
  rewrite IH.
  destruct (step_verdicts is_email s ev) as [E|(v & -> & E)].
  - unfold getVerdict. rewrite E. reflexivity.
  - rewrite E. apply saveVerdict_other. exact Hev.
Qed.

Lemma verdict_stays_example :
  getVerdict
    (run no_email judged_store
       [EvPostAppeal "case-1" "hearing-1" "alice" bare_appeal_body 50
          "hearing-2" 51 52 no_ids;
        EvJudgeSettle (inl Rejected)])
    "hearing-1"
  = getVerdict judged_store "hearing-1".
Proof.
  apply (verdict_stays no_email
           [EvPostAppeal "case-1" "hearing-1" "alice" bare_appeal_body 50
              "hearing-2" 51 52 no_ids;
            EvJudgeSettle (inl Rejected)]
           judged_store "hearing-1").
  repeat constructor; intros [].
Defined.

(** ** What becomes of a hearing *)

Lemma find_update_first_any {T : Type} (p q : T -> bool) (f : T -> T)
    (l : list T) (x : T) :
  (forall y, q (f y) = q y) ->
  find q l = Some x ->
  find q (update_first p f l) = Some x \/
  find q (update_first p f l) = Some (f x).
Proof.
  intros Hq. induction l as [|y t IH]; [discriminate|].
  cbn [update_first find]. destruct (p y) eqn:Ep; cbn [find].
  - rewrite Hq. destruct (q y).
    + intros E. injection E as <-. right. reflexivity.
    + intros H. left. exact H.
  - destruct (q y).
    + intros H. left. exact H.
    + exact IH.
Qed.

(** Every event leaves the hearings as they are, adds one at the end, or
    marks one as judged. *)
Lemma step_hearings (is_email : string -> bool) (s : Store) (ev : Event) :
  hearings (cache (step is_email s ev)) = hearings (cache s) \/
  (exists h, hearings (cache (step is_email s ev)) = hearings (cache s) ++ [h])
  \/
  (exists p,
     hearings (cache (step is_email s ev))
     = update_first p (fun h => set_h_status h judged) (hearings (cache s))).
Proof.
  destruct ev; cbn [step].
  - left. apply post_cases_hearings.
  - left. exact (proj1 (expireInvites_keeps s now)).
  - left. exact (proj1 (expireInvites_keeps s now)).
  - pose proof (proj1 (expireInvites_keeps s t_sweep)) as Kh.
    unfold post_hearings, getCase.
    destruct (find (has_id caseId) (cases (cache (expireInvites s t_sweep))))
      as [caseItem|]; [|left; exact Kh].
    destruct (negb (assertParticipant userId caseItem)); [left; exact Kh|].
    destruct (match c_acceptance caseItem with
              | Some acc_accepted | None => false
              | Some _ => true
              end); [left; exact Kh|].
    destruct (hearingSchema reqBody) as [data|]; [|left; exact Kh].
    right. left. eexists. unfold createHearing.
    cbn [snd saveEvidence saveStatements save cache set_evidence
         set_statements set_cases set_hearings hearings].
    rewrite Kh. reflexivity.
  - left. unfold post_accept.
    pose proof (acceptCase_hearings s caseId userId now) as H.
    destruct (acceptCase s caseId userId now) as [[e|c] s1]; exact H.
  - left. unfold post_reject.
    pose proof (rejectCase_hearings s caseId userId) as H.
    destruct (rejectCase s caseId userId) as [[e|c] s1]; exact H.
  - left. unfold judge_request.
    pose proof (find_hearing_of_case_store s caseId hearingId userId now)
      as H.
    destruct (find_hearing_of_case s caseId hearingId userId now)
      as [[r|[c h]] s1]; cbn [snd] in *; rewrite H;
      exact (proj1 (expireInvites_keeps s now)).
  - destruct outcome as [e|v]; [left; reflexivity|].
    right. right. eexists. reflexivity.
  - left. unfold get_verdict.
    pose proof (find_hearing_of_case_store s caseId hearingId userId now)
      as H.
    destruct (find_hearing_of_case s caseId hearingId userId now)
      as [[r|[c h]] s1]; cbn [snd] in *;
      [|destruct (getVerdict s1 (h_id h))]; cbn [snd]; rewrite H;
      exact (proj1 (expireInvites_keeps s now)).
  - pose proof (proj1 (expireInvites_keeps s t_sweep)) as Kh.
    unfold post_appeal, find_hearing_of_case, getCase.
    destruct (find (has_id caseId) (cases (cache (expireInvites s t_sweep))))
      as [caseItem|]; [|left; exact Kh].
    destruct (negb (assertParticipant userId caseItem)); [left; exact Kh|].
    destruct (getHearing (expireInvites s t_sweep) hearingId) as [h|];
      [|left; exact Kh].
    destruct (negb (String.eqb (h_case_id h) (c_id caseItem)));
      [left; exact Kh|].
    destruct (appealSchema reqBody) as [data|]; [|left; exact Kh].
    right. left. eexists. unfold createHearing.
    destruct (ab_statements data), (ab_evidence data);
      cbn [snd saveEvidence saveStatements save cache set_evidence
           set_statements set_cases set_hearings hearings];
      rewrite Kh; reflexivity.
  - left. unfold createUser.
    destruct (find _ (users (cache s))); reflexivity.
  - left. unfold addFriend.
    destruct (find (user_has_id userId) (users (cache s)));
      [|reflexivity].
    destruct (find (user_has_id friendId) (users (cache s))); reflexivity.
  - left. reflexivity.
Qed.

Lemma hearing_moves_refl (h : Hearing) : hearing_moves h h.
Proof. unfold hearing_moves. tauto. Qed.

Lemma hearing_moves_trans (h1 h2 h3 : Hearing) :
  hearing_moves h1 h2 -> hearing_moves h2 h3 -> hearing_moves h1 h3.
Proof.
  unfold hearing_moves.
  intros (I1 & C1 & R1 & T1 & J1) (I2 & C2 & R2 & T2 & J2).
  repeat split; try congruence. intros H. exact (J2 (J1 H)).
Qed.

(** X28.  A hearing is kept as it was filed.  Whatever requests are served,
    a hearing that the store finds under an identifier is still found under
    it afterwards, for the same case, with the same round and creation time;
    and once judged it stays judged. *)
Theorem hearing_is_kept (is_email : string -> bool) (evs : list Event)
    (s : Store) (hearingId : string) (h : Hearing) :
  getHearing s hearingId = Some h ->
  exists h',
    getHearing (run is_email s evs) hearingId = Some h' /\
    hearing_moves h h'.
Proof.
  revert s h. induction evs as [|ev evs IH]; intros s h Hh.
  - exists h. split; [exact Hh | apply hearing_moves_refl].
  - cbn [run fold_left]. fold (run is_email (step is_email s ev) evs).
    assert (exists h1, getHearing (step is_email s ev) hearingId = Some h1 /\
                       hearing_moves h h1) as (h1 & Hh1 & Hm1).
    { unfold getHearing in *.
      destruct (step_hearings is_email s ev) as [E|[[x E]|[p E]]];
        rewrite E.
      - exists h. split; [exact Hh | apply hearing_moves_refl].
      - exists h. rewrite find_app, Hh.
        split; [reflexivity | apply hearing_moves_refl].
      - destruct (find_update_first_any p (hearing_has_id hearingId)
                    (fun x => set_h_status x judged) _ h
                    (fun y => eq_refl) Hh) as [F|F]; rewrite F.
        + exists h. split; [reflexivity | apply hearing_moves_refl].
        + exists (set_h_status h judged). split; [reflexivity|].
          unfold hearing_moves. cbn. tauto. }
    destruct (IH _ _ Hh1) as (h' & Hh' & Hm').
    exists h'. split; [exact Hh' | exact (hearing_moves_trans _ _ _ Hm1 Hm')].
Qed.

Lemma hearing_is_kept_example :
  exists h',
    getHearing
      (run no_email judged_store
         [EvPostAppeal "case-1" "hearing-1" "alice" bare_appeal_body 50
            "hearing-2" 51 52 no_ids])
      "hearing-1" = Some h' /\
    hearing_moves (set_h_status (example_hearing submitted) judged) h'.
Proof.
  apply (hearing_is_kept no_email
           [EvPostAppeal "case-1" "hearing-1" "alice" bare_appeal_body 50
              "hearing-2" 51 52 no_ids]
           judged_store "hearing-1").
  reflexivity.
Defined.
